(** * ElasticsearchDocumentStore: a shallow embedding of [document_store.py]

    The store talks to an Elasticsearch backend through the client library.
    Python dictionaries are finite maps with string keys, Python exceptions
    are values of [exn], and every method of the store is a computation in a
    state-and-exception monad whose state records the store object and the
    sequence of calls made to the client library so far.  Python floats
    (relevance scores, vectors) are IEEE 754 binary64 values, Rocq's
    primitive floats; numpy's [exp] is a parameter. *)

From Stdlib Require Import Floats Reals ROrderedType Lra.
From stdpp Require Import gmap strings pretty list fin_maps.

Open Scope string_scope.

(** ** Python values *)

(** JSON-like values as they travel between the store and the client. *)
#[warnings="-register-all"]
Inductive pyval : Type :=
| PNone
| PBool (b : bool)
| PInt (z : Z)
| PFloat (r : float)
| PStr (s : string)
| PList (l : list pyval)
| PDict (d : gmap string pyval).

Abbreviation pydict := (gmap string pyval).

(** Python truthiness ([if v:]) for the values above. *)
Definition truthy (v : pyval) : bool :=
  match v with
  | PNone => false
  | PBool b => b
  | PInt z => negb (z =? 0)%Z
  | PFloat r => negb (PrimFloat.eqb r 0)
  | PStr s => negb (String.eqb s "")
  | PList l => match l with [] => false | _ => true end
  | PDict d => negb (bool_decide (d = ∅))
  end.

(** ** Exceptions *)

Inductive exn : Type :=
| ValueError (msg : string)
| KeyError (key : string)
| TypeError (msg : string)
| AttributeError (msg : string)
| AssertionError (msg : string)
| DuplicateDocumentError (msg : string)
| DocumentStoreError (msg : string)
| TransportError (msg : string).

(** [str(e)]: the message; a [KeyError] prints the quoted key. *)
Definition str_exn (e : exn) : string :=
  match e with
  | ValueError m | TypeError m | AttributeError m | AssertionError m
  | DuplicateDocumentError m | DocumentStoreError m | TransportError m => m
  | KeyError k => "'" ++ k ++ "'"
  end.

(** [isinstance(e, DuplicateDocumentError)]; a handler for the base class
    [DocumentStoreError] alone does not tell the two apart. *)
Definition is_DuplicateDocumentError (e : exn) : bool :=
  match e with DuplicateDocumentError _ => true | _ => false end.

(** [d[k]] on a dictionary. *)
Definition getitem (d : pydict) (k : string) : exn + pyval :=
  match d !! k with
  | Some v => inr v
  | None => inl (KeyError k)
  end.

(** ** Documents *)

(** The [Document] dataclass of the host framework.  The store reads and
    writes two attributes by name, [id] and [score]; the remaining ones
    (content, meta, embedding, ...) are kept together in [fields]. *)
Record Document : Type := mkDocument {
  id : string;
  score : option float;
  fields : pydict;
}.

Definition set_score (d : Document) (s : float) : Document :=
  {| id := id d; score := Some s; fields := fields d |}.

(** An element of a write batch: the annotation says [List[Document]], but
    Python lets a caller pass anything. *)
Inductive pyobj : Type :=
| IsDocument (d : Document)
| Other (v : pyval).

(** ** Calls made to the client library *)

(** The [knn] entry of a search body. *)
Record knn_spec : Type := mkKnn {
  knn_field : string;
  knn_query_vector : list float;
  knn_k : option Z;
  knn_num_candidates : Z;
  knn_filter : option pyval;
}.

(** The [query] entry of a search body: the [bool] query built by
    [filter_documents] (only a filter) or by the BM25 retrieval (a
    [multi_match] clause, optionally with a filter). *)
Inductive query_body : Type :=
| BoolFilter (clauses : pyval)
| BoolMultiMatch (query fuzziness type_ operator : string) (filter : option pyval).

(** The keyword arguments of [_search_documents]; an absent key is [None]. *)
Record search_kwargs : Type := mkKwargs {
  kw_size : option Z;
  kw_query : option query_body;
  kw_knn : option knn_spec;
}.

(** An action handed to the bulk helper. *)
Record action : Type := mkAction {
  _op_type : string;
  _id : string;
  _source : pydict;
}.

Inductive refresh_mode : Type := RefreshWaitFor | RefreshTrue.

(** Index mappings handed to [indices.create]. *)
Inductive mappings : Type :=
| CustomMapping (m : pydict)
| DefaultMapping (similarity : string).

(** Which of the two client handles carries a request. *)
Inductive client_kind : Type := SyncClient | AsyncClient.

(** One call of the client library, as the store makes it.  [info],
    [indices.exists], [indices.create] and [search] are one HTTP request
    each.  [CallBulk] is one call of the bulk helper ([helpers.bulk],
    [helpers.async_bulk]) with the whole list of actions: how the helper
    cuts the list into HTTP requests (none for an empty list, one per chunk
    of 500 actions otherwise) is its own business and not part of the
    trace. *)
Inductive call : Type :=
| CallInfo
| CallIndicesExists (index : string)
| CallIndicesCreate (index : string) (m : mappings)
| CallSearch (via : client_kind) (index : string) (from_ : nat) (kw : search_kwargs)
| CallBulk (via : client_kind) (index : string) (actions : list action) (refresh : refresh_mode).

(** ** Responses of the backend *)

(** A per-item failure reported to a call of the bulk helper,
    [{op: {"_id": .., "status": .., "error": {"type": ..}}}]. *)
Record bulk_error : Type := mkBulkError {
  be_op : string;
  be_id : string;
  be_status : Z;
  be_error_type : string;
}.

(** The backend is an oracle: what it answers may depend on every request it
    has seen before.  A hit is a dictionary; a search page carries its hits
    and [hits.total.value]; the answer to a call of the bulk helper carries
    the number of successful items and the per-item failures, over all the
    chunks the helper sent. *)
Record Backend : Type := mkBackend {
  info : list call -> exn + unit;
  indices_exists : list call -> string -> exn + bool;
  indices_create : list call -> string -> mappings -> exn + unit;
  search : list call -> client_kind -> string -> nat -> search_kwargs -> exn + (list pydict * Z);
  bulk : list call -> client_kind -> string -> list action -> refresh_mode -> exn + (Z * list bulk_error);
}.

(** ** The store object and the world *)

Record ElasticsearchDocumentStore : Type := mkStore {
  _index : string;
  _embedding_similarity_function : string;
  _custom_mapping : option pydict;
  _clients_created : bool;
  _initialized : bool;
}.

(** [__init__]: nothing is created or contacted yet. *)
Definition new_store (index similarity : string) (custom : option pydict) : ElasticsearchDocumentStore :=
  {| _index := index;
     _embedding_similarity_function := similarity;
     _custom_mapping := custom;
     _clients_created := false;
     _initialized := false |}.

Record World : Type := mkWorld {
  self : ElasticsearchDocumentStore;
  net : list call;
  warnings : list string;
}.

(** ** The monad of store methods *)

Inductive outcome (A : Type) : Type :=
| Ok (a : A)
| Raise (e : exn)
| OutOfFuel.
Arguments Ok {A} a.
Arguments Raise {A} e.
Arguments OutOfFuel {A}.

Definition M (A : Type) : Type := World -> outcome A * World.

Definition ret {A} (a : A) : M A := fun w => (Ok a, w).
Definition raise {A} (e : exn) : M A := fun w => (Raise e, w).
Definition bind {A B} (m : M A) (k : A -> M B) : M B :=
  fun w =>
    match m w with
    | (Ok a, w') => k a w'
    | (Raise e, w') => (Raise e, w')
    | (OutOfFuel, w') => (OutOfFuel, w')
    end.

Notation "x <- m ;; k" := (bind m (fun x => k))
  (at level 100, m at next level, right associativity).
Notation "m ;;; k" := (bind m (fun _ => k))
  (at level 100, right associativity).

(** [try: m except Exception as e: h e]. *)
Definition try_except {A} (m : M A) (h : exn -> M A) : M A :=
  fun w =>
    match m w with
    | (Raise e, w') => h e w'
    | r => r
    end.

(** Lifting a pure partial computation. *)
Definition lift {A} (r : exn + A) : M A :=
  match r with
  | inr a => ret a
  | inl e => raise e
  end.

Definition get_self : M ElasticsearchDocumentStore := fun w => (Ok (self w), w).
Definition put_self (s : ElasticsearchDocumentStore) : M unit :=
  fun w => (Ok tt, {| self := s; net := net w; warnings := warnings w |}).
Definition warn (msg : string) : M unit :=
  fun w => (Ok tt, {| self := self w; net := net w; warnings := warnings w ++ [msg] |}).

(** A call of the client library: the call is recorded, then the backend
    answers from the calls it had seen before this one. *)
Definition request {A} (c : call) (answer : list call -> exn + A) : M A :=
  fun w =>
    let w' := {| self := self w; net := net w ++ [c]; warnings := warnings w |} in
    match answer (net w) with
    | inr a => (Ok a, w')
    | inl e => (Raise e, w')
    end.

Definition out_of_fuel {A} : M A := fun w => (OutOfFuel, w).

(** Sequencing of pure partial computations. *)
Definition and_then {A B} (r : exn + A) (k : A -> exn + B) : exn + B :=
  match r with
  | inr a => k a
  | inl e => inl e
  end.

Notation "x <-? r ;; k" := (and_then r (fun x => k))
  (at level 100, r at next level, right associativity).

(** [[f(x) for x in l]] where [f] may raise: the first exception wins. *)
Fixpoint map_exn {A B} (f : A -> exn + B) (l : list A) : exn + list B :=
  match l with
  | [] => inr []
  | x :: l' =>
      y <-? f x;;
      ys <-? map_exn f l';;
      inr (y :: ys)
  end.

(** [v[k]] and [v[k] = x] for a string key on an arbitrary value: only a
    dictionary accepts them. *)
Definition subscript (v : pyval) (k : string) : exn + pyval :=
  match v with
  | PDict d => getitem d k
  | _ => inl (TypeError "object is not subscriptable by a string key")
  end.

Definition setitem (v : pyval) (k : string) (x : pyval) : exn + pyval :=
  match v with
  | PDict d => inr (PDict (<[k := x]> d))
  | _ => inl (TypeError "object does not support item assignment")
  end.

Inductive DuplicatePolicy : Type := NONE | SKIP | OVERWRITE | FAIL.

Definition DuplicatePolicy_eqb (p q : DuplicatePolicy) : bool :=
  match p, q with
  | NONE, NONE | SKIP, SKIP | OVERWRITE, OVERWRITE | FAIL, FAIL => true
  | _, _ => false
  end.

(** The integer 8; the division by it is a division by the double 8.0. *)
Definition BM25_SCALING_FACTOR : float := 8.
Definition DOC_ALREADY_EXISTS : Z := 409.

Definition newline : string := String (Ascii.ascii_of_nat 10) EmptyString.

(** [', '.join(l)]. *)
Definition join (sep : string) (l : list string) : string := String.concat sep l.

(** [if d:] on an optional dictionary: neither [None] nor empty. *)
Definition is_given (d : option pydict) : bool :=
  match d with
  | Some d => truthy (PDict d)
  | None => false
  end.

(** ["k" in filters], evaluated only where [filters] is a dictionary. *)
Definition has_key (filters : option pydict) (k : string) : bool :=
  match filters with
  | Some d => bool_decide (is_Some (d !! k))
  | None => false
  end.

(** ** Double-precision arithmetic

    Primitive doubles are specified by the Standard Library through
    [Prim2SF] and the operations of [SpecFloat].  To reason about the order
    of computed scores, a double is given its value as a real number, and
    rounding is described on reals: the real is truncated to a 53-bit
    mantissa, then rounded to the nearest, ties to even. *)

(** [2^e] as a real, for any integer exponent. *)
Definition bpow (e : Z) : R := powerRZ 2 e.

(** The real [v] lies in the cell from [m * 2^e] up to [(m + 1) * 2^e], at
    the position [l] with respect to its middle. *)
Definition inbetween (m e : Z) (l : location) (v : R) : Prop :=
  match l with
  | loc_Exact => v = (IZR m * bpow e)%R
  | loc_Inexact c =>
      (IZR m * bpow e < v < (IZR m + 1) * bpow e)%R
      /\ Rcompare v ((IZR m + / 2) * bpow e) = c
  end.

(** [z * 2^e] is the truncation of a real to the precision of a double:
    [z] has at most 53 bits, and exactly 53 unless [e] is the least
    exponent. *)
Definition canon (z e : Z) : Prop :=
  (0 <= z < 2 ^ 53)%Z /\ (-1074 <= e)%Z /\ (e = (-1074)%Z \/ (2 ^ 52 <= z)%Z).

(** The value of a double as a real; the infinities are given the first
    power of two no double reaches. *)
Definition val (x : spec_float) : R :=
  match x with
  | S754_zero _ | S754_nan => 0
  | S754_infinity s => if s then - bpow 1024 else bpow 1024
  | S754_finite s m e =>
      if s then - (IZR (Z.pos m) * bpow e) else IZR (Z.pos m) * bpow e
  end.

(** The double is a positive zero, a positive number or the positive
    infinity. *)
Definition nonneg_float (x : spec_float) : Prop :=
  match x with
  | S754_zero false | S754_infinity false | S754_finite false _ _ => True
  | _ => False
  end.

(** The second half of [binary_round_aux]: the rounded mantissa is
    renormalised and checked against the exponent range. *)
Definition finish (m e : Z) : spec_float :=
  let '(mrs, e') := shr_fexp prec emax m e loc_Exact in
  match shr_m mrs with
  | Z0 => S754_zero false
  | Z.pos m => if (e' <=? emax - prec)%Z then S754_finite false m e' else S754_infinity false
  | Z.neg _ => S754_nan
  end.

(** [rv] is the real [v] rounded to the nearest double, ties to even,
    before the exponent range is checked. *)
Definition rounded (v rv : R) : Prop :=
  exists z e l,
    canon z e /\ inbetween z e l v /\ rv = (IZR (round_nearest_even z l) * bpow e)%R.

(** A double that takes part in comparisons: valid and not a NaN. *)
Definition ordered (x : spec_float) : Prop :=
  x <> S754_nan /\ SpecFloat.valid_binary prec emax x = true.

(** The doubles 1.0 and 8.0. *)
Definition sf_one : spec_float := S754_finite false 4503599627370496 (-52).

Definition sf_eight : spec_float := S754_finite false 4503599627370496 (-49).

(** The value of a primitive double. *)
Definition fval (x : float) : R := val (Prim2SF x).

(** The double is not a NaN. *)
Definition is_number (x : float) : Prop := ordered (Prim2SF x).

(** What is assumed of numpy's [exp] where a property of the rescaled
    score depends on it: on a number it returns a number that is not
    negative, and it never decreases. *)
Definition exp_nonneg (np_exp : float -> float) : Prop :=
  forall t, PrimFloat.is_nan t = false -> (0 <=? np_exp t)%float = true.

Definition exp_monotone (np_exp : float -> float) : Prop :=
  forall s t, (s <=? t)%float = true -> (np_exp s <=? np_exp t)%float = true.

(** ** Test doubles

    Concrete collaborators, as a unit test of the store would mock them. *)

(** [Document.from_dict]: reads [id] and [score] and keeps the rest. *)
Definition stub_from_dict (data : pydict) : exn + Document :=
  inr {| id := match data !! "id" with Some (PStr s) => s | _ => "" end;
         score := match data !! "score" with Some (PFloat r) => Some r | _ => None end;
         fields := delete "score" (delete "id" data) |}.

(** [Document.to_dict]. *)
Definition stub_to_dict (doc : Document) : pydict :=
  <["id" := PStr (id doc)]> (fields doc).

(** A filter normaliser that wraps the filter as it is. *)
Definition stub_normalize (filters : pydict) : exn + pyval :=
  inr (PDict filters).

(** The printed form of a list of failures: their identifiers. *)
Definition stub_repr (errors : list bulk_error) : string :=
  "[" ++ join ", " (map be_id errors) ++ "]".

(** A backend holding [hits], serving them in pages of [page] hits with the
    full count as total; the index exists and bulk calls succeed. *)
Definition paging_backend (hits : list pydict) (page : nat) : Backend :=
  {| info := fun _ => inr tt;
     indices_exists := fun _ _ => inr true;
     indices_create := fun _ _ _ => inr tt;
     search := fun _ _ _ from_ _ => inr (take page (drop from_ hits), Z.of_nat (length hits));
     bulk := fun _ _ _ actions _ => inr (Z.of_nat (length actions), []) |}.

(** A backend whose bulk calls always answer [written] and [errors]. *)
Definition bulk_backend (written : Z) (errors : list bulk_error) : Backend :=
  {| info := fun _ => inr tt;
     indices_exists := fun _ _ => inr true;
     indices_create := fun _ _ _ => inr tt;
     search := fun _ _ _ _ _ => inr ([], 0%Z);
     bulk := fun _ _ _ _ _ => inr (written, errors) |}.

(** A backend whose count is stale: it holds [hits] and serves them in
    pages of [page], but reports [total] matches on every page. *)
Definition stale_backend (hits : list pydict) (page : nat) (total : Z) : Backend :=
  {| info := fun _ => inr tt;
     indices_exists := fun _ _ => inr true;
     indices_create := fun _ _ _ => inr tt;
     search := fun _ _ _ from_ _ => inr (take page (drop from_ hits), total);
     bulk := fun _ _ _ actions _ => inr (Z.of_nat (length actions), []) |}.

(** A cluster that is up but does not have the index yet. *)
Definition empty_cluster : Backend :=
  {| info := fun _ => inr tt;
     indices_exists := fun _ _ => inr false;
     indices_create := fun _ _ _ => inr tt;
     search := fun _ _ _ _ _ => inr ([], 0%Z);
     bulk := fun _ _ _ actions _ => inr (Z.of_nat (length actions), []) |}.

(** A cluster that cannot be reached. *)
Definition unreachable_backend : Backend :=
  {| info := fun _ => inl (TransportError "connection refused");
     indices_exists := fun _ _ => inl (TransportError "connection refused");
     indices_create := fun _ _ _ => inl (TransportError "connection refused");
     search := fun _ _ _ _ _ => inl (TransportError "connection refused");
     bulk := fun _ _ _ _ _ => inl (TransportError "connection refused") |}.

Definition fresh_world : World :=
  {| self := new_store "default" "cosine" None; net := []; warnings := [] |}.

(** The [i]-th hit of a sample index: no highlight, a null score. *)
Definition sample_hit (i : nat) : pydict :=
  {[ "_source" := PDict {[ "id" := PStr (pretty i) ]}; "_score" := PNone ]}.

Definition sample_hits (n : nat) : list pydict := map sample_hit (seq 0 n).

Definition no_kwargs : search_kwargs :=
  {| kw_size := None; kw_query := None; kw_knn := None |}.

(** Keyword arguments with an optional size and a knn entry asking for [k]
    neighbours. *)
Definition knn_kwargs (size : option Z) (k : Z) : search_kwargs :=
  {| kw_size := size;
     kw_query := None;
     kw_knn := Some {| knn_field := "embedding"; knn_query_vector := [1%float];
                       knn_k := Some k; knn_num_candidates := 10 * k;
                       knn_filter := None |} |}.

Definition search_offsets (calls : list call) : list nat :=
  omap (fun c => match c with CallSearch _ _ from_ _ => Some from_ | _ => None end) calls.

(** The documents the sample hits deserialise to. *)
Definition sample_doc (i : nat) : Document :=
  {| id := pretty i; score := None; fields := ∅ |}.

Definition sample_docs (n : nat) : list Document := map sample_doc (seq 0 n).

(** Readings of a trace: the verbs of each bulk call, its refresh mode,
    and the candidate pool of each knn search. *)
Definition bulk_verbs (calls : list call) : list (list string) :=
  omap (fun c => match c with
                 | CallBulk _ _ actions _ => Some (map _op_type actions)
                 | _ => None
                 end) calls.

Definition bulk_refresh (calls : list call) : list refresh_mode :=
  omap (fun c => match c with CallBulk _ _ _ r => Some r | _ => None end) calls.

Definition knn_pools (calls : list call) : list Z :=
  omap (fun c => match c with
                 | CallSearch _ _ _ kw => knn_num_candidates <$> kw_knn kw
                 | _ => None
                 end) calls.

(** Per-item failures of a bulk call: a rejected create of an existing
    identifier, and a failure of another kind. *)
Definition conflict_on (doc_id : string) : bulk_error :=
  {| be_op := "create"; be_id := doc_id; be_status := 409;
     be_error_type := "version_conflict_engine_exception" |}.

Definition mapping_failure_on (doc_id : string) : bulk_error :=
  {| be_op := "create"; be_id := doc_id; be_status := 400;
     be_error_type := "mapper_parsing_exception" |}.

(** A two-document batch. *)
Definition sample_batch : list pyobj :=
  [IsDocument (sample_doc 0); IsDocument (sample_doc 1)].

(** A hit with a relevance score. *)
Definition scored_hit (doc_id : string) (raw : float) : pydict :=
  {[ "_source" := PDict {[ "id" := PStr doc_id ]}; "_score" := PFloat raw ]}.


(** The same hit over a source that has a [metadata] dictionary. *)
Definition highlighted_hit_with_metadata : pydict :=
  {[ "_source" := PDict {[ "id" := PStr "7"; "metadata" := PDict ∅ ]};
     "_score" := PFloat 1;
     "highlight" := PDict {[ "content" := PList [PStr "<em>seven</em>"] ]} ]}.

(** The number of pages of [page] hits a search over [total] hits fetches,
    and the offsets it fetches them at. *)
Definition page_count (total page : nat) : nat :=
  Nat.max 1 ((total + page - 1) / page).

Definition page_offsets (total page : nat) : list nat :=
  map (fun i => i * page) (seq 0 (page_count total page)).

(** ** The text embedder

    [FastembedTextEmbedder] of [fastembed_text_embedder.py]: a component
    that wraps a text in a prefix and a suffix and asks an embedding backend
    for its vector.  The backend and the factory that loads it belong to
    other modules and are parameters. *)

Module Fastembed.

Inductive error : Type :=
| TypeError (msg : string)
| RuntimeError (msg : string)
| IndexError (msg : string)
| BackendError (msg : string).

(** The loaded model: [embed(texts, progress_bar=.., parallel=..)]. *)
Record EmbeddingBackend : Type := mkEmbeddingBackend {
  embed : list string -> bool -> option Z -> error + list (list float);
}.

(** The request [warm_up] makes to the backend factory. *)
Record factory_request : Type := mkFactoryRequest {
  fr_model_name : string;
  fr_cache_dir : option string;
  fr_threads : option Z;
  fr_local_files_only : bool;
}.

(** The component; [embedding_backend] is [None] while the attribute does
    not exist. *)
Record FastembedTextEmbedder : Type := mkEmbedder {
  model_name : string;
  cache_dir : option string;
  threads : option Z;
  prefix : string;
  suffix : string;
  progress_bar : bool;
  parallel : option Z;
  local_files_only : bool;
  embedding_backend : option EmbeddingBackend;
}.

(** [__init__], with its defaults left to the caller. *)
Definition init (model : string) (cache : option string) (thr : option Z)
    (pre suf : string) (bar : bool) (par : option Z) (local_only : bool)
  : FastembedTextEmbedder :=
  {| model_name := model; cache_dir := cache; threads := thr; prefix := pre;
     suffix := suf; progress_bar := bar; parallel := par;
     local_files_only := local_only; embedding_backend := None |}.

Definition set_backend (self : FastembedTextEmbedder) (b : EmbeddingBackend)
  : FastembedTextEmbedder :=
  {| model_name := model_name self; cache_dir := cache_dir self;
     threads := threads self; prefix := prefix self; suffix := suffix self;
     progress_bar := progress_bar self; parallel := parallel self;
     local_files_only := local_files_only self; embedding_backend := Some b |}.

Section Embedder.

(** [_FastembedEmbeddingBackendFactory.get_embedding_backend]. *)
Variable get_embedding_backend : factory_request -> error + EmbeddingBackend.

(** [warm_up]: the component and the requests made to the factory so far
    go in, and come out. *)
Definition warm_up (self : FastembedTextEmbedder) (asked : list factory_request)
  : error + (FastembedTextEmbedder * list factory_request) :=
  match embedding_backend self with
  | Some _ => inr (self, asked)
  | None =>
      let req := {| fr_model_name := model_name self;
                    fr_cache_dir := cache_dir self;
                    fr_threads := threads self;
                    fr_local_files_only := local_files_only self |} in
      match get_embedding_backend req with
      | inr b => inr (set_backend self b, (asked ++ [req])%list)
      | inl e => inl e
      end
  end.

End Embedder.

Definition not_a_string_msg : string :=
  "FastembedTextEmbedder expects a string as input. "
  ++ "In case you want to embed a list of Documents, please use the FastembedDocumentEmbedder.".

Definition not_loaded_msg : string :=
  "The embedding model has not been loaded. Please call warm_up() before running.".

(** [run]: the value of the ["embedding"] key of the result. *)
Definition run (self : FastembedTextEmbedder) (text : pyval) : error + list float :=
  match text with
  | PStr text =>
      match embedding_backend self with
      | None => inl (RuntimeError not_loaded_msg)
      | Some backend =>
          let text_to_embed := [prefix self ++ text ++ suffix self] in
          match embed backend text_to_embed (progress_bar self) (parallel self) with
          | inl e => inl e
          | inr [] => inl (IndexError "list index out of range")
          | inr (embedding :: _) => inr embedding
          end
      end
  | _ => inl (TypeError not_a_string_msg)
  end.

End Fastembed.

(** *** More test doubles *)

(** A world whose store has been set up. *)
Definition ready_world : World :=
  {| self := {| _index := "default";
                _embedding_similarity_function := "cosine";
                _custom_mapping := None;
                _clients_created := true;
                _initialized := true |};
     net := []; warnings := [] |}.

(** A document that carries a sparse embedding. *)
Definition sparse_doc : Document :=
  {| id := "s"; score := None;
     fields := {[ "sparse_embedding" := PDict {[ "indices" := PList [PInt 3] ]} ]} |}.

(** A failure reported for an index action. *)
Definition index_failure_on (doc_id : string) : bulk_error :=
  {| be_op := "index"; be_id := doc_id; be_status := 400;
     be_error_type := "mapper_parsing_exception" |}.

(** A failure reported for a delete action of an unknown identifier. *)
Definition not_found_on (doc_id : string) : bulk_error :=
  {| be_op := "delete"; be_id := doc_id; be_status := 404;
     be_error_type := "not_found" |}.

(** The bulk helper's exception for per-item failures. *)
Definition stub_bulk_index_error (errors : list bulk_error) : exn :=
  TransportError (pretty (length errors) ++ " document(s) failed to index.").

(** A normaliser that rejects every filter. *)
Definition failing_normalize (filters : pydict) : exn + pyval :=
  inl (ValueError "unsupported filter").

(** An embedding backend that answers every batch with one fixed vector
    per text, and a factory that hands it out. *)
Definition stub_embedding_backend : Fastembed.EmbeddingBackend :=
  {| Fastembed.embed := fun texts _ _ => inr (map (fun _ => [1%float; 2%float]) texts) |}.

Definition stub_factory (req : Fastembed.factory_request)
  : Fastembed.error + Fastembed.EmbeddingBackend :=
  inr stub_embedding_backend.

(** numpy's [exp] as a test would mock it: the double nearest to the exact
    value at the arguments [-125], [-37.5], [0] and [1], constant from each
    of them up to the next, underflowing to [0] below [-745] and
    overflowing to infinity from [710] on; [nan] stays [nan]. *)
Definition stub_exp (x : float) : float :=
  if PrimFloat.is_nan x then nan
  else if (x <? -745)%float then 0%float
  else if (x <? -125)%float then 0x1p-1074%float
  else if (x <? -37.5)%float then 0x1.9560792d19314p-181%float
  else if (x <? 0)%float then 0x1.dd5c566301ec8p-55%float
  else if (x <? 1)%float then 1%float
  else if (x <? 710)%float then 0x1.5bf0a8b145769p+1%float
  else infinity.

Definition sample_embedder : Fastembed.FastembedTextEmbedder :=
  Fastembed.init "BAAI/bge-small-en-v1.5" None None "query: " "" true None false.

(** ** The methods of the store *)

Section Store.

(** The collaborators the module imports: the host framework's [Document]
    conversions, the filter normaliser of the sibling module [filters], the
    text Python prints for a list of bulk failures inside an f-string, and
    the Elasticsearch backend behind both clients. *)
Variable Document_from_dict : pydict -> exn + Document.
Variable Document_to_dict : Document -> pydict.
Variable _normalize_filters : pydict -> exn + pyval.
Variable repr_errors : list bulk_error -> string.
Variable es : Backend.

(** The exception the client's bulk helper raises for per-item failures
    when [raise_on_error] is left at its default. *)
Variable bulk_index_error : list bulk_error -> exn.

(** [_ensure_initialized]: on first use create both clients, probe the
    connection, and create the index when it does not exist. *)
Definition _ensure_initialized : M unit :=
  s <- get_self;;
  if _initialized s then ret tt
  else
    put_self {| _index := _index s;
                _embedding_similarity_function := _embedding_similarity_function s;
                _custom_mapping := _custom_mapping s;
                _clients_created := true;
                _initialized := false |};;;
    request CallInfo (info es);;;
    let mappings :=
      if is_given (_custom_mapping s)
      then CustomMapping (default ∅ (_custom_mapping s))
      else DefaultMapping (_embedding_similarity_function s) in
    present <- request (CallIndicesExists (_index s))
                       (fun h => indices_exists es h (_index s));;
    (if negb present
     then request (CallIndicesCreate (_index s) mappings)
                  (fun h => indices_create es h (_index s) mappings)
     else ret tt);;;
    put_self {| _index := _index s;
                _embedding_similarity_function := _embedding_similarity_function s;
                _custom_mapping := _custom_mapping s;
                _clients_created := true;
                _initialized := true |}.

(** The [client] and [async_client] properties. *)
Definition client : M client_kind :=
  _ensure_initialized;;;
  s <- get_self;;
  if _clients_created s then ret SyncClient
  else raise (AssertionError "").

Definition async_client : M client_kind :=
  _ensure_initialized;;;
  s <- get_self;;
  if _clients_created s then ret AsyncClient
  else raise (AssertionError "").

(** The attribute [self._async_client], read without the property. *)
Definition _async_client : M client_kind :=
  s <- get_self;;
  if _clients_created s then ret AsyncClient
  else raise (AttributeError "'NoneType' object has no attribute 'search'").

(** [_deserialize_document], up to the dictionary handed to
    [Document.from_dict]. *)
Definition _deserialize_data (hit : pydict) : exn + pydict :=
  data <-? getitem hit "_source";;
  data <-? (match hit !! "highlight" with
            | Some h =>
                metadata <-? subscript data "metadata";;
                metadata <-? setitem metadata "highlighted" h;;
                setitem data "metadata" metadata
            | None => inr data
            end);;
  s <-? getitem hit "_score";;
  data <-? setitem data "score" s;;
  match data with
  | PDict d => inr d
  | _ => inl (TypeError "object does not support item assignment")
  end.

Definition _deserialize_document (hit : pydict) : exn + Document :=
  data <-? _deserialize_data hit;;
  Document_from_dict data.

(** The target count of a search. *)
Definition target_count (kw : search_kwargs) : option Z :=
  match kw_size kw with
  | Some n => Some n
  | None =>
      match kw_knn kw with
      | Some knn => knn_k knn
      | None => None
      end
  end.

(** One page fetch through the given handle. *)
Definition search_page (handle : M client_kind) (from_ : nat) (kw : search_kwargs)
  : M (list pydict * Z) :=
  c <- handle;;
  s <- get_self;;
  request (CallSearch c (_index s) from_ kw)
          (fun h => search es h c (_index s) from_ kw).

(** The pagination loop, [while True: ...], shared by [_search_documents]
    and [_search_documents_async], whose bodies differ only in the handle
    they fetch through.  [fuel] bounds the number of iterations. *)
Fixpoint search_loop (handle : M client_kind) (fuel : nat) (kw : search_kwargs)
    (top_k : option Z) (documents : list Document) (from_ : nat) : M (list Document) :=
  match fuel with
  | O => out_of_fuel
  | S fuel' =>
      res <- search_page handle from_ kw;;
      new <- lift (map_exn _deserialize_document (fst res));;
      let documents := (documents ++ new)%list in
      let from_ := length documents in
      if match top_k with
         | Some k => (k <=? Z.of_nat from_)%Z
         | None => false
         end
      then ret documents
      else if (snd res <=? Z.of_nat from_)%Z
      then ret documents
      else search_loop handle fuel' kw top_k documents from_
  end.

Definition _search_documents (fuel : nat) (kw : search_kwargs) : M (list Document) :=
  search_loop client fuel kw (target_count kw) [] 0.

Definition _search_documents_async (fuel : nat) (kw : search_kwargs) : M (list Document) :=
  search_loop _async_client fuel kw (target_count kw) [] 0.

Definition invalid_filter_msg : string :=
  "Invalid filter syntax. See https://docs.haystack.deepset.ai/docs/metadata-filtering for details.".

(** [_normalize_filters(filters) if filters else None]. *)
Definition optional_filter (filters : option pydict) : M (option pyval) :=
  match filters with
  | Some d =>
      if truthy (PDict d)
      then clauses <- lift (_normalize_filters d);; ret (Some clauses)
      else ret None
  | None => ret None
  end.

(** [{"bool": {"filter": _normalize_filters(filters)}} if filters else None]. *)
Definition filter_query (filters : option pydict) : M (option query_body) :=
  clauses <- optional_filter filters;;
  ret (BoolFilter <$> clauses).

Definition filter_documents (fuel : nat) (filters : option pydict) : M (list Document) :=
  if is_given filters && negb (has_key filters "operator")
       && negb (has_key filters "conditions")
  then raise (ValueError invalid_filter_msg)
  else
    _ensure_initialized;;;
    query <- filter_query filters;;
    _search_documents fuel {| kw_size := None; kw_query := query; kw_knn := None |}.

Definition filter_documents_async (fuel : nat) (filters : option pydict) : M (list Document) :=
  if is_given filters && negb (has_key filters "operator")
       && negb (has_key filters "conditions")
  then raise (ValueError invalid_filter_msg)
  else
    _ensure_initialized;;;
    query <- filter_query filters;;
    _search_documents_async fuel {| kw_size := None; kw_query := query; kw_knn := None |}.

(** *** Bulk writes *)

Definition not_documents_msg : string :=
  "param 'documents' must contain a list of objects of type Document".

(** [len(documents) > 0 and not isinstance(documents[0], Document)]: only
    the first element is inspected. *)
Definition first_is_not_document (documents : list pyobj) : bool :=
  match documents with
  | Other _ :: _ => true
  | _ => false
  end.

(** [if policy == DuplicatePolicy.NONE: policy = DuplicatePolicy.FAIL]. *)
Definition resolve_policy (policy : DuplicatePolicy) : DuplicatePolicy :=
  if DuplicatePolicy_eqb policy NONE then FAIL else policy.

(** The verb of [write_documents], from the resolved policy. *)
Definition sync_op_type (policy : DuplicatePolicy) : string :=
  if DuplicatePolicy_eqb policy OVERWRITE then "index" else "create".

(** The verb of [write_documents_async], from the resolved policy. *)
Definition async_op_type (policy : DuplicatePolicy) : string :=
  if DuplicatePolicy_eqb policy FAIL then "create" else "index".

Definition sparse_warning (doc_id : string) : string :=
  "Document " ++ doc_id ++ " has the `sparse_embedding` field set,"
  ++ "but storing sparse embeddings in Elasticsearch is not currently supported."
  ++ "The `sparse_embedding` field will be ignored.".

(** The [for doc in documents] loop that builds the bulk actions. *)
Fixpoint build_actions (op : string) (documents : list pyobj) : M (list action) :=
  match documents with
  | [] => ret []
  | Other _ :: _ => raise (AttributeError "object has no attribute 'to_dict'")
  | IsDocument doc :: rest =>
      let doc_dict := Document_to_dict doc in
      doc_dict <- (match doc_dict !! "sparse_embedding" with
                   | Some sparse_embedding =>
                       (if truthy sparse_embedding
                        then warn (sparse_warning (id doc))
                        else ret tt);;;
                       ret (delete "sparse_embedding" doc_dict)
                   | None => ret doc_dict
                   end);;
      actions <- build_actions op rest;;
      ret ({| _op_type := op; _id := id doc; _source := doc_dict |} :: actions)
  end.

Definition version_conflict : string := "version_conflict_engine_exception".

(** The [for e in errors] loop of [write_documents]: every item is read as
    [e["create"]], then sorted by policy and error type. *)
Fixpoint sort_errors (policy : DuplicatePolicy) (errors : list bulk_error)
    (duplicate_errors_ids : list string) (other_errors : list bulk_error)
  : exn + (list string * list bulk_error) :=
  match errors with
  | [] => inr (duplicate_errors_ids, other_errors)
  | e :: rest =>
      if negb (String.eqb (be_op e) "create") then inl (KeyError "create")
      else
        let error_type := be_error_type e in
        if DuplicatePolicy_eqb policy FAIL && String.eqb error_type version_conflict
        then sort_errors policy rest (duplicate_errors_ids ++ [be_id e])%list other_errors
        else if DuplicatePolicy_eqb policy SKIP && String.eqb error_type version_conflict
        then sort_errors policy rest duplicate_errors_ids other_errors
        else sort_errors policy rest duplicate_errors_ids (other_errors ++ [e])%list
  end.

Definition duplicate_ids_msg (ids : list string) : string :=
  "IDs '" ++ join ", " ids ++ "' already exist in the document store.".

Definition write_failed_msg (errors : list bulk_error) : string :=
  "Failed to write documents to Elasticsearch. Errors:" ++ newline ++ repr_errors errors.

Definition write_documents (documents : list pyobj) (policy : DuplicatePolicy) : M Z :=
  if first_is_not_document documents then raise (ValueError not_documents_msg)
  else
    let policy := resolve_policy policy in
    let action := sync_op_type policy in
    elasticsearch_actions <- build_actions action documents;;
    c <- client;;
    s <- get_self;;
    res <- request (CallBulk c (_index s) elasticsearch_actions RefreshWaitFor)
                   (fun h => bulk es h c (_index s) elasticsearch_actions RefreshWaitFor);;
    let documents_written := fst res in
    let errors := snd res in
    match errors with
    | [] => ret documents_written
    | _ =>
        sorted <- lift (sort_errors policy errors [] []);;
        let duplicate_errors_ids := fst sorted in
        let other_errors := snd sorted in
        if (0 <? length duplicate_errors_ids)%nat
        then raise (DuplicateDocumentError (duplicate_ids_msg duplicate_errors_ids))
        else if (0 <? length other_errors)%nat
        then raise (DocumentStoreError (write_failed_msg other_errors))
        else ret documents_written
    end.

Definition duplicate_id_msg (doc_id : string) : string :=
  "ID '" ++ doc_id ++ "' already exists in the document store".

(** The [for error in failed] loop of [write_documents_async]: it raises at
    the first item that is a rejected create. *)
Fixpoint raise_first_duplicate (failed : list bulk_error) : M unit :=
  match failed with
  | [] => ret tt
  | error :: rest =>
      if String.eqb (be_op error) "create" && (be_status error =? DOC_ALREADY_EXISTS)%Z
      then raise (DuplicateDocumentError (duplicate_id_msg (be_id error)))
      else raise_first_duplicate rest
  end.

Definition write_wrapped_msg (e : exn) : string :=
  "Failed to write documents to Elasticsearch: " ++ str_exn e.

Definition write_documents_async (documents : list pyobj) (policy : DuplicatePolicy) : M Z :=
  _ensure_initialized;;;
  if first_is_not_document documents then raise (ValueError not_documents_msg)
  else
    let policy := resolve_policy policy in
    actions <- build_actions (async_op_type policy) documents;;
    try_except
      (c <- async_client;;
       s <- get_self;;
       res <- request (CallBulk c (_index s) actions RefreshTrue)
                      (fun h => bulk es h c (_index s) actions RefreshTrue);;
       let success := fst res in
       let failed := snd res in
       match failed with
       | [] => ret success
       | _ =>
           (if DuplicatePolicy_eqb policy FAIL
            then raise_first_duplicate failed
            else ret tt);;;
           raise (DocumentStoreError (write_failed_msg failed))
       end)
      (fun e => raise (DocumentStoreError (write_wrapped_msg e))).

(** *** Retrieval *)

(** [np.exp] on a double: numpy's own code, a parameter here. *)
Variable np_exp : float -> float.

(** [float(1 / (1 + np.exp(-(doc.score / BM25_SCALING_FACTOR))))]: the
    logistic transform of a raw score, every operation a double-precision
    one.  Both retrieval variants compute it in this order. *)
Definition scale (raw : float) : float :=
  (1 / (1 + np_exp (- (raw / BM25_SCALING_FACTOR))))%float.

(** [for doc in documents: if doc.score is None: continue; doc.score = ...]. *)
Definition rescale (doc : Document) : Document :=
  match score doc with
  | None => doc
  | Some raw => set_score doc (scale raw)
  end.

Definition empty_query_msg : string := "query must be a non empty string".

Definition bm25_body (query : string) (filters : option pydict) (fuzziness : string)
    (top_k : Z) : M search_kwargs :=
  filter <- optional_filter filters;;
  ret {| kw_size := Some top_k;
         kw_query := Some (BoolMultiMatch query fuzziness "most_fields" "OR" filter);
         kw_knn := None |}.

Definition _bm25_retrieval (fuel : nat) (query : string) (filters : option pydict)
    (fuzziness : string) (top_k : Z) (scale_score : bool) : M (list Document) :=
  if String.eqb query "" then raise (ValueError empty_query_msg)
  else
    body <- bm25_body query filters fuzziness top_k;;
    documents <- _search_documents fuel body;;
    ret (if scale_score then map rescale documents else documents).

Definition _bm25_retrieval_async (fuel : nat) (query : string) (filters : option pydict)
    (fuzziness : string) (top_k : Z) (scale_score : bool) : M (list Document) :=
  _ensure_initialized;;;
  if String.eqb query "" then raise (ValueError empty_query_msg)
  else
    search_body <- bm25_body query filters fuzziness top_k;;
    documents <- _search_documents_async fuel search_body;;
    ret (if scale_score then map rescale documents else documents).

Definition empty_embedding_msg : string :=
  "query_embedding must be a non-empty list of floats".

Definition knn_body (query_embedding : list float) (filters : option pydict)
    (top_k num_candidates : Z) : M search_kwargs :=
  filter <- optional_filter filters;;
  ret {| kw_size := None;
         kw_query := None;
         kw_knn := Some {| knn_field := "embedding";
                           knn_query_vector := query_embedding;
                           knn_k := Some top_k;
                           knn_num_candidates := num_candidates;
                           knn_filter := filter |} |}.

(** [if not num_candidates: num_candidates = top_k * 10]. *)
Definition sync_num_candidates (top_k : Z) (num_candidates : option Z) : Z :=
  match num_candidates with
  | None => top_k * 10
  | Some n => if (n =? 0)%Z then top_k * 10 else n
  end.

(** [if num_candidates is None: num_candidates = top_k * 10]. *)
Definition async_num_candidates (top_k : Z) (num_candidates : option Z) : Z :=
  match num_candidates with
  | None => top_k * 10
  | Some n => n
  end.

Definition _embedding_retrieval (fuel : nat) (query_embedding : list float)
    (filters : option pydict) (top_k : Z) (num_candidates : option Z) : M (list Document) :=
  match query_embedding with
  | [] => raise (ValueError empty_embedding_msg)
  | _ =>
      let num_candidates := sync_num_candidates top_k num_candidates in
      body <- knn_body query_embedding filters top_k num_candidates;;
      _search_documents fuel body
  end.

Definition _embedding_retrieval_async (fuel : nat) (query_embedding : list float)
    (filters : option pydict) (top_k : Z) (num_candidates : option Z) : M (list Document) :=
  _ensure_initialized;;;
  match query_embedding with
  | [] => raise (ValueError empty_embedding_msg)
  | _ =>
      let num_candidates := async_num_candidates top_k num_candidates in
      search_body <- knn_body query_embedding filters top_k num_candidates;;
      _search_documents_async fuel search_body
  end.

(** *** Deletion *)

(** [{"_op_type": "delete", "_id": id_}]: a delete action has no source,
    written here as the empty one. *)
Definition delete_action (id_ : string) : action :=
  {| _op_type := "delete"; _id := id_; _source := ∅ |}.

(** [delete_documents]: per-item failures are not raised
    ([raise_on_error=False]) and the answer is dropped. *)
Definition delete_documents (document_ids : list string) : M unit :=
  c <- client;;
  s <- get_self;;
  request (CallBulk c (_index s) (map delete_action document_ids) RefreshWaitFor)
          (fun h => bulk es h c (_index s) (map delete_action document_ids) RefreshWaitFor);;;
  ret tt.

Definition delete_wrapped_msg (e : exn) : string :=
  "Failed to delete documents from Elasticsearch: " ++ str_exn e.

(** [delete_documents_async]: the helper raises on per-item failures, and
    whatever is raised is wrapped. *)
Definition delete_documents_async (document_ids : list string) : M unit :=
  _ensure_initialized;;;
  try_except
    (c <- async_client;;
     s <- get_self;;
     res <- request (CallBulk c (_index s) (map delete_action document_ids) RefreshTrue)
                    (fun h => bulk es h c (_index s) (map delete_action document_ids) RefreshTrue);;
     match snd res with
     | [] => ret tt
     | errors => raise (bulk_index_error errors)
     end)
    (fun e => raise (DocumentStoreError (delete_wrapped_msg e))).

(** *** The pagination contract, in the words of the specification *)

(** The target count as the specification words it: the explicit size,
    else the [k] of a knn entry, else none. *)
Definition stated_target (size : option Z) (knn : option knn_spec) : option Z :=
  match size, knn with
  | Some n, _ => Some n
  | None, Some spec => knn_k spec
  | None, None => None
  end.

(** The accumulated count [n] has reached the target count or the total
    the backend reported. *)
Definition reached (top_k : option Z) (total : Z) (n : nat) : Prop :=
  (exists k, top_k = Some k /\ (k <= Z.of_nat n)%Z) \/ (total <= Z.of_nat n)%Z.

(** [paginates handle kw top_k acc w out w']: starting with [acc] documents
    accumulated in world [w], fetch the page at the offset equal to the
    number accumulated so far, append its hits in order, and repeat until
    the count is reached; [out] is then returned in world [w']. *)
Inductive paginates (handle : M client_kind) (kw : search_kwargs) (top_k : option Z)
  : list Document -> World -> list Document -> World -> Prop :=
| paginates_last acc w hits total new w1 :
    search_page handle (length acc) kw w = (Ok (hits, total), w1) ->
    map_exn _deserialize_document hits = inr new ->
    reached top_k total (length (acc ++ new)%list) ->
    paginates handle kw top_k acc w (acc ++ new)%list w1
| paginates_next acc w hits total new w1 out w2 :
    search_page handle (length acc) kw w = (Ok (hits, total), w1) ->
    map_exn _deserialize_document hits = inr new ->
    ~ reached top_k total (length (acc ++ new)%list) ->
    paginates handle kw top_k (acc ++ new)%list w1 out w2 ->
    paginates handle kw top_k acc w out w2.

(** The store object is coherent when an initialised store has clients. *)
Definition coherent (s : ElasticsearchDocumentStore) : Prop :=
  _initialized s = true -> _clients_created s = true.

(** Every request a computation run in [w] adds to the trace satisfies [P]. *)
Definition emits_at {A} (P : call -> Prop) (m : M A) (w : World) : Prop :=
  exists new, net (m w).2 = (net w ++ new)%list /\ Forall P new.

Definition emits {A} (P : call -> Prop) (m : M A) : Prop :=
  forall w, emits_at P m w.

(** The requests of the lazy set-up: connectivity probe, index check, index
    creation. *)
Definition setup_call (c : call) : Prop :=
  match c with
  | CallInfo | CallIndicesExists _ | CallIndicesCreate _ _ => True
  | _ => False
  end.

(** A set-up request, or a search whose keyword arguments satisfy [Q]. *)
Definition setup_or_search (Q : search_kwargs -> Prop) (c : call) : Prop :=
  match c with
  | CallInfo | CallIndicesExists _ | CallIndicesCreate _ _ => True
  | CallSearch _ _ _ kw => Q kw
  | CallBulk _ _ _ _ => False
  end.

(** A set-up request, or a bulk call whose actions and refresh mode
    satisfy [Q]. *)
Definition setup_or_bulk (Q : list action -> refresh_mode -> Prop) (c : call) : Prop :=
  match c with
  | CallInfo | CallIndicesExists _ | CallIndicesCreate _ _ => True
  | CallBulk _ _ actions refresh => Q actions refresh
  | CallSearch _ _ _ _ => False
  end.

(** Every action carries the verb [op] and the request the mode [refresh]. *)
Definition all_verbs (op : string) (refresh : refresh_mode)
    (actions : list action) (r : refresh_mode) : Prop :=
  Forall (fun a => _op_type a = op) actions /\ r = refresh.

(** The [knn] entry asks for [k] neighbours out of [pool] candidates. *)
Definition knn_pool (k pool : Z) (kw : search_kwargs) : Prop :=
  exists knn, kw_knn kw = Some knn /\ knn_k knn = Some k /\ knn_num_candidates knn = pool.

(** The store has been set up: both clients exist and the index is known
    to exist. *)
Definition ready (s : ElasticsearchDocumentStore) : Prop :=
  _initialized s = true /\ _clients_created s = true.

(** The world after one more request has been sent. *)
Definition sent (w : World) (c : call) : World :=
  {| self := self w; net := (net w ++ [c])%list; warnings := warnings w |}.

(** A per-item failure that reports an identifier conflict. *)
Definition is_conflict (e : bulk_error) : bool :=
  String.eqb (be_error_type e) version_conflict.

(** A per-item failure reported under the key of a create action. *)
Definition create_item (e : bulk_error) : Prop := be_op e = "create".

(** A computation that comes back, with a value or an exception, however
    much fuel its loops were given. *)
Definition returns {A} (m : M A) : Prop :=
  forall w, (m w).1 <> OutOfFuel.

(** The backend reports the fixed total [total] on every page, and a page
    fetched at an offset below it holds at least one hit. *)
Definition progressing (total : Z) : Prop :=
  forall h c index from_ kw hits reported,
    search es h c index from_ kw = inr (hits, reported) ->
    reported = total /\ ((Z.of_nat from_ < total)%Z -> hits <> []).

(** How a world may change while a method runs: the configuration of the
    store stays, a store that is initialised is not touched again, clients
    once created stay, and the request trace and the warnings only grow. *)
Definition evolves (w w' : World) : Prop :=
  _index (self w') = _index (self w)
  /\ _embedding_similarity_function (self w') = _embedding_similarity_function (self w)
  /\ _custom_mapping (self w') = _custom_mapping (self w)
  /\ (_initialized (self w) = true -> self w' = self w)
  /\ (_clients_created (self w) = true -> _clients_created (self w') = true)
  /\ (coherent (self w) -> coherent (self w'))
  /\ (exists new, net w' = (net w ++ new)%list)
  /\ (exists new, warnings w' = (warnings w ++ new)%list).

(** Every run of [m] changes the world only that way. *)
Definition steady {A} (m : M A) : Prop :=
  forall w, evolves w (m w).2.

(** A filter as it enters a search body: normalised when given, absent
    otherwise. *)
Definition normalised (filters : option pydict) (filter : option pyval) : Prop :=
  match filters with
  | Some d =>
      if truthy (PDict d)
      then exists clauses, _normalize_filters d = inr clauses /\ filter = Some clauses
      else filter = None
  | None => filter = None
  end.

(** Whenever [m] returns a value, the store is ready afterwards. *)
Definition leaves_ready {A} (m : M A) : Prop :=
  forall w a w', m w = (Ok a, w') -> ready (self w').

(** Whenever [m] returns a value, both clients exist afterwards. *)
Definition leaves_created {A} (m : M A) : Prop :=
  forall w a w', m w = (Ok a, w') -> _clients_created (self w') = true.

(** The index mappings the set-up creates a missing index with. *)
Definition index_mappings (s : ElasticsearchDocumentStore) : mappings :=
  if is_given (_custom_mapping s)
  then CustomMapping (default ∅ (_custom_mapping s))
  else DefaultMapping (_embedding_similarity_function s).

(** The requests of one set-up of store [s] when the backend reports the
    index as [present]. *)
Definition setup_requests (s : ElasticsearchDocumentStore) (present : bool) : list call :=
  [CallInfo; CallIndicesExists (_index s)]
  ++ (if present then [] else [CallIndicesCreate (_index s) (index_mappings s)])%list.

(** The action [write_documents] builds for a document. *)
Definition action_of (op : string) (doc : Document) : action :=
  {| _op_type := op; _id := id doc;
     _source := delete "sparse_embedding" (Document_to_dict doc) |}.

(** The document carries a sparse embedding that is not empty. *)
Definition has_sparse (doc : Document) : bool :=
  match Document_to_dict doc !! "sparse_embedding" with
  | Some v => truthy v
  | None => false
  end.

(** The warnings logged for a batch: one per document with a sparse
    embedding, in batch order. *)
Definition sparse_warnings (documents : list Document) : list string :=
  map (fun d => sparse_warning (id d)) (filter (fun d => has_sparse d = true) documents).

(** The world after the batch has been turned into actions. *)
Definition warned (w : World) (documents : list Document) : World :=
  {| self := self w; net := net w;
     warnings := (warnings w ++ sparse_warnings documents)%list |}.

(** The documents of a batch, up to its first element that is none. *)
Fixpoint leading_documents (batch : list pyobj) : list Document :=
  match batch with
  | IsDocument d :: rest => d :: leading_documents rest
  | _ => []
  end.

Definition all_documents (batch : list pyobj) : Prop :=
  Forall (fun o => match o with IsDocument _ => True | Other _ => False end) batch.

(** The multi-match query of a BM25 search. *)
Definition bm25_shape (query : string) (filters : option pydict) (fuzziness : string)
    (top_k : Z) (kw : search_kwargs) : Prop :=
  kw_size kw = Some top_k /\ kw_knn kw = None
  /\ exists filter,
       normalised filters filter
       /\ kw_query kw = Some (BoolMultiMatch query fuzziness "most_fields" "OR" filter).

(** The knn entry of a vector search. *)
Definition knn_shape (query_embedding : list float) (filters : option pydict)
    (top_k pool : Z) (kw : search_kwargs) : Prop :=
  kw_size kw = None /\ kw_query kw = None
  /\ exists filter,
       normalised filters filter
       /\ kw_knn kw = Some {| knn_field := "embedding";
                                        knn_query_vector := query_embedding;
                                        knn_k := Some top_k;
                                        knn_num_candidates := pool;
                                        knn_filter := filter |}.

(** ** Facts about the monad *)

Lemma bind_Ok {A B} (m : M A) (k : A -> M B) w a w' :
  m w = (Ok a, w') -> bind m k w = k a w'.
Proof. intros H. unfold bind. now rewrite H. Qed.

Lemma bind_Raise {A B} (m : M A) (k : A -> M B) w e w' :
  m w = (Raise e, w') -> bind m k w = (Raise e, w').
Proof. intros H. unfold bind. now rewrite H. Qed.

Lemma bind_Ok_inv {A B} (m : M A) (k : A -> M B) w b w2 :
  bind m k w = (Ok b, w2) ->
  exists a w1, m w = (Ok a, w1) /\ k a w1 = (Ok b, w2).
Proof.
  unfold bind. destruct (m w) as [[a|e|] w1]; intros H; try discriminate.
  now exists a, w1.
Qed.

Lemma lift_Ok_inv {A} (r : exn + A) w a w' :
  lift r w = (Ok a, w') -> r = inr a /\ w' = w.
Proof.
  destruct r as [e|a']; cbn; intros H; inversion H; now subst.
Qed.

Lemma reached_decide top_k total n :
  reached top_k total n <->
  (match top_k with Some k => (k <=? Z.of_nat n)%Z | None => false end
   || (total <=? Z.of_nat n)%Z) = true.
Proof.
  unfold reached. rewrite orb_true_iff, Z.leb_le. split.
  - intros [[k [-> Hk]]|H]; [left; now apply Z.leb_le | now right].
  - intros [H|H]; [left | now right].
    destruct top_k as [k|]; [| discriminate]. exists k. split; [done|]. now apply Z.leb_le.
Qed.

(** One turn of the loop, with both exits folded into one test. *)
Lemma search_loop_step handle fuel kw top_k documents from_ w hits total w1 new :
  search_page handle from_ kw w = (Ok (hits, total), w1) ->
  map_exn _deserialize_document hits = inr new ->
  search_loop handle (S fuel) kw top_k documents from_ w =
  if match top_k with
     | Some k => (k <=? Z.of_nat (length (documents ++ new)%list))%Z
     | None => false
     end || (total <=? Z.of_nat (length (documents ++ new)%list))%Z
  then (Ok (documents ++ new)%list, w1)
  else search_loop handle fuel kw top_k (documents ++ new)%list
                   (length (documents ++ new)%list) w1.
Proof.
  intros Hpage Hnew. cbn [search_loop].
  rewrite (bind_Ok _ _ _ _ _ Hpage). cbn [fst snd]. rewrite Hnew.
  unfold lift, bind at 1, ret at 1.
  destruct top_k as [k|]; cbn [orb].
  - destruct (k <=? _)%Z; [done|]. cbn [orb]. now destruct (total <=? _)%Z.
  - now destruct (total <=? _)%Z.
Qed.

(** A turn whose fetch or deserialisation raises ends the search. *)
Lemma search_loop_fetch_raises handle fuel kw top_k documents from_ w e w1 :
  search_page handle from_ kw w = (Raise e, w1) ->
  search_loop handle (S fuel) kw top_k documents from_ w = (Raise e, w1).
Proof. intros H. cbn [search_loop]. now rewrite (bind_Raise _ _ _ _ _ H). Qed.

Lemma search_loop_hit_raises handle fuel kw top_k documents from_ w hits total w1 e :
  search_page handle from_ kw w = (Ok (hits, total), w1) ->
  map_exn _deserialize_document hits = inl e ->
  search_loop handle (S fuel) kw top_k documents from_ w = (Raise e, w1).
Proof.
  intros Hpage Hnew. cbn [search_loop].
  rewrite (bind_Ok _ _ _ _ _ Hpage). cbn [fst]. now rewrite Hnew.
Qed.

(** The loop computes what the contract describes, and nothing else. *)
Lemma search_loop_paginates handle kw top_k fuel :
  forall acc w out w',
    search_loop handle fuel kw top_k acc (length acc) w = (Ok out, w') ->
    paginates handle kw top_k acc w out w'.
Proof.
  induction fuel as [|fuel IH]; intros acc w out w' H; [discriminate|].
  destruct (search_page handle (length acc) kw w) as [[[hits total]|e|] w1] eqn:Hpage.
  - destruct (map_exn _deserialize_document hits) as [e|new] eqn:Hnew.
    + rewrite (search_loop_hit_raises _ _ _ _ _ _ _ _ _ _ _ Hpage Hnew) in H. discriminate.
    + rewrite (search_loop_step _ _ _ _ _ _ _ _ _ _ _ Hpage Hnew) in H.
      destruct (_ || _) eqn:Hstop.
      * inversion H; subst. eapply paginates_last; eauto. now apply reached_decide.
      * eapply paginates_next; eauto.
        rewrite reached_decide, Hstop. discriminate.
  - rewrite (search_loop_fetch_raises _ _ _ _ _ _ _ _ _ Hpage) in H. discriminate.
  - cbn [search_loop] in H. unfold bind at 1 in H. rewrite Hpage in H. discriminate.
Qed.

Lemma paginates_search_loop handle kw top_k acc w out w' :
  paginates handle kw top_k acc w out w' ->
  exists fuel, search_loop handle fuel kw top_k acc (length acc) w = (Ok out, w').
Proof.
  induction 1 as [acc w hits total new w1 Hpage Hnew Hstop
                 |acc w hits total new w1 out w2 Hpage Hnew Hstop _ [fuel IH]].
  - exists 1. rewrite (search_loop_step _ _ _ _ _ _ _ _ _ _ _ Hpage Hnew).
    apply reached_decide in Hstop. now rewrite Hstop.
  - exists (S fuel). rewrite (search_loop_step _ _ _ _ _ _ _ _ _ _ _ Hpage Hnew).
    rewrite reached_decide in Hstop. apply not_true_is_false in Hstop.
    now rewrite Hstop.
Qed.

(** More fuel never changes a finished search. *)
Lemma search_loop_more_fuel handle kw top_k fuel :
  forall extra acc from_ w out w',
    search_loop handle fuel kw top_k acc from_ w = (Ok out, w') ->
    search_loop handle (fuel + extra) kw top_k acc from_ w = (Ok out, w').
Proof.
  induction fuel as [|fuel IH]; intros extra acc from_ w out w' H; [discriminate|].
  cbn [search_loop Nat.add] in *.
  unfold bind at 1 in H. unfold bind at 1.
  destruct (search_page handle from_ kw w) as [[res|e|] w1]; try discriminate.
  unfold bind at 1 in H. unfold bind at 1.
  destruct (lift _ w1) as [[new|e|] w2]; try discriminate.
  destruct (match top_k with Some _ => _ | None => _ end); [done|].
  destruct (_ <=? _)%Z; [done|]. now apply IH.
Qed.

(** ** Facts about the trace of requests *)

Lemma emits_at_ret {A} P (a : A) w : emits_at P (ret a) w.
Proof. exists []. cbn. now rewrite app_nil_r. Qed.

Lemma emits_at_raise {A} P e w : emits_at P (@raise A e) w.
Proof. exists []. cbn. now rewrite app_nil_r. Qed.

Lemma emits_at_out_of_fuel {A} P w : emits_at P (@out_of_fuel A) w.
Proof. exists []. cbn. now rewrite app_nil_r. Qed.

Lemma emits_at_lift {A} P (r : exn + A) w : emits_at P (lift r) w.
Proof. destruct r; [apply emits_at_raise | apply emits_at_ret]. Qed.

Lemma emits_at_get_self P w : emits_at P get_self w.
Proof. exists []. cbn. now rewrite app_nil_r. Qed.

Lemma emits_at_put_self P s w : emits_at P (put_self s) w.
Proof. exists []. cbn. now rewrite app_nil_r. Qed.

Lemma emits_at_warn P msg w : emits_at P (warn msg) w.
Proof. exists []. cbn. now rewrite app_nil_r. Qed.

Lemma emits_at_request {A} (P : call -> Prop) c (answer : list call -> exn + A) w :
  P c -> emits_at P (request c answer) w.
Proof.
  intros Hc. exists [c]. unfold request.
  destruct (answer (net w)); cbn; auto.
Qed.

Lemma emits_at_bind {A B} P (m : M A) (k : A -> M B) w :
  emits_at P m w ->
  (forall a w', m w = (Ok a, w') -> emits_at P (k a) w') ->
  emits_at P (bind m k) w.
Proof.
  intros [new1 [H1 F1]] Hk. unfold emits_at, bind.
  destruct (m w) as [[a|e|] w1] eqn:Hm; cbn in H1.
  - destruct (Hk a w1 eq_refl) as [new2 [H2 F2]].
    exists (new1 ++ new2)%list. rewrite H2, H1, app_assoc.
    split; [done | now apply Forall_app].
  - now exists new1.
  - now exists new1.
Qed.

Lemma emits_at_try_except {A} P (m : M A) (h : exn -> M A) w :
  emits_at P m w ->
  (forall e w', m w = (Raise e, w') -> emits_at P (h e) w') ->
  emits_at P (try_except m h) w.
Proof.
  intros [new1 [H1 F1]] Hh. unfold emits_at, try_except.
  destruct (m w) as [[a|e|] w1] eqn:Hm; cbn in H1.
  - now exists new1.
  - destruct (Hh e w1 eq_refl) as [new2 [H2 F2]].
    exists (new1 ++ new2)%list. rewrite H2, H1, app_assoc.
    split; [done | now apply Forall_app].
  - now exists new1.
Qed.

Lemma emits_at_weaken {A} (P Q : call -> Prop) (m : M A) w :
  (forall c, P c -> Q c) -> emits_at P m w -> emits_at Q m w.
Proof.
  intros HPQ [new [H F]]. exists new. split; [done|].
  eapply Forall_impl; eauto.
Qed.

Create HintDb emits.
#[local] Hint Resolve emits_at_ret emits_at_raise emits_at_out_of_fuel emits_at_lift
  emits_at_get_self emits_at_put_self emits_at_warn : emits.

Ltac emits_step :=
  first [ apply emits_at_bind; [|intros ? ? ?]
        | apply emits_at_request
        | solve [auto with emits] ].

Lemma emits_ensure_initialized : emits setup_call _ensure_initialized.
Proof.
  intros w. unfold _ensure_initialized.
  apply emits_at_bind; [auto with emits|]. intros s w1 _.
  destruct (_initialized s); [auto with emits|].
  repeat (emits_step; cbn; try done).
  destruct (negb _); repeat (emits_step; cbn; try done).
Qed.

Lemma emits_client : emits setup_call client.
Proof.
  intros w. unfold client.
  apply emits_at_bind; [apply emits_ensure_initialized|]. intros _ w1 _.
  apply emits_at_bind; [auto with emits|]. intros s w2 _.
  destruct (_clients_created s); auto with emits.
Qed.

Lemma emits_async_client : emits setup_call async_client.
Proof.
  intros w. unfold async_client.
  apply emits_at_bind; [apply emits_ensure_initialized|]. intros _ w1 _.
  apply emits_at_bind; [auto with emits|]. intros s w2 _.
  destruct (_clients_created s); auto with emits.
Qed.

Lemma emits__async_client : emits setup_call _async_client.
Proof.
  intros w. unfold _async_client.
  apply emits_at_bind; [auto with emits|]. intros s w2 _.
  destruct (_clients_created s); auto with emits.
Qed.

Lemma setup_call_search Q c : setup_call c -> setup_or_search Q c.
Proof. now destruct c. Qed.

(** A search sends set-up requests and searches with its own keyword
    arguments, and nothing else. *)
Lemma emits_search_loop (Q : search_kwargs -> Prop) handle kw top_k fuel :
  emits setup_call handle -> Q kw ->
  forall acc from_, emits (setup_or_search Q) (search_loop handle fuel kw top_k acc from_).
Proof.
  intros Hh HQ. induction fuel as [|fuel IH]; intros acc from_ w; cbn [search_loop].
  { auto with emits. }
  apply emits_at_bind.
  - unfold search_page. apply emits_at_bind.
    + eapply emits_at_weaken; [apply setup_call_search | apply Hh].
    + intros c w1 _. apply emits_at_bind; [auto with emits|]. intros s w2 _.
      now apply emits_at_request.
  - intros res w1 _. apply emits_at_bind; [auto with emits|]. intros new w2 _.
    destruct (match top_k with Some _ => _ | None => _ end); [auto with emits|].
    destruct (_ <=? _)%Z; [auto with emits|]. apply IH.
Qed.

(** ** Facts about deserialisation *)


Lemma map_exn_Forall2 {A B} (f : A -> exn + B) (l : list A) (out : list B) :
  map_exn f l = inr out <-> Forall2 (fun x y => f x = inr y) l out.
Proof.
  revert out. induction l as [|x l IH]; intros out; cbn.
  - split; [intros [= <-]; constructor | intros H; now inversion H].
  - split.
    + destruct (f x) as [e|y] eqn:Hx; cbn; [discriminate|].
      destruct (map_exn f l) as [e|ys] eqn:Hl; cbn; [discriminate|].
      intros [= <-]. constructor; [done | now apply IH].
    + intros H. inversion H as [|? y ? ys Hx Hl]; subst.
      rewrite Hx. cbn. apply IH in Hl. now rewrite Hl.
Qed.


(** What a successful deserialisation tells about the hit. *)
Lemma deserialize_data_inv hit data :
  _deserialize_data hit = inr data ->
  exists src s,
    hit !! "_source" = Some (PDict src) /\ hit !! "_score" = Some s /\
    data !! "score" = Some s /\
    match hit !! "highlight" with
    | Some h =>
        exists meta, src !! "metadata" = Some (PDict meta) /\
          data = <["score" := s]> (<["metadata" := PDict (<["highlighted" := h]> meta)]> src)
    | None => data = <["score" := s]> src
    end.
Proof.
  unfold _deserialize_data, getitem.
  destruct (hit !! "_source") as [v|] eqn:Hs; cbn; [|discriminate].
  destruct (hit !! "highlight") as [h|] eqn:Hh.
  - destruct v as [| | | | | |src]; cbn; try discriminate.
    unfold getitem. destruct (src !! "metadata") as [m|] eqn:Hm; cbn; [|discriminate].
    destruct m as [| | | | | |meta]; cbn; try discriminate.
    destruct (hit !! "_score") as [s|] eqn:Hsc; cbn; [|discriminate].
    intros [= <-]. exists src, s. repeat split; try done.
    + apply lookup_insert_eq.
    + now exists meta.
  - cbn. destruct (hit !! "_score") as [s|] eqn:Hsc; cbn; [|discriminate].
    destruct v as [| | | | | |src]; cbn; try discriminate.
    intros [= <-]. exists src, s. repeat split; try done.
    apply lookup_insert_eq.
Qed.


(** ** Facts about filtering *)

Lemma filter_documents_invalid fuel (filters : pydict) w :
  filters ≠ ∅ -> filters !! "operator" = None -> filters !! "conditions" = None ->
  filter_documents fuel (Some filters) w = (Raise (ValueError invalid_filter_msg), w).
Proof.
  intros Hne Hop Hco. unfold filter_documents, is_given, has_key, truthy.
  rewrite Hop, Hco. rewrite (bool_decide_eq_false_2 _ Hne).
  rewrite !bool_decide_eq_false_2 by (intros [? ?]; discriminate). reflexivity.
Qed.

Lemma filter_documents_async_invalid fuel (filters : pydict) w :
  filters ≠ ∅ -> filters !! "operator" = None -> filters !! "conditions" = None ->
  filter_documents_async fuel (Some filters) w = (Raise (ValueError invalid_filter_msg), w).
Proof.
  intros Hne Hop Hco. unfold filter_documents_async, is_given, has_key, truthy.
  rewrite Hop, Hco. rewrite (bool_decide_eq_false_2 _ Hne).
  rewrite !bool_decide_eq_false_2 by (intros [? ?]; discriminate). reflexivity.
Qed.

(** ** Facts about vector retrieval *)

Lemma emits_optional_filter P filters : emits P (optional_filter filters).
Proof.
  intros w. unfold optional_filter. destruct filters as [d|]; [|auto with emits].
  destruct (truthy (PDict d)); [|auto with emits].
  apply emits_at_bind; [auto with emits|]. intros; auto with emits.
Qed.

Lemma knn_body_pool query_embedding filters top_k num_candidates w body w' :
  knn_body query_embedding filters top_k num_candidates w = (Ok body, w') ->
  knn_pool top_k num_candidates body.
Proof.
  unfold knn_body. intros H. apply bind_Ok_inv in H as (filter & w1 & _ & H).
  inversion H; subst. now eexists.
Qed.

Lemma emits_knn_body P query_embedding filters top_k num_candidates :
  emits P (knn_body query_embedding filters top_k num_candidates).
Proof.
  intros w. unfold knn_body.
  apply emits_at_bind; [apply emits_optional_filter|]. intros; auto with emits.
Qed.

Lemma emits_embedding_retrieval fuel query_embedding filters top_k num_candidates :
  emits (setup_or_search (knn_pool top_k (sync_num_candidates top_k num_candidates)))
        (_embedding_retrieval fuel query_embedding filters top_k num_candidates).
Proof.
  intros w. unfold _embedding_retrieval.
  destruct query_embedding as [|x xs]; [auto with emits|].
  apply emits_at_bind; [apply emits_knn_body|]. intros body w1 Hbody.
  apply emits_search_loop; [apply emits_client|]. eapply knn_body_pool; eauto.
Qed.

Lemma emits_embedding_retrieval_async fuel query_embedding filters top_k num_candidates :
  emits (setup_or_search (knn_pool top_k (async_num_candidates top_k num_candidates)))
        (_embedding_retrieval_async fuel query_embedding filters top_k num_candidates).
Proof.
  intros w. unfold _embedding_retrieval_async.
  apply emits_at_bind.
  { eapply emits_at_weaken; [apply setup_call_search | apply emits_ensure_initialized]. }
  intros _ w0 _.
  destruct query_embedding as [|x xs]; [auto with emits|].
  apply emits_at_bind; [apply emits_knn_body|]. intros body w1 Hbody.
  apply emits_search_loop; [apply emits__async_client|]. eapply knn_body_pool; eauto.
Qed.

(** ** Facts about score rescaling *)

Lemma rescale_score doc : score (rescale doc) = scale <$> score doc.
Proof. unfold rescale. destruct (score doc) eqn:E; [reflexivity | now rewrite E]. Qed.

Lemma rescale_keeps doc : id (rescale doc) = id doc /\ fields (rescale doc) = fields doc.
Proof. unfold rescale. destruct (score doc); split; reflexivity. Qed.

Lemma rescale_unscored doc : score doc = None -> rescale doc = doc.
Proof. unfold rescale. now intros ->. Qed.

(** With [scale_score] the retrieval is the plain retrieval followed by the
    rescaling of every document. *)
Lemma bm25_retrieval_scaled fuel query filters fuzziness top_k w :
  _bm25_retrieval fuel query filters fuzziness top_k true w =
  match _bm25_retrieval fuel query filters fuzziness top_k false w with
  | (Ok documents, w') => (Ok (map rescale documents), w')
  | other => other
  end.
Proof.
  unfold _bm25_retrieval. destruct (String.eqb query ""); [done|].
  unfold bind at 1 3.
  destruct (bm25_body query filters fuzziness top_k w) as [[body|e|] w1]; try done.
  unfold bind. now destruct (_search_documents fuel body w1) as [[docs|e|] w2].
Qed.

Lemma bm25_retrieval_async_scaled fuel query filters fuzziness top_k w :
  _bm25_retrieval_async fuel query filters fuzziness top_k true w =
  match _bm25_retrieval_async fuel query filters fuzziness top_k false w with
  | (Ok documents, w') => (Ok (map rescale documents), w')
  | other => other
  end.
Proof.
  unfold _bm25_retrieval_async. unfold bind at 1 4.
  destruct (_ensure_initialized w) as [[[]|e|] w0]; try done.
  destruct (String.eqb query ""); [done|].
  unfold bind at 1 3.
  destruct (bm25_body query filters fuzziness top_k w0) as [[body|e|] w1]; try done.
  unfold bind. now destruct (_search_documents_async fuel body w1) as [[docs|e|] w2].
Qed.

(** ** Facts about bulk writes *)

Lemma ensure_initialized_ready w :
  _initialized (self w) = true -> _ensure_initialized w = (Ok tt, w).
Proof. intros H. unfold _ensure_initialized, bind, get_self. now rewrite H. Qed.

Lemma client_ready w : ready (self w) -> client w = (Ok SyncClient, w).
Proof.
  intros [Hi Hc]. unfold client. rewrite (bind_Ok _ _ _ _ _ (ensure_initialized_ready w Hi)).
  unfold bind, get_self. now rewrite Hc.
Qed.

Lemma async_client_ready w : ready (self w) -> async_client w = (Ok AsyncClient, w).
Proof.
  intros [Hi Hc]. unfold async_client.
  rewrite (bind_Ok _ _ _ _ _ (ensure_initialized_ready w Hi)).
  unfold bind, get_self. now rewrite Hc.
Qed.

(** Building the actions touches neither the store nor the network. *)
Lemma build_actions_frame op documents :
  forall w r w', build_actions op documents w = (r, w') ->
                 self w' = self w /\ net w' = net w.
Proof.
  induction documents as [|[doc|v] rest IH]; intros w r w' H; cbn in H.
  - now inversion H.
  - unfold bind in H.
    destruct (Document_to_dict doc !! "sparse_embedding") as [sp|].
    + unfold bind in H. destruct (truthy sp); cbn in H.
      * destruct (build_actions op rest _) as [[acts|e|] w1] eqn:Hrest;
          apply IH in Hrest; cbn in Hrest; now inversion H; subst.
      * destruct (build_actions op rest _) as [[acts|e|] w1] eqn:Hrest;
          apply IH in Hrest; cbn in Hrest; now inversion H; subst.
    + cbn in H. destruct (build_actions op rest _) as [[acts|e|] w1] eqn:Hrest;
        apply IH in Hrest; now inversion H; subst.
  - now inversion H.
Qed.

Lemma build_actions_first op documents w actions w' :
  build_actions op documents w = (Ok actions, w') ->
  first_is_not_document documents = false.
Proof. destruct documents as [|[doc|v] rest]; cbn; [done | done | discriminate]. Qed.

(** Every action carries the verb it was built with. *)
Lemma build_actions_verb op documents :
  forall w actions w', build_actions op documents w = (Ok actions, w') ->
                       Forall (fun a => _op_type a = op) actions.
Proof.
  induction documents as [|[doc|v] rest IH]; intros w actions w' H; cbn in H.
  - inversion H. constructor.
  - apply bind_Ok_inv in H as (d & w1 & _ & H).
    apply bind_Ok_inv in H as (acts & w2 & Hrest & H).
    inversion H; subst. constructor; [done | eauto].
  - discriminate.
Qed.

Lemma sort_errors_cons policy e errors dup other :
  create_item e ->
  sort_errors policy (e :: errors) dup other =
  if DuplicatePolicy_eqb policy FAIL && is_conflict e
  then sort_errors policy errors (dup ++ [be_id e])%list other
  else if DuplicatePolicy_eqb policy SKIP && is_conflict e
  then sort_errors policy errors dup other
  else sort_errors policy errors dup (other ++ [e])%list.
Proof.
  intros He. unfold create_item in He. cbn [sort_errors].
  now rewrite He, String.eqb_refl.
Qed.

Lemma sort_errors_skip errors :
  forall dup other,
    Forall create_item errors ->
    sort_errors SKIP errors dup other =
    inr (dup, (other ++ filter (fun e => is_conflict e = false) errors)%list).
Proof.
  induction errors as [|e errors IH]; intros dup other Hc.
  - cbn. now rewrite app_nil_r.
  - inversion Hc as [|? ? He Hrest]; subst.
    rewrite (sort_errors_cons _ _ _ _ _ He), filter_cons. cbn [DuplicatePolicy_eqb andb].
    destruct (is_conflict e) eqn:Ht.
    + destruct (decide (true = false)); [discriminate|]. now apply IH.
    + destruct (decide (false = false)); [|done].
      rewrite IH by done. now rewrite <- app_assoc.
Qed.

Lemma sort_errors_fail errors :
  forall dup other,
    Forall create_item errors ->
    sort_errors FAIL errors dup other =
    inr ((dup ++ map be_id (filter (fun e => is_conflict e = true) errors))%list,
         (other ++ filter (fun e => is_conflict e = false) errors)%list).
Proof.
  induction errors as [|e errors IH]; intros dup other Hc.
  - cbn. now rewrite !app_nil_r.
  - inversion Hc as [|? ? He Hrest]; subst.
    rewrite (sort_errors_cons _ _ _ _ _ He), !filter_cons. cbn [DuplicatePolicy_eqb andb].
    destruct (is_conflict e) eqn:Ht.
    + destruct (decide (true = true)); [|done].
      destruct (decide (true = false)); [discriminate|].
      rewrite IH by done. cbn. now rewrite <- app_assoc.
    + destruct (decide (false = true)); [discriminate|].
      destruct (decide (false = false)); [|done].
      rewrite IH by done. now rewrite <- app_assoc.
Qed.

(** [write_documents] once the batch is built, the client is at hand and the
    backend has answered the bulk call. *)
Lemma write_documents_answered documents policy w actions w0 c w1 written errors :
  build_actions (sync_op_type (resolve_policy policy)) documents w = (Ok actions, w0) ->
  client w0 = (Ok c, w1) ->
  bulk es (net w1) c (_index (self w1)) actions RefreshWaitFor = inr (written, errors) ->
  write_documents documents policy w =
  let w2 := sent w1 (CallBulk c (_index (self w1)) actions RefreshWaitFor) in
  match errors with
  | [] => (Ok written, w2)
  | _ =>
      match sort_errors (resolve_policy policy) errors [] [] with
      | inl e => (Raise e, w2)
      | inr (dup, other) =>
          if (0 <? length dup)%nat
          then (Raise (DuplicateDocumentError (duplicate_ids_msg dup)), w2)
          else if (0 <? length other)%nat
          then (Raise (DocumentStoreError (write_failed_msg other)), w2)
          else (Ok written, w2)
      end
  end.
Proof.
  intros Hb Hc Hbulk. unfold write_documents.
  rewrite (build_actions_first _ _ _ _ _ Hb).
  rewrite (bind_Ok _ _ _ _ _ Hb), (bind_Ok _ _ _ _ _ Hc).
  unfold bind at 1, get_self at 1.
  unfold bind at 1, request at 1. rewrite Hbulk. cbn [fst snd]. unfold sent.
  destruct errors as [|e errors]; [done|].
  unfold bind, lift.
  destruct (sort_errors _ _ _ _) as [e'|[dup other]]; [done|]. cbn [fst snd ret].
  destruct (0 <? length dup)%nat; [done|]. now destruct (0 <? length other)%nat.
Qed.

(** Under SKIP the conflicts vanish from the reconciliation: the outcome is
    decided by the other failures alone. *)
Lemma write_documents_skip documents w actions w0 c w1 written errors :
  build_actions "create" documents w = (Ok actions, w0) ->
  client w0 = (Ok c, w1) ->
  bulk es (net w1) c (_index (self w1)) actions RefreshWaitFor = inr (written, errors) ->
  Forall create_item errors ->
  write_documents documents SKIP w =
  (match filter (fun e => is_conflict e = false) errors with
   | [] => Ok written
   | other => Raise (DocumentStoreError (write_failed_msg other))
   end,
   sent w1 (CallBulk c (_index (self w1)) actions RefreshWaitFor)).
Proof.
  intros Hb Hc Hbulk Hcreate.
  rewrite (write_documents_answered _ SKIP _ _ _ _ _ _ _ Hb Hc Hbulk). cbv zeta.
  change (resolve_policy SKIP) with SKIP. rewrite (sort_errors_skip _ _ _ Hcreate).
  cbn [app length Nat.ltb Nat.leb].
  destruct errors as [|e errors]; [done|].
  now destruct (filter _ (e :: errors)).
Qed.

(** X1.  Under FAIL (and NONE, which resolves to FAIL), once the backend has
    answered the bulk call of [write_documents], the conflicts are all
    named, in the order reported, in one [DuplicateDocumentError], which
    wins over other failures; without conflicts the other failures are
    listed in one [DocumentStoreError]; without failures the written count
    is returned. *)
Lemma write_documents_fail documents policy w actions w0 c w1 written errors :
  resolve_policy policy = FAIL ->
  build_actions "create" documents w = (Ok actions, w0) ->
  client w0 = (Ok c, w1) ->
  bulk es (net w1) c (_index (self w1)) actions RefreshWaitFor = inr (written, errors) ->
  Forall create_item errors ->
  write_documents documents policy w =
  (match filter (fun e => is_conflict e = true) errors with
   | [] =>
       match filter (fun e => is_conflict e = false) errors with
       | [] => Ok written
       | other => Raise (DocumentStoreError (write_failed_msg other))
       end
   | conflicts => Raise (DuplicateDocumentError (duplicate_ids_msg (map be_id conflicts)))
   end,
   sent w1 (CallBulk c (_index (self w1)) actions RefreshWaitFor)).
Proof.
  intros Hp Hb Hc Hbulk Hcreate.
  assert (Hb' : build_actions (sync_op_type (resolve_policy policy)) documents w
                = (Ok actions, w0)) by now rewrite Hp.
  rewrite (write_documents_answered _ policy _ _ _ _ _ _ _ Hb' Hc Hbulk). cbv zeta.
  rewrite Hp, (sort_errors_fail _ _ _ Hcreate). cbn [app].
  destruct errors as [|e errors]; [done|].
  destruct (filter (fun e0 => is_conflict e0 = true) (e :: errors)) as [|x xs];
    cbn [map length Nat.ltb Nat.leb]; [|done].
  now destruct (filter (fun e0 => is_conflict e0 = false) (e :: errors)).
Qed.

(** ** Facts about termination *)

Lemma returns_bind {A B} (m : M A) (k : A -> M B) :
  returns m -> (forall a, returns (k a)) -> returns (bind m k).
Proof.
  intros Hm Hk w. unfold bind. specialize (Hm w).
  destruct (m w) as [[a|e|] w1]; cbn in *; [apply Hk | done | done].
Qed.

Lemma returns_request {A} c (answer : list call -> exn + A) : returns (request c answer).
Proof. intros w. unfold request. now destruct (answer (net w)). Qed.

Lemma returns_ensure_initialized : returns _ensure_initialized.
Proof.
  unfold _ensure_initialized. apply returns_bind; [done|]. intros s.
  destruct (_initialized s); [done|].
  apply returns_bind; [done|]. intros _.
  apply returns_bind; [apply returns_request|]. intros _.
  apply returns_bind; [apply returns_request|]. intros present.
  apply returns_bind; [|done].
  destruct (negb present); [apply returns_request | done].
Qed.

Lemma returns_client : returns client.
Proof.
  unfold client. apply returns_bind; [apply returns_ensure_initialized|]. intros _.
  apply returns_bind; [done|]. intros s. now destruct (_clients_created s).
Qed.

Lemma returns__async_client : returns _async_client.
Proof.
  unfold _async_client. apply returns_bind; [done|]. intros s.
  now destruct (_clients_created s).
Qed.

Lemma returns_search_page handle from_ kw :
  returns handle -> returns (search_page handle from_ kw).
Proof.
  intros Hh. unfold search_page. apply returns_bind; [done|]. intros c.
  apply returns_bind; [done|]. intros s. apply returns_request.
Qed.

(** A fetched page is an answer of the backend's search. *)
Lemma search_page_answer handle from_ kw w hits total w1 :
  search_page handle from_ kw w = (Ok (hits, total), w1) ->
  exists h c index, search es h c index from_ kw = inr (hits, total).
Proof.
  unfold search_page. intros H.
  apply bind_Ok_inv in H as (c & w2 & _ & H).
  apply bind_Ok_inv in H as (s & w3 & _ & H).
  unfold request in H.
  destruct (search es (net w3) c (_index s) from_ kw) as [e|page] eqn:Hs; [discriminate|].
  inversion H; subst. eauto.
Qed.

Lemma map_exn_length {A B} (f : A -> exn + B) l out :
  map_exn f l = inr out -> length out = length l.
Proof. intros H. apply map_exn_Forall2 in H. symmetry. eapply Forall2_length; eauto. Qed.

(** Bounded by construction: with a fixed total and pages that are not
    empty below it, the offset grows on every turn until it meets the
    total, so the loop comes back within [total] more turns. *)
Lemma search_loop_returns handle kw top_k total :
  returns handle -> progressing total ->
  forall fuel acc w,
    Z.to_nat total - length acc < fuel ->
    (search_loop handle fuel kw top_k acc (length acc) w).1 <> OutOfFuel.
Proof.
  intros Hh Hp. induction fuel as [|fuel IH]; intros acc w Hfuel; [lia|].
  destruct (search_page handle (length acc) kw w) as [[[hits reported]|e|] w1] eqn:Hpage.
  - destruct (search_page_answer _ _ _ _ _ _ _ Hpage) as (h & c & index & Hs).
    destruct (Hp _ _ _ _ _ _ _ Hs) as [-> Hne].
    destruct (map_exn _deserialize_document hits) as [e|new] eqn:Hnew.
    + now rewrite (search_loop_hit_raises _ _ _ _ _ _ _ _ _ _ _ Hpage Hnew).
    + rewrite (search_loop_step _ _ _ _ _ _ _ _ _ _ _ Hpage Hnew).
      destruct (_ || _) eqn:Hstop; [done|].
      apply orb_false_elim in Hstop as [_ Hgo]. apply Z.leb_gt in Hgo.
      apply IH. rewrite length_app in *.
      apply map_exn_length in Hnew.
      assert (hits <> []) as Hhits by (apply Hne; lia).
      destruct hits; [done|]. cbn in Hnew. lia.
  - now rewrite (search_loop_fetch_raises _ _ _ _ _ _ _ _ _ Hpage).
  - exfalso. apply (returns_search_page handle (length acc) kw Hh w). now rewrite Hpage.
Qed.

(** A page that comes back empty below the reported total leaves the loop
    where it was: with no target count, no amount of fuel ends it. *)
Lemma search_loop_stalls handle kw documents total (I : World -> Prop) :
  (forall w, I w ->
     exists w1, search_page handle (length documents) kw w = (Ok ([], total), w1) /\ I w1) ->
  (Z.of_nat (length documents) < total)%Z ->
  forall fuel w, I w ->
    (search_loop handle fuel kw None documents (length documents) w).1 = OutOfFuel.
Proof.
  intros Hpage Hlt. induction fuel as [|fuel IH]; intros w Hw; [reflexivity|].
  destruct (Hpage w Hw) as (w1 & Hp & Hw1).
  rewrite (search_loop_step _ _ _ _ _ _ _ _ _ _ _ Hp eq_refl).
  rewrite app_nil_r. cbn [orb].
  destruct (Z.leb_spec total (Z.of_nat (length documents))); [lia|]. now apply IH.
Qed.

(** The target count the code computes is the one the specification
    states. *)
Lemma target_count_stated kw :
  target_count kw = stated_target (kw_size kw) (kw_knn kw).
Proof. unfold target_count, stated_target. now destruct (kw_size kw), (kw_knn kw). Qed.

Lemma setup_call_bulk Q c : setup_call c -> setup_or_bulk Q c.
Proof. now destruct c. Qed.

Lemma emits_build_actions P op documents : emits P (build_actions op documents).
Proof.
  induction documents as [|[doc|v] rest IH]; intros w; cbn; auto with emits.
  apply emits_at_bind.
  - destruct (Document_to_dict doc !! "sparse_embedding") as [sp|]; [|auto with emits].
    apply emits_at_bind; [destruct (truthy sp); auto with emits|]. intros; auto with emits.
  - intros d w1 _. apply emits_at_bind; [apply IH|]. intros; auto with emits.
Qed.

Lemma emits_raise_first_duplicate P failed : emits P (raise_first_duplicate failed).
Proof.
  induction failed as [|e failed IH]; intros w; cbn; [auto with emits|].
  destruct (_ && _); [auto with emits | apply IH].
Qed.

(** The one bulk call of [write_documents] carries, for every document,
    the verb picked from the policy, and waits for the refresh. *)
Lemma emits_write_documents documents policy :
  emits (setup_or_bulk (all_verbs (sync_op_type (resolve_policy policy)) RefreshWaitFor))
        (write_documents documents policy).
Proof.
  intros w. unfold write_documents.
  destruct (first_is_not_document documents); [auto with emits|].
  apply emits_at_bind; [apply emits_build_actions|]. intros actions w1 Hb.
  apply emits_at_bind.
  { eapply emits_at_weaken; [apply setup_call_bulk | apply emits_client]. }
  intros c w2 _. apply emits_at_bind; [auto with emits|]. intros s w3 _.
  apply emits_at_bind.
  { apply emits_at_request. cbn. split; [|done]. eapply build_actions_verb; eauto. }
  intros [written errors] w4 _. cbn [fst snd].
  destruct errors as [|e errors]; [auto with emits|].
  apply emits_at_bind; [auto with emits|]. intros [dup other] w5 _. cbn [fst snd].
  destruct (0 <? length dup)%nat; [auto with emits|].
  destruct (0 <? length other)%nat; auto with emits.
Qed.

(** The same for [write_documents_async], with its own verb and mode. *)
Lemma emits_write_documents_async documents policy :
  emits (setup_or_bulk (all_verbs (async_op_type (resolve_policy policy)) RefreshTrue))
        (write_documents_async documents policy).
Proof.
  intros w. unfold write_documents_async.
  apply emits_at_bind.
  { eapply emits_at_weaken; [apply setup_call_bulk | apply emits_ensure_initialized]. }
  intros _ w0 _.
  destruct (first_is_not_document documents); [auto with emits|].
  apply emits_at_bind; [apply emits_build_actions|]. intros actions w1 Hb.
  apply emits_at_try_except; [|intros; auto with emits].
  apply emits_at_bind.
  { eapply emits_at_weaken; [apply setup_call_bulk | apply emits_async_client]. }
  intros c w2 _. apply emits_at_bind; [auto with emits|]. intros s w3 _.
  apply emits_at_bind.
  { apply emits_at_request. cbn. split; [|done]. eapply build_actions_verb; eauto. }
  intros [written failed] w4 _. cbn [fst snd].
  destruct failed as [|e failed]; [auto with emits|].
  apply emits_at_bind; [|intros; auto with emits].
  destruct (DuplicatePolicy_eqb _ _); [apply emits_raise_first_duplicate | auto with emits].
Qed.

Lemma bind_Raise_inv {A B} (m : M A) (k : A -> M B) w e w2 :
  bind m k w = (Raise e, w2) ->
  m w = (Raise e, w2) \/ exists a w1, m w = (Ok a, w1) /\ k a w1 = (Raise e, w2).
Proof.
  unfold bind. destruct (m w) as [[a|e'|] w1]; intros H; try discriminate.
  - right. now exists a, w1.
  - left. now inversion H.
Qed.

(** Building the actions raises only on an element without [to_dict]. *)
Lemma build_actions_raises op documents :
  forall w e w', build_actions op documents w = (Raise e, w') ->
                 exists msg, e = AttributeError msg.
Proof.
  induction documents as [|[doc|v] rest IH]; intros w e w' H; cbn in H.
  - discriminate.
  - apply bind_Raise_inv in H as [H|(d & w1 & _ & H)].
    + exfalso. destruct (Document_to_dict doc !! "sparse_embedding") as [sp|];
        [|discriminate]. unfold bind in H. now destruct (truthy sp).
    + apply bind_Raise_inv in H as [H|(acts & w2 & _ & H)]; [eauto | discriminate].
  - inversion H. eauto.
Qed.

(** Whatever [write_documents_async] raises on a ready store, it is never a
    [DuplicateDocumentError]: what the [try] block raises is wrapped. *)
Lemma write_documents_async_never_duplicate documents policy w e w' :
  ready (self w) ->
  write_documents_async documents policy w = (Raise e, w') ->
  is_DuplicateDocumentError e = false.
Proof.
  intros [Hi Hc]. unfold write_documents_async.
  rewrite (bind_Ok _ _ _ _ _ (ensure_initialized_ready w Hi)).
  destruct (first_is_not_document documents); [now intros [= <- _]|].
  intros H. apply bind_Raise_inv in H as [H|(actions & w1 & _ & H)].
  - apply build_actions_raises in H as [msg ->]. reflexivity.
  - unfold try_except in H.
    destruct (bind _ _ w1) as [[n|e1|] w2]; [discriminate| |discriminate].
    now inversion H.
Qed.

(** ** Facts about the set-up *)

Lemma ensure_initialized_Ok w w' :
  _ensure_initialized w = (Ok tt, w') -> _initialized (self w') = true.
Proof.
  unfold _ensure_initialized, bind, get_self.
  destruct (_initialized (self w)) eqn:Hi; [now intros [= <-]|].
  cbn. unfold request. cbn.
  destruct (info es (net w)) as [e|[]]; [discriminate|]. cbn.
  destruct (indices_exists es _ _) as [e|present]; [discriminate|]. cbn.
  destruct present; cbn; [now intros [= <-]|].
  destruct (indices_create es _ _ _) as [e|[]]; [discriminate|]. now intros [= <-].
Qed.

(** X5.  Setting the store up is idempotent: a second [_ensure_initialized]
    right after the first changes nothing and sends nothing, whether the
    first succeeded (the store is initialised) or raised (the second is not
    reached). *)
Lemma ensure_initialized_idempotent w :
  (_ensure_initialized;;; _ensure_initialized) w = _ensure_initialized w.
Proof.
  unfold bind at 1.
  destruct (_ensure_initialized w) as [[[]|e|] w1] eqn:H; [|done|done].
  apply ensure_initialized_ready. eapply ensure_initialized_Ok; eauto.
Qed.

(** X6.  The first use of a store sends the connectivity probe, then the
    index check, then, only when the index is reported missing, the request
    that creates it, with the custom mapping when one is given and the
    default mapping for the chosen similarity otherwise; the store is ready
    afterwards. *)
Lemma ensure_initialized_sets_up w present :
  _initialized (self w) = false ->
  info es (net w) = inr tt ->
  indices_exists es (net w ++ [CallInfo])%list (_index (self w)) = inr present ->
  (present = false ->
   indices_create es (net w ++ [CallInfo; CallIndicesExists (_index (self w))])%list
                  (_index (self w)) (index_mappings (self w)) = inr tt) ->
  exists w',
    _ensure_initialized w = (Ok tt, w')
    /\ net w' = (net w ++ setup_requests (self w) present)%list
    /\ ready (self w')
    /\ _index (self w') = _index (self w).
Proof.
  intros Hi Hinfo Hex Hcreate.
  unfold _ensure_initialized, bind, get_self. rewrite Hi. cbn.
  unfold request. cbn. rewrite Hinfo. cbn. rewrite Hex. cbn.
  destruct present; cbn.
  - eexists. split; [reflexivity|]. cbn. rewrite <- app_assoc. repeat split.
  - fold (index_mappings (self w)).
    rewrite <- app_assoc. cbn [app]. rewrite (Hcreate eq_refl).
    eexists. split; [reflexivity|]. cbn. rewrite <- app_assoc. repeat split.
Qed.

(** X7.  A set-up that fails leaves the store uninitialised, with at least
    the probe sent: the next operation sets it up again. *)
Lemma ensure_initialized_failure w e w' :
  _initialized (self w) = false ->
  _ensure_initialized w = (Raise e, w') ->
  _initialized (self w') = false
  /\ _clients_created (self w') = true
  /\ exists more, net w' = (net w ++ CallInfo :: more)%list.
Proof.
  intros Hi. unfold _ensure_initialized, bind, get_self. rewrite Hi. cbn.
  unfold request. cbn.
  destruct (info es (net w)) as [e0|[]]; cbn.
  { intros [= <- <-]. cbn. eauto. }
  destruct (indices_exists es _ _) as [e0|present]; cbn.
  { intros [= <- <-]. cbn. rewrite <- app_assoc. eauto. }
  destruct present; cbn; [discriminate|].
  destruct (indices_create es _ _ _) as [e0|[]]; [|discriminate].
  intros [= <- <-]. cbn. rewrite <- !app_assoc. eauto.
Qed.

(** ** Facts about what the methods keep *)

Lemma evolves_refl w : evolves w w.
Proof. repeat split; auto; exists []; now rewrite app_nil_r. Qed.

Lemma evolves_trans w1 w2 w3 : evolves w1 w2 -> evolves w2 w3 -> evolves w1 w3.
Proof.
  intros (Hi & Hs & Hm & Hinit & Hcl & Hco & [n1 Hn] & [g1 Hg])
         (Hi' & Hs' & Hm' & Hinit' & Hcl' & Hco' & [n2 Hn'] & [g2 Hg']).
  repeat split.
  - congruence.
  - congruence.
  - congruence.
  - intros H. rewrite <- (Hinit H). apply Hinit'. now rewrite (Hinit H).
  - auto.
  - auto.
  - exists (n1 ++ n2)%list. now rewrite Hn', Hn, app_assoc.
  - exists (g1 ++ g2)%list. now rewrite Hg', Hg, app_assoc.
Qed.

(** A change that leaves the store object alone and only appends. *)
Lemma evolves_same_self w w' :
  self w' = self w ->
  (exists new, net w' = (net w ++ new)%list) ->
  (exists new, warnings w' = (warnings w ++ new)%list) ->
  evolves w w'.
Proof. intros Hs Hn Hw. unfold evolves. rewrite Hs. repeat split; auto. Qed.

Lemma steady_ret {A} (a : A) : steady (ret a).
Proof. intros w. apply evolves_refl. Qed.

Lemma steady_raise {A} e : steady (@raise A e).
Proof. intros w. apply evolves_refl. Qed.

Lemma steady_out_of_fuel {A} : steady (@out_of_fuel A).
Proof. intros w. apply evolves_refl. Qed.

Lemma steady_lift {A} (r : exn + A) : steady (lift r).
Proof. destruct r; [apply steady_raise | apply steady_ret]. Qed.

Lemma steady_get_self : steady get_self.
Proof. intros w. apply evolves_refl. Qed.

Lemma steady_warn msg : steady (warn msg).
Proof.
  intros w. apply evolves_same_self; cbn; [done | | now exists [msg]].
  exists []. now rewrite app_nil_r.
Qed.

Lemma steady_request {A} c (answer : list call -> exn + A) : steady (request c answer).
Proof.
  intros w. unfold request.
  destruct (answer (net w)); (apply evolves_same_self; cbn;
    [done | now exists [c] | exists []; now rewrite app_nil_r]).
Qed.

Lemma steady_bind {A B} (m : M A) (k : A -> M B) :
  steady m -> (forall a, steady (k a)) -> steady (bind m k).
Proof.
  intros Hm Hk w. unfold bind. specialize (Hm w).
  destruct (m w) as [[a|e|] w1]; cbn in *; [|done|done].
  eapply evolves_trans; [exact Hm | apply Hk].
Qed.

Lemma steady_try_except {A} (m : M A) (h : exn -> M A) :
  steady m -> (forall e, steady (h e)) -> steady (try_except m h).
Proof.
  intros Hm Hh w. unfold try_except. specialize (Hm w).
  destruct (m w) as [[a|e|] w1]; cbn in *; [done| |done].
  eapply evolves_trans; [exact Hm | apply Hh].
Qed.

Create HintDb steady.
#[local] Hint Resolve steady_ret steady_raise steady_out_of_fuel steady_lift
  steady_get_self steady_warn steady_request : steady.

Ltac steady_step :=
  first [ solve [auto with steady]
        | apply steady_try_except; [|intros ?]
        | apply steady_bind; [|intros ?] ].

Lemma steady_ensure_initialized : steady _ensure_initialized.
Proof.
  intros w. unfold _ensure_initialized, bind, get_self.
  destruct (_initialized (self w)) eqn:Hi; [apply evolves_refl|].
  cbn. unfold request. cbn.
  assert (Hgen : forall i new,
    evolves w {| self := {| _index := _index (self w);
                            _embedding_similarity_function := _embedding_similarity_function (self w);
                            _custom_mapping := _custom_mapping (self w);
                            _clients_created := true;
                            _initialized := i |};
                 net := (net w ++ new)%list; warnings := warnings w |}).
  { intros i new. unfold evolves, coherent. cbn. rewrite Hi.
    repeat split; try done; eauto. exists []. now rewrite app_nil_r. }
  destruct (info es (net w)) as [e0|[]]; cbn; [apply Hgen|].
  destruct (indices_exists es _ _) as [e0|present]; cbn.
  { rewrite <- app_assoc. apply Hgen. }
  destruct present; cbn; [rewrite <- app_assoc; apply Hgen|].
  destruct (indices_create es _ _ _) as [e0|[]]; cbn; rewrite <- !app_assoc; apply Hgen.
Qed.

Lemma steady_client : steady client.
Proof.
  unfold client. apply steady_bind; [apply steady_ensure_initialized|]. intros _.
  apply steady_bind; [auto with steady|]. intros s.
  destruct (_clients_created s); auto with steady.
Qed.

Lemma steady_async_client : steady async_client.
Proof.
  unfold async_client. apply steady_bind; [apply steady_ensure_initialized|]. intros _.
  apply steady_bind; [auto with steady|]. intros s.
  destruct (_clients_created s); auto with steady.
Qed.

Lemma steady__async_client : steady _async_client.
Proof.
  unfold _async_client. apply steady_bind; [auto with steady|]. intros s.
  destruct (_clients_created s); auto with steady.
Qed.

Lemma steady_search_loop handle kw top_k fuel :
  steady handle -> forall acc from_, steady (search_loop handle fuel kw top_k acc from_).
Proof.
  intros Hh. induction fuel as [|fuel IH]; intros acc from_; cbn [search_loop].
  { auto with steady. }
  apply steady_bind.
  { unfold search_page. repeat steady_step. }
  intros res. apply steady_bind; [auto with steady|]. intros new.
  destruct (match top_k with Some _ => _ | None => _ end); [auto with steady|].
  destruct (_ <=? _)%Z; [auto with steady | apply IH].
Qed.

Lemma steady_optional_filter filters : steady (optional_filter filters).
Proof.
  unfold optional_filter. destruct filters as [d|]; [|auto with steady].
  destruct (truthy (PDict d)); repeat steady_step.
Qed.

Lemma steady_build_actions op documents : steady (build_actions op documents).
Proof.
  induction documents as [|[doc|v] rest IH]; cbn; auto with steady.
  apply steady_bind.
  - destruct (Document_to_dict doc !! "sparse_embedding") as [sp|]; [|auto with steady].
    apply steady_bind; [destruct (truthy sp); auto with steady|]. intros; auto with steady.
  - intros d. apply steady_bind; [apply IH|]. intros; auto with steady.
Qed.

Lemma steady_raise_first_duplicate failed : steady (raise_first_duplicate failed).
Proof.
  induction failed as [|e failed IH]; cbn; [auto with steady|].
  destruct (_ && _); [auto with steady | apply IH].
Qed.

#[local] Hint Resolve steady_ensure_initialized steady_client steady_async_client
  steady__async_client steady_search_loop steady_optional_filter steady_build_actions
  steady_raise_first_duplicate : steady.

Lemma steady_search_documents fuel kw : steady (_search_documents fuel kw).
Proof. unfold _search_documents. auto with steady. Qed.

Lemma steady_search_documents_async fuel kw : steady (_search_documents_async fuel kw).
Proof. unfold _search_documents_async. auto with steady. Qed.

#[local] Hint Resolve steady_search_documents steady_search_documents_async : steady.

Lemma steady_filter_documents fuel filters : steady (filter_documents fuel filters).
Proof.
  unfold filter_documents, filter_query. destruct (_ && _); repeat steady_step.
Qed.

Lemma steady_filter_documents_async fuel filters : steady (filter_documents_async fuel filters).
Proof.
  unfold filter_documents_async, filter_query. destruct (_ && _); repeat steady_step.
Qed.

Lemma steady_write_documents documents policy : steady (write_documents documents policy).
Proof.
  unfold write_documents. destruct (first_is_not_document documents); [auto with steady|].
  repeat steady_step. destruct (snd _) as [|e errors]; [auto with steady|].
  repeat steady_step.
  destruct (0 <? _)%nat; [auto with steady|]. destruct (0 <? _)%nat; auto with steady.
Qed.

Lemma steady_write_documents_async documents policy :
  steady (write_documents_async documents policy).
Proof.
  unfold write_documents_async. apply steady_bind; [auto with steady|]. intros _.
  destruct (first_is_not_document documents); [auto with steady|].
  repeat steady_step. destruct (snd _) as [|e errors]; [auto with steady|].
  apply steady_bind; [|intros; auto with steady].
  destruct (DuplicatePolicy_eqb _ _); auto with steady.
Qed.

Lemma steady_bm25_retrieval fuel query filters fuzziness top_k scale_score :
  steady (_bm25_retrieval fuel query filters fuzziness top_k scale_score).
Proof.
  unfold _bm25_retrieval, bm25_body. destruct (String.eqb query ""); repeat steady_step.
Qed.

Lemma steady_bm25_retrieval_async fuel query filters fuzziness top_k scale_score :
  steady (_bm25_retrieval_async fuel query filters fuzziness top_k scale_score).
Proof.
  unfold _bm25_retrieval_async, bm25_body. apply steady_bind; [auto with steady|]. intros _.
  destruct (String.eqb query ""); repeat steady_step.
Qed.

Lemma steady_embedding_retrieval fuel query_embedding filters top_k num_candidates :
  steady (_embedding_retrieval fuel query_embedding filters top_k num_candidates).
Proof.
  unfold _embedding_retrieval, knn_body. destruct query_embedding; repeat steady_step.
Qed.

Lemma steady_embedding_retrieval_async fuel query_embedding filters top_k num_candidates :
  steady (_embedding_retrieval_async fuel query_embedding filters top_k num_candidates).
Proof.
  unfold _embedding_retrieval_async, knn_body. apply steady_bind; [auto with steady|]. intros _.
  destruct query_embedding; repeat steady_step.
Qed.

Lemma steady_delete_documents document_ids : steady (delete_documents document_ids).
Proof. unfold delete_documents. repeat steady_step. Qed.

Lemma steady_delete_documents_async document_ids :
  steady (delete_documents_async document_ids).
Proof.
  unfold delete_documents_async. apply steady_bind; [auto with steady|]. intros _.
  repeat steady_step. destruct (snd _); auto with steady.
Qed.

(** ** Facts about lazy set-up *)

Lemma ready_evolves w w' : ready (self w) -> evolves w w' -> ready (self w').
Proof. intros [Hi Hc] (_ & _ & _ & Hfrozen & _). now rewrite (Hfrozen Hi). Qed.

Lemma leaves_ready_bind_l {A B} (m : M A) (k : A -> M B) :
  leaves_ready m -> (forall a, steady (k a)) -> leaves_ready (bind m k).
Proof.
  intros Hm Hk w b w' H. apply bind_Ok_inv in H as (a & w1 & Hm1 & Hk1).
  apply (ready_evolves w1); [exact (Hm w a w1 Hm1)|].
  specialize (Hk a w1). now rewrite Hk1 in Hk.
Qed.

Lemma leaves_ready_bind_r {A B} (m : M A) (k : A -> M B) :
  (forall a, leaves_ready (k a)) -> leaves_ready (bind m k).
Proof.
  intros Hk w b w' H. apply bind_Ok_inv in H as (a & w1 & _ & Hk1).
  exact (Hk a w1 b w' Hk1).
Qed.

Lemma leaves_ready_raise {A} e : leaves_ready (@raise A e).
Proof. intros w a w' H. discriminate. Qed.

Lemma leaves_ready_try_except {A} (m : M A) (h : exn -> M A) :
  leaves_ready m -> (forall e, leaves_ready (h e)) -> leaves_ready (try_except m h).
Proof.
  intros Hm Hh w a w' H. unfold try_except in H.
  destruct (m w) as [[a0|e|] w1] eqn:Hm1; [|exact (Hh e w1 a w' H)|discriminate].
  inversion H; subst. exact (Hm w a w' Hm1).
Qed.

Lemma leaves_created_bind_l {A B} (m : M A) (k : A -> M B) :
  leaves_created m -> (forall a, steady (k a)) -> leaves_created (bind m k).
Proof.
  intros Hm Hk w b w' H. apply bind_Ok_inv in H as (a & w1 & Hm1 & Hk1).
  specialize (Hk a w1). rewrite Hk1 in Hk. cbn in Hk.
  destruct Hk as (_ & _ & _ & _ & Hcl & _). apply Hcl. exact (Hm w a w1 Hm1).
Qed.

Lemma leaves_created_bind_r {A B} (m : M A) (k : A -> M B) :
  (forall a, leaves_created (k a)) -> leaves_created (bind m k).
Proof.
  intros Hk w b w' H. apply bind_Ok_inv in H as (a & w1 & _ & Hk1).
  exact (Hk a w1 b w' Hk1).
Qed.

Lemma leaves_created_raise {A} e : leaves_created (@raise A e).
Proof. intros w a w' H. discriminate. Qed.

(** After a set-up that succeeded, a steady computation that needs the
    clients leaves the store ready. *)
Lemma leaves_ready_after_setup {B} (k : M B) :
  steady k -> leaves_created k -> leaves_ready (_ensure_initialized;;; k).
Proof.
  intros Hs Hc w b w' H. apply bind_Ok_inv in H as ([] & w1 & Hinit & Hk).
  apply ensure_initialized_Ok in Hinit. split; [|exact (Hc w1 b w' Hk)].
  specialize (Hs w1). rewrite Hk in Hs. destruct Hs as (_ & _ & _ & Hfrozen & _).
  cbn in Hfrozen. now rewrite (Hfrozen Hinit).
Qed.

Lemma leaves_ready_client : leaves_ready client.
Proof.
  intros w c w' H. unfold client in H.
  apply bind_Ok_inv in H as ([] & w1 & Hinit & H). apply ensure_initialized_Ok in Hinit.
  unfold bind, get_self in H. destruct (_clients_created (self w1)) eqn:Hc; [|discriminate].
  inversion H; subst. now split.
Qed.

Lemma leaves_ready_async_client : leaves_ready async_client.
Proof.
  intros w c w' H. unfold async_client in H.
  apply bind_Ok_inv in H as ([] & w1 & Hinit & H). apply ensure_initialized_Ok in Hinit.
  unfold bind, get_self in H. destruct (_clients_created (self w1)) eqn:Hc; [|discriminate].
  inversion H; subst. now split.
Qed.

Lemma leaves_created__async_client : leaves_created _async_client.
Proof.
  intros w c w' H. unfold _async_client, bind, get_self in H.
  destruct (_clients_created (self w)) eqn:Hc; [|discriminate]. now inversion H; subst.
Qed.

Lemma leaves_ready_search_loop fuel kw top_k acc from_ :
  leaves_ready (search_loop client fuel kw top_k acc from_).
Proof.
  destruct fuel as [|fuel]; [intros w a w' H; discriminate|]. cbn [search_loop].
  apply leaves_ready_bind_l.
  - unfold search_page. apply leaves_ready_bind_l; [apply leaves_ready_client|].
    intros c. repeat steady_step.
  - intros res. apply steady_bind; [auto with steady|]. intros new.
    destruct (match top_k with Some _ => _ | None => _ end); [auto with steady|].
    destruct (_ <=? _)%Z; auto with steady.
Qed.

Lemma leaves_created_search_loop fuel kw top_k acc from_ :
  leaves_created (search_loop _async_client fuel kw top_k acc from_).
Proof.
  destruct fuel as [|fuel]; [intros w a w' H; discriminate|]. cbn [search_loop].
  apply leaves_created_bind_l.
  - unfold search_page. apply leaves_created_bind_l; [apply leaves_created__async_client|].
    intros c. repeat steady_step.
  - intros res. apply steady_bind; [auto with steady|]. intros new.
    destruct (match top_k with Some _ => _ | None => _ end); [auto with steady|].
    destruct (_ <=? _)%Z; auto with steady.
Qed.

Lemma leaves_ready_filter_documents fuel filters : leaves_ready (filter_documents fuel filters).
Proof.
  unfold filter_documents. destruct (_ && _); [apply leaves_ready_raise|].
  apply leaves_ready_bind_r. intros _. apply leaves_ready_bind_r. intros query.
  apply leaves_ready_search_loop.
Qed.

Lemma leaves_ready_filter_documents_async fuel filters :
  leaves_ready (filter_documents_async fuel filters).
Proof.
  unfold filter_documents_async. destruct (_ && _); [apply leaves_ready_raise|].
  apply leaves_ready_after_setup.
  - unfold filter_query. repeat steady_step.
  - apply leaves_created_bind_r. intros query. apply leaves_created_search_loop.
Qed.

Lemma leaves_ready_write_documents documents policy :
  leaves_ready (write_documents documents policy).
Proof.
  unfold write_documents. destruct (first_is_not_document documents); [apply leaves_ready_raise|].
  apply leaves_ready_bind_r. intros actions.
  apply leaves_ready_bind_l; [apply leaves_ready_client|]. intros c.
  repeat steady_step. destruct (snd _) as [|e errors]; [auto with steady|].
  repeat steady_step.
  destruct (0 <? _)%nat; [auto with steady|]. destruct (0 <? _)%nat; auto with steady.
Qed.

Lemma leaves_ready_write_documents_async documents policy :
  leaves_ready (write_documents_async documents policy).
Proof.
  unfold write_documents_async. apply leaves_ready_bind_r. intros _.
  destruct (first_is_not_document documents); [apply leaves_ready_raise|].
  apply leaves_ready_bind_r. intros actions.
  apply leaves_ready_try_except; [|intros; apply leaves_ready_raise].
  apply leaves_ready_bind_l; [apply leaves_ready_async_client|]. intros c.
  repeat steady_step. destruct (snd _) as [|e errors]; [auto with steady|].
  apply steady_bind; [|intros; auto with steady].
  destruct (DuplicatePolicy_eqb _ _); auto with steady.
Qed.

Lemma leaves_ready_bm25_retrieval fuel query filters fuzziness top_k scale_score :
  leaves_ready (_bm25_retrieval fuel query filters fuzziness top_k scale_score).
Proof.
  unfold _bm25_retrieval. destruct (String.eqb query ""); [apply leaves_ready_raise|].
  apply leaves_ready_bind_r. intros body.
  apply leaves_ready_bind_l; [apply leaves_ready_search_loop | intros; auto with steady].
Qed.

Lemma leaves_ready_bm25_retrieval_async fuel query filters fuzziness top_k scale_score :
  leaves_ready (_bm25_retrieval_async fuel query filters fuzziness top_k scale_score).
Proof.
  unfold _bm25_retrieval_async. apply leaves_ready_after_setup.
  - unfold bm25_body. destruct (String.eqb query ""); repeat steady_step.
  - destruct (String.eqb query ""); [apply leaves_created_raise|].
    apply leaves_created_bind_r. intros body.
    apply leaves_created_bind_l; [apply leaves_created_search_loop | intros; auto with steady].
Qed.

Lemma leaves_ready_embedding_retrieval fuel query_embedding filters top_k num_candidates :
  leaves_ready (_embedding_retrieval fuel query_embedding filters top_k num_candidates).
Proof.
  unfold _embedding_retrieval. destruct query_embedding; [apply leaves_ready_raise|].
  apply leaves_ready_bind_r. intros body. apply leaves_ready_search_loop.
Qed.

Lemma leaves_ready_embedding_retrieval_async fuel query_embedding filters top_k num_candidates :
  leaves_ready (_embedding_retrieval_async fuel query_embedding filters top_k num_candidates).
Proof.
  unfold _embedding_retrieval_async. apply leaves_ready_after_setup.
  - unfold knn_body. destruct query_embedding; repeat steady_step.
  - destruct query_embedding; [apply leaves_created_raise|].
    apply leaves_created_bind_r. intros body. apply leaves_created_search_loop.
Qed.

Lemma leaves_ready_delete_documents document_ids : leaves_ready (delete_documents document_ids).
Proof.
  unfold delete_documents. apply leaves_ready_bind_l; [apply leaves_ready_client|].
  intros c. repeat steady_step.
Qed.

Lemma leaves_ready_delete_documents_async document_ids :
  leaves_ready (delete_documents_async document_ids).
Proof.
  unfold delete_documents_async. apply leaves_ready_bind_r. intros _.
  apply leaves_ready_try_except; [|intros; apply leaves_ready_raise].
  apply leaves_ready_bind_l; [apply leaves_ready_async_client|]. intros c.
  repeat steady_step. destruct (snd _); auto with steady.
Qed.

(** ** Facts about the batch of a write *)

Lemma build_actions_documents op batch :
  all_documents batch ->
  forall w, build_actions op batch w
            = (Ok (map (action_of op) (leading_documents batch)),
               warned w (leading_documents batch)).
Proof.
  induction 1 as [|[doc|v] rest Hd _ IH]; intros w; [| |done].
  - destruct w. unfold warned, sparse_warnings. cbn. now rewrite app_nil_r.
  - cbn [build_actions leading_documents map].
    unfold warned, sparse_warnings. rewrite filter_cons.
    destruct (decide (has_sparse doc = true)) as [Hs|Hs]; unfold has_sparse in Hs;
      destruct (Document_to_dict doc !! "sparse_embedding") as [sp|] eqn:Hsp.
    + rewrite Hs.
      unfold bind at 1. unfold bind at 1. cbn [warn ret].
      unfold bind at 1. rewrite IH. unfold action_of at 2, warned, sparse_warnings. cbn.
      now rewrite <- app_assoc.
    + discriminate.
    + destruct (truthy sp); [done|].
      unfold bind at 1. unfold bind at 1. cbn [ret].
      unfold bind at 1. rewrite IH. unfold action_of at 2. now destruct w.
    + unfold bind at 1. cbn [ret]. unfold bind at 1. rewrite IH.
      unfold action_of at 2. rewrite delete_id by done. now destruct w.
Qed.

Lemma all_documents_first batch : all_documents batch -> first_is_not_document batch = false.
Proof. now destruct 1 as [|[doc|v] rest]. Qed.


(** X10.  What a write hands to the bulk helper.  For a batch of documents
    on a ready store, [write_documents] and [write_documents_async] call
    the bulk helper exactly once and make no other call; the call carries
    one action per document, in batch order, with the document's identifier
    and its dictionary without the ["sparse_embedding"] key; a warning is
    logged for each document whose sparse embedding is not empty, and for
    no other.  (Into how many HTTP requests the helper cuts the actions is
    not the store's doing.) *)
Lemma write_sends_stripped_documents batch policy w :
  all_documents batch ->
  ready (self w) ->
  let docs := leading_documents batch in
  (let w' := (write_documents batch policy w).2 in
   net w' = (net w ++ [CallBulk SyncClient (_index (self w))
                         (map (action_of (sync_op_type (resolve_policy policy))) docs)
                         RefreshWaitFor])%list
   /\ warnings w' = (warnings w ++ sparse_warnings docs)%list)
  /\ (let w' := (write_documents_async batch policy w).2 in
   net w' = (net w ++ [CallBulk AsyncClient (_index (self w))
                         (map (action_of (async_op_type (resolve_policy policy))) docs)
                         RefreshTrue])%list
   /\ warnings w' = (warnings w ++ sparse_warnings docs)%list)
  /\ (forall op, Forall (fun a => _source a !! "sparse_embedding" = None)
                        (map (action_of op) docs)).
Proof.
  intros Hall Hr docs.
  assert (Hsync : (write_documents batch policy w).2
                  = sent (warned w docs)
                         (CallBulk SyncClient (_index (self w))
                            (map (action_of (sync_op_type (resolve_policy policy))) docs)
                            RefreshWaitFor)).
  { unfold write_documents. rewrite (all_documents_first _ Hall).
    rewrite (bind_Ok _ _ _ _ _ (build_actions_documents _ _ Hall w)).
    rewrite (bind_Ok _ _ _ _ _ (client_ready (warned w (leading_documents batch)) Hr)).
    unfold bind at 1, get_self at 1. unfold bind at 1, request at 1.
    destruct (bulk es _ _ _ _ _) as [e|[written errors]]; [done|]. cbn [fst snd].
    destruct errors as [|e errors]; [done|].
    unfold bind, lift. destruct (sort_errors _ _ _ _) as [e'|[dup other]]; [done|].
    cbn [fst snd ret]. destruct (0 <? _)%nat; [done|]. now destruct (0 <? _)%nat. }
  assert (Hasync : (write_documents_async batch policy w).2
                   = sent (warned w docs)
                          (CallBulk AsyncClient (_index (self w))
                             (map (action_of (async_op_type (resolve_policy policy))) docs)
                             RefreshTrue)).
  { unfold write_documents_async.
    rewrite (bind_Ok _ _ _ _ _ (ensure_initialized_ready w (proj1 Hr))).
    rewrite (all_documents_first _ Hall).
    rewrite (bind_Ok _ _ _ _ _ (build_actions_documents _ _ Hall w)).
    unfold try_except.
    rewrite (bind_Ok _ _ _ _ _ (async_client_ready (warned w (leading_documents batch)) Hr)).
    unfold bind at 1, get_self at 1. unfold bind at 1, request at 1.
    destruct (bulk es _ _ _ _ _) as [e|[written failed]]; [done|]. cbn [fst snd].
    destruct failed as [|e failed]; [done|].
    unfold bind at 1.
    destruct (DuplicatePolicy_eqb _ _); [|done].
    match goal with
    | |- context [raise_first_duplicate ?l ?w0] =>
        assert (Hsame : (raise_first_duplicate l w0).2 = w0);
        [|destruct (raise_first_duplicate l w0) as [[[]|e'|] w1]; cbn in Hsame; now subst w1]
    end.
    generalize (e :: failed). intros l. induction l as [|x l IH]; cbn; [done|].
    now destruct (_ && _). }
  split; [|split].
  - cbv zeta. now rewrite Hsync.
  - cbv zeta. now rewrite Hasync.
  - intros op. apply Forall_forall. intros a Ha. apply list_elem_of_fmap in Ha as (d & -> & _).
    cbn. apply lookup_delete_eq.
Qed.


(** X12.  Under OVERWRITE the actions are ["index"] actions, so the backend
    reports a per-item failure under the ["index"] key; the reconciliation
    loop reads [e["create"]] and [write_documents] raises [KeyError] for the
    key ["create"] instead of a [DocumentStoreError], after the bulk call
    has been sent. *)
Lemma overwrite_failure_raises_key_error documents w actions w0 c w1 written e errors :
  build_actions "index" documents w = (Ok actions, w0) ->
  client w0 = (Ok c, w1) ->
  bulk es (net w1) c (_index (self w1)) actions RefreshWaitFor = inr (written, e :: errors) ->
  be_op e = "index" ->
  write_documents documents OVERWRITE w =
  (Raise (KeyError "create"), sent w1 (CallBulk c (_index (self w1)) actions RefreshWaitFor)).
Proof.
  intros Hb Hc Hbulk Hop.
  rewrite (write_documents_answered _ OVERWRITE _ _ _ _ _ _ _ Hb Hc Hbulk). cbv zeta.
  cbn [resolve_policy DuplicatePolicy_eqb sort_errors]. now rewrite Hop.
Qed.

(** X13.  [write_documents_async] on a ready store, once the batch is
    built: it returns the helper's count only when no per-item failure is
    reported; any failure, whatever the policy (SKIP included), and any
    exception of the bulk call end in a [DocumentStoreError], the latter
    with the text of the exception appended to a fixed prefix.  In every
    case the bulk helper has been called once, and nothing else. *)
Lemma write_documents_async_outcomes documents policy w actions w0 :
  ready (self w) ->
  build_actions (async_op_type (resolve_policy policy)) documents w = (Ok actions, w0) ->
  let request_sent := CallBulk AsyncClient (_index (self w0)) actions RefreshTrue in
  match bulk es (net w0) AsyncClient (_index (self w0)) actions RefreshTrue with
  | inr (success, []) =>
      write_documents_async documents policy w = (Ok success, sent w0 request_sent)
  | inr (_, _ :: _) =>
      exists msg,
        write_documents_async documents policy w
        = (Raise (DocumentStoreError msg), sent w0 request_sent)
  | inl e =>
      write_documents_async documents policy w
      = (Raise (DocumentStoreError (write_wrapped_msg e)), sent w0 request_sent)
  end.
Proof.
  intros Hr Hb request_sent.
  assert (Hr0 : ready (self w0)).
  { destruct (build_actions_frame _ _ _ _ _ Hb) as [Hs _]. now rewrite Hs. }
  assert (Hrun : write_documents_async documents policy w =
                 try_except
                   (res <- request request_sent
                             (fun h => bulk es h AsyncClient (_index (self w0)) actions RefreshTrue);;
                    match snd res with
                    | [] => ret (fst res)
                    | _ =>
                        (if DuplicatePolicy_eqb (resolve_policy policy) FAIL
                         then raise_first_duplicate (snd res)
                         else ret tt);;;
                        raise (DocumentStoreError (write_failed_msg (snd res)))
                    end)
                   (fun e => raise (DocumentStoreError (write_wrapped_msg e))) w0).
  { unfold write_documents_async.
    rewrite (bind_Ok _ _ _ _ _ (ensure_initialized_ready w (proj1 Hr))).
    rewrite (build_actions_first _ _ _ _ _ Hb), (bind_Ok _ _ _ _ _ Hb).
    unfold try_except. now rewrite (bind_Ok _ _ _ _ _ (async_client_ready w0 Hr0)). }
  rewrite Hrun. unfold try_except, bind, request.
  destruct (bulk es _ _ _ _ _) as [e|[success failed]]; [done|]. cbn [fst snd].
  destruct failed as [|e failed]; [done|].
  destruct (DuplicatePolicy_eqb _ _); [|eexists; reflexivity].
  match goal with
  | |- context [raise_first_duplicate ?l ?w2] =>
      assert (Hd : (exists e', raise_first_duplicate l w2 = (Raise e', w2))
                   \/ raise_first_duplicate l w2 = (Ok tt, w2))
  end.
  { generalize (e :: failed). intros l. induction l as [|x l IH]; cbn; [now right|].
    destruct (_ && _); [left; eauto | exact IH]. }
  destruct Hd as [[e' ->]| ->]; eexists; reflexivity.
Qed.

(** ** Facts about filters in a search body *)

Lemma optional_filter_Ok filters w filter w' :
  optional_filter filters w = (Ok filter, w') -> w' = w /\ normalised filters filter.
Proof.
  unfold optional_filter, normalised. destruct filters as [d|]; [|now intros [= <- <-]].
  destruct (truthy (PDict d)); [|now intros [= <- <-]].
  unfold bind, lift. destruct (_normalize_filters d) as [e|clauses]; [discriminate|].
  intros [= <- <-]. split; [done|]. now exists clauses.
Qed.

(** X16.  A filter that is given and has at least one of the two root keys
    is handed to the normaliser as it is.  What the normaliser raises is
    what [filter_documents] raises, on a ready store before any request;
    what it returns becomes the [bool] filter of the search, which runs
    with no size and no knn entry, hence with no target count. *)
Lemma filter_documents_uses_normaliser fuel (filters : pydict) w :
  filters <> ∅ ->
  is_Some (filters !! "operator") \/ is_Some (filters !! "conditions") ->
  ready (self w) ->
  match _normalize_filters filters with
  | inl e =>
      filter_documents fuel (Some filters) w = (Raise e, w)
      /\ filter_documents_async fuel (Some filters) w = (Raise e, w)
  | inr clauses =>
      let kw := {| kw_size := None; kw_query := Some (BoolFilter clauses); kw_knn := None |} in
      filter_documents fuel (Some filters) w = _search_documents fuel kw w
      /\ filter_documents_async fuel (Some filters) w = _search_documents_async fuel kw w
      /\ target_count kw = None
  end.
Proof.
  intros Hne Hkey [Hi Hc].
  assert (Hcheck : is_given (Some filters) && negb (has_key (Some filters) "operator")
                   && negb (has_key (Some filters) "conditions") = false).
  { unfold is_given, has_key, truthy. rewrite (bool_decide_eq_false_2 _ Hne). cbn.
    destruct Hkey as [H|H]; rewrite (bool_decide_eq_true_2 _ H); cbn; [done|].
    now rewrite andb_false_r. }
  assert (Ht : truthy (PDict filters) = true).
  { unfold truthy. now rewrite (bool_decide_eq_false_2 _ Hne). }
  unfold filter_documents, filter_documents_async. rewrite Hcheck.
  rewrite !(bind_Ok _ _ _ _ _ (ensure_initialized_ready w Hi)).
  unfold filter_query, optional_filter. rewrite Ht.
  destruct (_normalize_filters filters) as [e|clauses]; [now split|].
  cbv zeta. now repeat split.
Qed.

(** With no filter, or an empty one, the normaliser plays no part and the
    search runs with no argument at all. *)
Lemma filter_documents_unfiltered fuel filters w :
  is_given filters = false ->
  filter_documents fuel filters w
  = (_ensure_initialized;;; _search_documents fuel no_kwargs) w.
Proof.
  intros Hg. unfold filter_documents. rewrite Hg. cbn [andb].
  unfold filter_query, optional_filter. unfold is_given in Hg.
  destruct filters as [d|]; [rewrite Hg|]; reflexivity.
Qed.

(** ** Facts about the shape of retrieval requests *)

Lemma bm25_body_shape query filters fuzziness top_k w body w' :
  bm25_body query filters fuzziness top_k w = (Ok body, w') ->
  bm25_shape query filters fuzziness top_k body.
Proof.
  unfold bm25_body. intros H. apply bind_Ok_inv in H as (filter & w1 & Hf & H).
  apply optional_filter_Ok in Hf as [_ Hf]. inversion H; subst.
  repeat split. now exists filter.
Qed.

Lemma knn_body_shape query_embedding filters top_k num_candidates w body w' :
  knn_body query_embedding filters top_k num_candidates w = (Ok body, w') ->
  knn_shape query_embedding filters top_k num_candidates body.
Proof.
  unfold knn_body. intros H. apply bind_Ok_inv in H as (filter & w1 & Hf & H).
  apply optional_filter_Ok in Hf as [_ Hf]. inversion H; subst.
  repeat split. now exists filter.
Qed.

Lemma emits_bm25_body P query filters fuzziness top_k :
  emits P (bm25_body query filters fuzziness top_k).
Proof.
  intros w. unfold bm25_body.
  apply emits_at_bind; [apply emits_optional_filter|]. intros; auto with emits.
Qed.

(** X17.  Every search request of a BM25 retrieval, in both variants, asks
    for [size = top_k] and carries one [multi_match] clause with the query
    text, the given fuzziness, type ["most_fields"] and operator ["OR"]; its
    filter is the normalised filter when a filter is given and absent
    otherwise; no request has a knn entry, and nothing but set-up requests
    and such searches is sent. *)
Lemma bm25_requests fuel query filters fuzziness top_k scale_score :
  emits (setup_or_search (bm25_shape query filters fuzziness top_k))
        (_bm25_retrieval fuel query filters fuzziness top_k scale_score)
  /\ emits (setup_or_search (bm25_shape query filters fuzziness top_k))
        (_bm25_retrieval_async fuel query filters fuzziness top_k scale_score).
Proof.
  split; intros w.
  - unfold _bm25_retrieval. destruct (String.eqb query ""); [auto with emits|].
    apply emits_at_bind; [apply emits_bm25_body|]. intros body w1 Hbody.
    apply emits_at_bind; [|intros; auto with emits].
    apply emits_search_loop; [apply emits_client|]. eapply bm25_body_shape; eauto.
  - unfold _bm25_retrieval_async. apply emits_at_bind.
    { eapply emits_at_weaken; [apply setup_call_search | apply emits_ensure_initialized]. }
    intros _ w0 _. destruct (String.eqb query ""); [auto with emits|].
    apply emits_at_bind; [apply emits_bm25_body|]. intros body w1 Hbody.
    apply emits_at_bind; [|intros; auto with emits].
    apply emits_search_loop; [apply emits__async_client|]. eapply bm25_body_shape; eauto.
Qed.

(** X18.  Every search request of a vector retrieval, in both variants,
    has no size and no query, and a knn entry on the field ["embedding"]
    with the query vector, [k = top_k] and the filter normalised when
    given; a candidate pool that is given and not 0 is passed on unchanged
    by both variants. *)
Lemma embedding_requests fuel query_embedding filters top_k (pool : Z) :
  pool <> 0%Z ->
  emits (setup_or_search (knn_shape query_embedding filters top_k pool))
        (_embedding_retrieval fuel query_embedding filters top_k (Some pool))
  /\ emits (setup_or_search (knn_shape query_embedding filters top_k pool))
        (_embedding_retrieval_async fuel query_embedding filters top_k (Some pool)).
Proof.
  intros Hpool. split; intros w.
  - unfold _embedding_retrieval. destruct query_embedding as [|x xs]; [auto with emits|].
    apply emits_at_bind; [apply emits_knn_body|]. intros body w1 Hbody.
    apply emits_search_loop; [apply emits_client|].
    apply knn_body_shape in Hbody. unfold sync_num_candidates in Hbody.
    now rewrite (proj2 (Z.eqb_neq pool 0) Hpool) in Hbody.
  - unfold _embedding_retrieval_async. apply emits_at_bind.
    { eapply emits_at_weaken; [apply setup_call_search | apply emits_ensure_initialized]. }
    intros _ w0 _. destruct query_embedding as [|x xs]; [auto with emits|].
    apply emits_at_bind; [apply emits_knn_body|]. intros body w1 Hbody.
    apply emits_search_loop; [apply emits__async_client|].
    now apply knn_body_shape in Hbody.
Qed.

(** ** More facts about deserialisation *)

(** X19.  When a hit can be turned into the dictionary of a document.
    [_deserialize_data] succeeds exactly when the hit has a dictionary under
    ["_source"] and a ["_score"], and, if it has a ["highlight"], a
    dictionary under the source's ["metadata"].  The result is then the
    source with ["score"] set to the hit's score (an earlier ["score"] of
    the source is overwritten) and, for a highlight, ["highlighted"] set
    inside ["metadata"]; every other field of the source is copied as it
    is. *)
Lemma deserialize_data_exactly hit data :
  _deserialize_data hit = inr data <->
  exists src s,
    hit !! "_source" = Some (PDict src) /\ hit !! "_score" = Some s /\
    match hit !! "highlight" with
    | Some h =>
        exists meta, src !! "metadata" = Some (PDict meta) /\
          data = <["score" := s]> (<["metadata" := PDict (<["highlighted" := h]> meta)]> src)
    | None => data = <["score" := s]> src
    end.
Proof.
  split.
  - intros H. apply deserialize_data_inv in H as (src & s & Hs & Hsc & _ & Hd).
    now exists src, s.
  - intros (src & s & Hs & Hsc & Hd). unfold _deserialize_data, getitem.
    rewrite Hs. cbn. destruct (hit !! "highlight") as [h|].
    + destruct Hd as (meta & Hm & ->). cbn. unfold getitem. rewrite Hm. cbn.
      now rewrite Hsc.
    + subst data. cbn. now rewrite Hsc.
Qed.

(** X25.  Deserialisation copies the source: in the dictionary handed to
    [Document.from_dict], every key other than ["score"] and ["metadata"]
    has exactly the value it has in the hit's source. *)
Lemma deserialize_data_copies hit data src k :
  _deserialize_data hit = inr data ->
  hit !! "_source" = Some (PDict src) ->
  k <> "score" -> k <> "metadata" ->
  data !! k = src !! k.
Proof.
  intros H Hs Hk1 Hk2. apply deserialize_data_inv in H as (src' & s & Hs' & _ & _ & Hd).
  rewrite Hs in Hs'. injection Hs' as <-.
  destruct (hit !! "highlight") as [h|].
  - destruct Hd as (meta & _ & ->). now rewrite !lookup_insert_ne.
  - subst data. now rewrite lookup_insert_ne.
Qed.

(** ** Facts about deletion *)

(** X20.  [delete_documents] on a ready store calls the bulk helper once,
    with one action per identifier, in order, each with the verb
    ["delete"], that identifier and no source, and asks it to wait for the
    refresh; whatever the helper answers, the call returns: per-item
    failures, such as an identifier that does not exist, are not raised. *)
Lemma delete_documents_ignores_failures document_ids w :
  ready (self w) ->
  exists actions,
    map _op_type actions = map (fun _ => "delete") document_ids
    /\ map _id actions = document_ids
    /\ Forall (fun a => _source a = ∅) actions
    /\ forall deleted errors,
         bulk es (net w) SyncClient (_index (self w)) actions RefreshWaitFor
           = inr (deleted, errors) ->
         delete_documents document_ids w
         = (Ok tt, sent w (CallBulk SyncClient (_index (self w)) actions RefreshWaitFor)).
Proof.
  intros Hr. exists (map delete_action document_ids).
  split; [now rewrite map_map|]. split; [rewrite map_map; apply map_id|].
  split; [apply Forall_forall; intros a Ha; now apply list_elem_of_fmap in Ha as (i & -> & _)|].
  intros deleted errors Hbulk. unfold delete_documents.
  rewrite (bind_Ok _ _ _ _ _ (client_ready w Hr)).
  unfold bind, get_self, request. now rewrite Hbulk.
Qed.

(** X21.  [delete_documents_async] on a ready store sends the same actions
    with a forced refresh and succeeds only when the backend reports no
    per-item failure; the exception the bulk helper raises for failures,
    like any exception of the call, comes out as a [DocumentStoreError]
    whose text is a fixed prefix followed by the text of the cause. *)
Lemma delete_documents_async_outcomes document_ids w :
  ready (self w) ->
  let request_sent := CallBulk AsyncClient (_index (self w))
                        (map delete_action document_ids) RefreshTrue in
  delete_documents_async document_ids w =
  (match bulk es (net w) AsyncClient (_index (self w))
           (map delete_action document_ids) RefreshTrue with
   | inr (_, []) => Ok tt
   | inr (_, errors) =>
       Raise (DocumentStoreError (delete_wrapped_msg (bulk_index_error errors)))
   | inl e => Raise (DocumentStoreError (delete_wrapped_msg e))
   end, sent w request_sent).
Proof.
  intros Hr request_sent. unfold delete_documents_async.
  rewrite (bind_Ok _ _ _ _ _ (ensure_initialized_ready w (proj1 Hr))).
  unfold try_except. rewrite (bind_Ok _ _ _ _ _ (async_client_ready w Hr)).
  unfold bind, get_self, request.
  destruct (bulk es _ _ _ _ _) as [e|[deleted errors]]; [done|]. cbn [fst snd].
  now destruct errors.
Qed.

(** ** Facts about failures of a search *)

(** X14.  An exception of the backend's search is not wrapped: on a ready
    store, when the first page request raises [e], both search variants
    raise [e] itself, with that one request sent. *)
Lemma search_errors_pass_through fuel kw w e :
  ready (self w) ->
  (search es (net w) SyncClient (_index (self w)) 0 kw = inl e ->
   _search_documents (S fuel) kw w
   = (Raise e, sent w (CallSearch SyncClient (_index (self w)) 0 kw)))
  /\ (search es (net w) AsyncClient (_index (self w)) 0 kw = inl e ->
   _search_documents_async (S fuel) kw w
   = (Raise e, sent w (CallSearch AsyncClient (_index (self w)) 0 kw))).
Proof.
  intros Hr. split; intros Hs.
  - unfold _search_documents. apply search_loop_fetch_raises.
    unfold search_page. rewrite (bind_Ok _ _ _ _ _ (client_ready w Hr)).
    unfold bind, get_self, request. now rewrite Hs.
  - unfold _search_documents_async. apply search_loop_fetch_raises.
    unfold search_page, _async_client, bind, get_self, request.
    rewrite (proj2 Hr). cbn. now rewrite Hs.
Qed.

End Store.

(** ** Pagination against a backend that serves pages *)

Lemma page_count_spec total page :
  0 < page ->
  1 <= page_count total page /\ total <= page_count total page * page /\
  (page_count total page = 1 \/ (page_count total page - 1) * page < total).
Proof.
  intros Hp. unfold page_count.
  pose proof (Nat.Div0.mul_div_le (total + page - 1) page) as Hlo.
  pose proof (Nat.mul_succ_div_gt (total + page - 1) page ltac:(lia)) as Hhi.
  set (q := (total + page - 1) / page) in *.
  destruct (Nat.max_spec 1 q) as [[Hlt ->]|[Hle ->]]; nia.
Qed.

Lemma page_count_last total page j :
  0 < page -> (j = 0 \/ j * page < total) -> total <= (j + 1) * page ->
  page_count total page = j + 1.
Proof. intros Hp Hj Hn. destruct (page_count_spec total page Hp) as (H1 & H2 & H3). nia. Qed.

Lemma page_count_more total page j :
  0 < page -> j * page < total -> j + 1 <= page_count total page.
Proof. intros Hp Hj. destruct (page_count_spec total page Hp) as (H1 & H2 & H3). nia. Qed.

Lemma search_offsets_app l1 l2 :
  search_offsets (l1 ++ l2) = (search_offsets l1 ++ search_offsets l2)%list.
Proof. apply omap_app. Qed.

Section Paging.

Variable Document_from_dict : pydict -> exn + Document.
Variable hits : list pydict.
Variable page : nat.
Variable docs : list Document.
Hypothesis page_positive : 0 < page.
Hypothesis hits_deserialise :
  map_exn (_deserialize_document Document_from_dict) hits = inr docs.

Lemma paging_docs_length : length docs = length hits.
Proof.
  apply map_exn_Forall2 in hits_deserialise. symmetry. eapply Forall2_length; eauto.
Qed.

Lemma paging_slice j :
  map_exn (_deserialize_document Document_from_dict) (take page (drop j hits))
  = inr (take page (drop j docs)).
Proof.
  apply map_exn_Forall2. apply Forall2_take, Forall2_drop.
  now apply map_exn_Forall2.
Qed.

Lemma paging_client w :
  coherent (self w) ->
  exists w1, client (paging_backend hits page) w = (Ok SyncClient, w1) /\
             ready (self w1) /\ search_offsets (net w1) = search_offsets (net w).
Proof.
  intros Hco. destruct (_initialized (self w)) eqn:Hi.
  - assert (Hr : ready (self w)) by (split; auto).
    exists w. now rewrite client_ready.
  - eexists. unfold client, _ensure_initialized, bind, get_self. rewrite Hi. cbn.
    split; [reflexivity|]. split; [done|].
    cbn [net]. rewrite !search_offsets_app. cbn. now rewrite !app_nil_r.
Qed.

Lemma paging_search_page kw from_ w :
  coherent (self w) ->
  exists w1,
    search_page (paging_backend hits page) (client (paging_backend hits page)) from_ kw w
    = (Ok (take page (drop from_ hits), Z.of_nat (length hits)), w1) /\
    ready (self w1) /\
    search_offsets (net w1) = (search_offsets (net w) ++ [from_])%list.
Proof.
  intros Hco. destruct (paging_client w Hco) as (w1 & Hc & Hr & Hoff).
  eexists. unfold search_page. rewrite (bind_Ok _ _ _ _ _ Hc).
  unfold bind, get_self, request. cbn. split; [reflexivity|]. split; [done|].
  cbn [net]. now rewrite search_offsets_app, Hoff.
Qed.

Lemma ready_coherent s : ready s -> coherent s.
Proof. now intros [_ H] _. Qed.

Lemma paging_backend_progressing : progressing (paging_backend hits page) (Z.of_nat (length hits)).
Proof.
  intros h c index from_ kw page_hits reported [= <- <-]. split; [done|].
  intros Hlt Hnil. apply (f_equal length) in Hnil.
  rewrite length_take, length_drop in Hnil. cbn in Hnil. lia.
Qed.

(** From the [j]-th page on, the loop fetches the remaining pages and
    returns every document. *)
Lemma paging_loop kw fuel :
  forall j w,
    coherent (self w) ->
    j = 0 \/ j * page < length hits ->
    page_count (length hits) page <= j + fuel ->
    exists w',
      search_loop Document_from_dict (paging_backend hits page)
                  (client (paging_backend hits page)) fuel kw None
                  (take (j * page) docs) (j * page) w = (Ok docs, w') /\
      search_offsets (net w') =
      (search_offsets (net w)
       ++ map (fun i => i * page) (seq j (page_count (length hits) page - j)))%list.
Proof.
  induction fuel as [|fuel IH]; intros j w Hco Hj Hfuel.
  { exfalso. destruct (page_count_spec (length hits) page page_positive) as (H1 & _ & _).
    destruct Hj as [->|Hj]; [lia|].
    pose proof (page_count_more _ _ _ page_positive Hj). lia. }
  destruct (paging_search_page kw (j * page) w Hco) as (w1 & Hpage & Hr & Hoff).
  rewrite (search_loop_step _ _ _ _ _ _ _ _ _ _ _ _ _ Hpage (paging_slice _)).
  rewrite take_take_drop. cbn [orb].
  rewrite length_take, paging_docs_length.
  destruct (Z.leb_spec (Z.of_nat (length hits))
              (Z.of_nat (Nat.min (j * page + page) (length hits)))) as [Hstop|Hgo].
  - assert (Hlast : length hits <= (j + 1) * page) by lia.
    exists w1. rewrite take_ge by (rewrite paging_docs_length; lia).
    split; [done|]. rewrite Hoff.
    rewrite (page_count_last _ _ _ page_positive Hj Hlast).
    replace (j + 1 - j) with 1 by lia. reflexivity.
  - assert (Hmore : (j + 1) * page < length hits) by lia.
    replace (Nat.min (j * page + page) (length hits)) with ((j + 1) * page) by lia.
    replace (j * page + page) with ((j + 1) * page) by lia.
    destruct (IH (j + 1) w1 (ready_coherent _ Hr) (or_intror Hmore) ltac:(lia))
      as (w' & Hrun & Hoff').
    exists w'. split; [done|]. rewrite Hoff', Hoff, <- app_assoc. f_equal.
    pose proof (page_count_more _ _ _ page_positive Hmore).
    replace (page_count (length hits) page - j)
      with (S (page_count (length hits) page - (j + 1))) by lia.
    cbn [seq map]. now replace (S j) with (j + 1) by lia.
Qed.

(** Whatever the target count, the loop stops within the remaining pages
    and returns a prefix of the documents. *)
Lemma paging_loop_any kw top_k fuel :
  forall j w,
    coherent (self w) ->
    j = 0 \/ j * page < length hits ->
    page_count (length hits) page <= j + fuel ->
    exists m w',
      search_loop Document_from_dict (paging_backend hits page)
                  (client (paging_backend hits page)) fuel kw top_k
                  (take (j * page) docs) (j * page) w = (Ok (take m docs), w').
Proof.
  induction fuel as [|fuel IH]; intros j w Hco Hj Hfuel.
  { exfalso. destruct (page_count_spec (length hits) page page_positive) as (H1 & _ & _).
    destruct Hj as [->|Hj]; [lia|].
    pose proof (page_count_more _ _ _ page_positive Hj). lia. }
  destruct (paging_search_page kw (j * page) w Hco) as (w1 & Hpage & Hr & Hoff).
  rewrite (search_loop_step _ _ _ _ _ _ _ _ _ _ _ _ _ Hpage (paging_slice _)).
  rewrite take_take_drop, length_take, paging_docs_length.
  destruct (_ || _) eqn:Hstop; [now exists (j * page + page), w1|].
  apply orb_false_elim in Hstop as [_ Hgo]. apply Z.leb_gt in Hgo.
  assert (Hmore : (j + 1) * page < length hits) by lia.
  replace (Nat.min (j * page + page) (length hits)) with ((j + 1) * page) by lia.
  replace (j * page + page) with ((j + 1) * page) by lia.
  apply (IH (j + 1) w1 (ready_coherent _ Hr) (or_intror Hmore)). lia.
Qed.

(** X3.  Whatever the target count, a search against a backend that serves
    pages of a positive size terminates within [page_count] fetches and
    returns a prefix of the documents, in backend order. *)
Lemma paging_search_terminates kw fuel w :
  coherent (self w) ->
  page_count (length hits) page <= fuel ->
  exists m w',
    _search_documents Document_from_dict (paging_backend hits page) fuel kw w
    = (Ok (take m docs), w').
Proof.
  intros Hco Hfuel. unfold _search_documents.
  apply (paging_loop_any kw (target_count kw) fuel 0 w Hco (or_introl eq_refl)). lia.
Qed.

(** A search with no target count terminates against such a backend: it
    fetches [page_count] pages at the offsets [0, page, 2 * page, ...] and
    returns all documents in the order of the backend. *)
Lemma paging_search_all kw fuel w :
  target_count kw = None ->
  coherent (self w) ->
  page_count (length hits) page <= fuel ->
  exists w',
    _search_documents Document_from_dict (paging_backend hits page) fuel kw w = (Ok docs, w') /\
    search_offsets (net w') = (search_offsets (net w) ++ page_offsets (length hits) page)%list.
Proof.
  intros Hk Hco Hfuel. unfold _search_documents. rewrite Hk.
  destruct (paging_loop kw fuel 0 w Hco (or_introl eq_refl) ltac:(lia)) as (w' & Hrun & Hoff).
  exists w'. split; [exact Hrun|]. rewrite Hoff. unfold page_offsets.
  now rewrite Nat.sub_0_r.
Qed.

End Paging.

(** X2.  A backend that answers with empty pages below its total never lets
    a search without target count finish: the offset stays where it is, and
    the loop runs out of any fuel. *)
Lemma search_stalls_on_empty_pages Document_from_dict hit hits kw fuel :
  target_count kw = None ->
  forall w, coherent (self w) ->
    (_search_documents Document_from_dict (paging_backend (hit :: hits) 0) fuel kw w).1
    = OutOfFuel.
Proof.
  intros Hk. unfold _search_documents. rewrite Hk.
  induction fuel as [|fuel IH]; intros w Hco; [reflexivity|].
  destruct (paging_search_page (hit :: hits) 0 kw 0 w Hco) as (w1 & Hpage & Hr & _).
  rewrite (search_loop_step _ _ _ _ _ _ _ _ _ _ _ _ _ Hpage eq_refl).
  cbn -[search_loop]. apply IH. now apply ready_coherent.
Qed.

(** ** Facts about double-precision arithmetic *)

Lemma bpow_pos e : (0 < bpow e)%R.
Proof. apply powerRZ_lt. lra. Qed.

Lemma bpow_add a b : bpow (a + b) = (bpow a * bpow b)%R.
Proof. apply powerRZ_add. lra. Qed.

Lemma bpow_0 : bpow 0 = 1%R.
Proof. reflexivity. Qed.

Lemma bpow_1 : bpow 1 = 2%R.
Proof. exact (powerRZ_1 2). Qed.

Lemma bpow_succ e : bpow (e + 1) = (2 * bpow e)%R.
Proof. rewrite bpow_add, bpow_1. lra. Qed.

Lemma bpow_nonneg_ge1 n : (0 <= n)%Z -> (1 <= bpow n)%R.
Proof.
  intros Hn. pattern n. apply natlike_ind; [rewrite bpow_0; lra | | exact Hn].
  intros x Hx IH. unfold Z.succ. rewrite bpow_succ. lra.
Qed.

Lemma bpow_le a b : (a <= b)%Z -> (bpow a <= bpow b)%R.
Proof.
  intros H. replace b with (a + (b - a))%Z by lia. rewrite bpow_add.
  pose proof (bpow_pos a). pose proof (bpow_nonneg_ge1 (b - a) ltac:(lia)). nra.
Qed.

Lemma bpow_lt a b : (a < b)%Z -> (bpow a < bpow b)%R.
Proof.
  intros H. replace b with ((a + 1) + (b - a - 1))%Z by lia. rewrite bpow_add, bpow_succ.
  pose proof (bpow_pos a). pose proof (bpow_nonneg_ge1 (b - a - 1) ltac:(lia)). nra.
Qed.

Lemma bpow_IZR n : (0 <= n)%Z -> bpow n = IZR (2 ^ n).
Proof.
  intros Hn. pattern n. apply natlike_ind; [reflexivity | | exact Hn].
  intros x Hx IH. unfold Z.succ. rewrite bpow_succ, IH, Z.pow_add_r, mult_IZR by lia.
  cbn. lra.
Qed.

(** *** Comparison of reals *)

Lemma Rcompare_Lt_intro x y : (x < y)%R -> Rcompare x y = Lt.
Proof. intros H. destruct (Rcompare_spec x y); [lra | done | lra]. Qed.

Lemma Rcompare_Gt_intro x y : (y < x)%R -> Rcompare x y = Gt.
Proof. intros H. destruct (Rcompare_spec x y); [lra | lra | done]. Qed.

Lemma Rcompare_Eq_intro x y : x = y -> Rcompare x y = Eq.
Proof. intros H. destruct (Rcompare_spec x y); [done | lra | lra]. Qed.

Lemma Rcompare_Lt_inv x y : Rcompare x y = Lt -> (x < y)%R.
Proof. destruct (Rcompare_spec x y); intros; [discriminate | done | discriminate]. Qed.

Lemma Rcompare_Gt_inv x y : Rcompare x y = Gt -> (y < x)%R.
Proof. destruct (Rcompare_spec x y); intros; [discriminate | discriminate | done]. Qed.

Lemma Rcompare_Eq_inv x y : Rcompare x y = Eq -> x = y.
Proof. destruct (Rcompare_spec x y); intros; [done | discriminate | discriminate]. Qed.

(** *** Cells *)

Lemma inbetween_bounds m e l v :
  inbetween m e l v -> (IZR m * bpow e <= v < (IZR m + 1) * bpow e)%R.
Proof.
  pose proof (bpow_pos e). destruct l as [|c]; cbn; [intros ->; lra | intros [? _]; lra].
Qed.

Lemma loc_of_record_of_loc m l : loc_of_shr_record (shr_record_of_loc m l) = l.
Proof. now destruct l as [|[]]. Qed.

Lemma shr_m_record_of_loc m l : shr_m (shr_record_of_loc m l) = m.
Proof. now destruct l as [|[]]. Qed.

Ltac read_Rcompare :=
  repeat match goal with
  | H : Rcompare _ _ = Lt |- _ => apply Rcompare_Lt_inv in H
  | H : Rcompare _ _ = Gt |- _ => apply Rcompare_Gt_inv in H
  | H : Rcompare _ _ = Eq |- _ => apply Rcompare_Eq_inv in H
  end.

Ltac show_Rcompare :=
  first [ apply Rcompare_Lt_intro; lra
        | apply Rcompare_Gt_intro; lra
        | apply Rcompare_Eq_intro; lra ].

(** One shift to the right keeps the real in the cell of the record. *)
Lemma shr_1_inbetween mrs e v :
  (0 <= shr_m mrs)%Z ->
  inbetween (shr_m mrs) e (loc_of_shr_record mrs) v ->
  (0 <= shr_m (shr_1 mrs))%Z
  /\ inbetween (shr_m (shr_1 mrs)) (e + 1) (loc_of_shr_record (shr_1 mrs)) v.
Proof.
  destruct mrs as [m r s]. cbn [shr_m]. intros Hm H.
  pose proof (bpow_pos e) as Hb. pose proof (bpow_succ e) as Hs.
  assert (Hp : forall q, IZR (Z.pos q~1) = (2 * IZR (Z.pos q) + 1)%R
                         /\ IZR (Z.pos q~0) = (2 * IZR (Z.pos q))%R).
  { intros q. rewrite (Pos2Z.inj_xI q), (Pos2Z.inj_xO q), plus_IZR, !mult_IZR. lra. }
  destruct m as [|[q|q|]|p]; [| | | |lia];
    cbn [shr_1 shr_m loc_of_shr_record orb]; (split; [lia|]);
    try destruct (Hp q) as [HI HO];
    destruct r, s; cbn [loc_of_shr_record inbetween orb] in *;
    rewrite Hs; try rewrite HI in H; try rewrite HO in H;
    try (match type of H with _ /\ _ => destruct H as [H Hc] end); read_Rcompare;
    first [ lra | split; [lra | show_Rcompare] ].
Qed.

Lemma iter_pos_nat {A} (f : A -> A) p x :
  SpecFloat.iter_pos f p x = Nat.iter (Pos.to_nat p) f x.
Proof.
  revert x. induction p as [p IH|p IH|]; intros x; cbn [SpecFloat.iter_pos]; [| |reflexivity].
  - rewrite !IH, Pos2Nat.inj_xI.
    replace (S (2 * Pos.to_nat p)) with (S (Pos.to_nat p + Pos.to_nat p)) by lia.
    now rewrite Nat.iter_succ_r, Nat.iter_add.
  - rewrite !IH, Pos2Nat.inj_xO.
    replace (2 * Pos.to_nat p)%nat with (Pos.to_nat p + Pos.to_nat p)%nat by lia.
    now rewrite Nat.iter_add.
Qed.

Lemma iter_shr_1_inbetween n mrs e v :
  (0 <= shr_m mrs)%Z ->
  inbetween (shr_m mrs) e (loc_of_shr_record mrs) v ->
  (0 <= shr_m (Nat.iter n shr_1 mrs))%Z
  /\ inbetween (shr_m (Nat.iter n shr_1 mrs)) (e + Z.of_nat n)
               (loc_of_shr_record (Nat.iter n shr_1 mrs)) v.
Proof.
  intros Hm H. induction n as [|n [IHm IH]].
  - cbn [Nat.iter]. now rewrite Z.add_0_r.
  - cbn [Nat.iter]. replace (e + Z.of_nat (S n))%Z with (e + Z.of_nat n + 1)%Z by lia.
    now apply shr_1_inbetween.
Qed.

(** Shifting a record to the right keeps the real in its cell. *)
Lemma shr_inbetween mrs e n v :
  (0 <= shr_m mrs)%Z ->
  inbetween (shr_m mrs) e (loc_of_shr_record mrs) v ->
  (0 <= shr_m (shr mrs e n).1)%Z
  /\ inbetween (shr_m (shr mrs e n).1) (shr mrs e n).2
               (loc_of_shr_record (shr mrs e n).1) v
  /\ (shr mrs e n).2 = (e + Z.max n 0)%Z.
Proof.
  intros Hm H. destruct n as [|p|p]; cbn [shr fst snd].
  - rewrite Z.add_0_r. auto.
  - rewrite iter_pos_nat.
    destruct (iter_shr_1_inbetween (Pos.to_nat p) mrs e v Hm H) as [H1 H2].
    rewrite positive_nat_Z in H2. split; [done|]. split; [done|]. lia.
  - split; [done|]. split; [done|]. lia.
Qed.

(** *** Digits *)

Lemma digits2_pos_size p : digits2_pos p = Pos.size p.
Proof. induction p as [p IH|p IH|]; cbn; now rewrite ?IH. Qed.

Lemma Zdigits2_bounds p :
  (Z.pos p < 2 ^ Zdigits2 (Z.pos p) <= 2 * Z.pos p)%Z /\ (1 <= Zdigits2 (Z.pos p))%Z.
Proof.
  cbn [Zdigits2]. rewrite digits2_pos_size.
  pose proof (Pos.size_gt p) as Hgt. pose proof (Pos.size_le p) as Hle.
  apply Pos2Z.pos_lt_pos in Hgt. apply Pos2Z.pos_le_pos in Hle.
  rewrite Pos2Z.inj_pow in Hgt, Hle. rewrite (Pos2Z.inj_xO p) in Hle. lia.
Qed.

Lemma Zdigits2_bpow p :
  (bpow (Zdigits2 (Z.pos p) - 1) <= IZR (Z.pos p) < bpow (Zdigits2 (Z.pos p)))%R.
Proof.
  destruct (Zdigits2_bounds p) as [[Hlt Hle] Hd].
  set (d := Zdigits2 (Z.pos p)) in *.
  assert (Hb : bpow d = IZR (2 ^ d)) by (apply bpow_IZR; lia).
  assert (Hs : bpow d = (2 * bpow (d - 1))%R).
  { replace d with (d - 1 + 1)%Z at 1 by lia. apply bpow_succ. }
  apply IZR_lt in Hlt. apply IZR_le in Hle. rewrite mult_IZR in Hle. lra.
Qed.

(** *** The truncation of a real to 53 bits *)

Lemma fexp_eq k : fexp prec emax k = Z.max (k - 53) (-1074).
Proof. reflexivity. Qed.

Lemma IZR_bpow_lt z k e : (IZR z * bpow e < bpow (k + e))%R -> (0 <= k)%Z -> (z < 2 ^ k)%Z.
Proof.
  intros H Hk. rewrite bpow_add, (bpow_IZR k Hk) in H. pose proof (bpow_pos e).
  apply lt_IZR. nra.
Qed.

Lemma IZR_bpow_ge z k e : (bpow (k + e) < (IZR z + 1) * bpow e)%R -> (0 <= k)%Z -> (2 ^ k <= z)%Z.
Proof.
  intros H Hk. rewrite bpow_add, (bpow_IZR k Hk) in H. pose proof (bpow_pos e).
  assert (IZR (2 ^ k) < IZR z + 1)%R by nra.
  rewrite <- plus_IZR in H1. apply lt_IZR in H1. lia.
Qed.

(** The magnitude of a real in a cell, from the digits of the cell. *)
Lemma inbetween_magnitude m e l v :
  (0 <= m)%Z -> inbetween m e l v ->
  (v < bpow (Zdigits2 m + e))%R
  /\ ((0 < m)%Z -> (bpow (Zdigits2 m - 1 + e) <= v)%R).
Proof.
  intros Hm H. apply inbetween_bounds in H. pose proof (bpow_pos e) as Hb.
  destruct m as [|p|p]; [| |lia].
  - cbn [Zdigits2]. rewrite Z.add_0_l. split; [lra | lia].
  - pose proof (Zdigits2_bpow p) as [Hlo Hhi]. destruct (Zdigits2_bounds p) as [[Hlt _] Hd].
    rewrite !bpow_add. split.
    + assert (IZR (Z.pos p) + 1 <= bpow (Zdigits2 (Z.pos p)))%R.
      { rewrite bpow_IZR by lia. rewrite <- plus_IZR. apply IZR_le. lia. }
      nra.
    + intros _. nra.
Qed.

Lemma trunc_canon m e l v :
  (0 <= m)%Z -> inbetween m e l v ->
  (e <= fexp prec emax (Zdigits2 m + e))%Z ->
  canon (shr_m (shr_fexp prec emax m e l).1) (shr_fexp prec emax m e l).2
  /\ inbetween (shr_m (shr_fexp prec emax m e l).1) (shr_fexp prec emax m e l).2
               (loc_of_shr_record (shr_fexp prec emax m e l).1) v.
Proof.
  intros Hm H Hpre. unfold shr_fexp.
  destruct (shr_inbetween (shr_record_of_loc m l) e
              (fexp prec emax (Zdigits2 m + e) - e) v) as (Hz & Hin & He).
  { now rewrite shr_m_record_of_loc. }
  { now rewrite shr_m_record_of_loc, loc_of_record_of_loc. }
  split; [|exact Hin].
  set (z := shr_m _) in *. set (e' := snd _) in *.
  assert (He' : e' = fexp prec emax (Zdigits2 m + e)) by lia. clear He.
  rewrite fexp_eq in He', Hpre.
  destruct (inbetween_magnitude m e l v Hm H) as [Hup Hlo].
  apply inbetween_bounds in Hin. pose proof (bpow_pos e') as Hb.
  split; [split; [done|]|split; [lia|]].
  - apply (IZR_bpow_lt z 53 e'); [|lia].
    pose proof (bpow_le (Zdigits2 m + e) (53 + e') ltac:(lia)). lra.
  - destruct (decide (e' = (-1074)%Z)) as [|Hne]; [now left|right].
    assert (0 < m)%Z as Hpos.
    { destruct m as [|p|p]; [|lia|lia]. cbn [Zdigits2] in *. lia. }
    apply (IZR_bpow_ge z 52 e'); [|lia].
    replace (52 + e')%Z with (Zdigits2 m - 1 + e)%Z by lia. specialize (Hlo Hpos). lra.
Qed.

(** *** Values *)

Lemma rne_bounds z l : (z <= round_nearest_even z l <= z + 1)%Z.
Proof. destruct l as [|[]]; cbn; try lia. destruct (Z.even z); lia. Qed.

Lemma Zdigits2_53 p : (2 ^ 52 <= Z.pos p < 2 ^ 53)%Z -> Zdigits2 (Z.pos p) = 53%Z.
Proof.
  intros [Hlo Hhi]. destruct (Zdigits2_bounds p) as [[Hlt Hle] Hd].
  set (d := Zdigits2 (Z.pos p)) in *.
  destruct (Z_lt_le_dec d 53) as [H|H].
  - pose proof (Z.pow_le_mono_r 2 d 52 ltac:(lia) ltac:(lia)). lia.
  - destruct (Z_lt_le_dec 53 d) as [H'|H']; [|lia].
    pose proof (Z.pow_le_mono_r 2 54 d ltac:(lia) ltac:(lia)). lia.
Qed.

Lemma Zdigits2_le_53 p : (Z.pos p < 2 ^ 53)%Z -> (Zdigits2 (Z.pos p) <= 53)%Z.
Proof.
  intros Hhi. destruct (Zdigits2_bounds p) as [[Hlt Hle] Hd].
  set (d := Zdigits2 (Z.pos p)) in *.
  destruct (Z_lt_le_dec 53 d) as [H'|H']; [|lia].
  pose proof (Z.pow_le_mono_r 2 54 d ltac:(lia) ltac:(lia)). lia.
Qed.

Lemma binary_round_aux_finish m e l :
  binary_round_aux prec emax false m e l
  = finish (round_nearest_even (shr_m (shr_fexp prec emax m e l).1)
                               (loc_of_shr_record (shr_fexp prec emax m e l).1))
           (shr_fexp prec emax m e l).2.
Proof.
  unfold binary_round_aux, finish. now destruct (shr_fexp prec emax m e l) as [mrs e'].
Qed.

Lemma finish_no_shift p e :
  (Z.max (Zdigits2 (Z.pos p) + e - 53) (-1074) - e = 0)%Z ->
  finish (Z.pos p) e
  = if (e <=? 971)%Z then S754_finite false p e else S754_infinity false.
Proof.
  intros H. unfold finish, shr_fexp. rewrite fexp_eq, H. reflexivity.
Qed.

Lemma finish_carry e :
  (-1074 <= e)%Z ->
  finish (2 ^ 53) e
  = if (e + 1 <=? 971)%Z then S754_finite false (2 ^ 52) (e + 1) else S754_infinity false.
Proof.
  intros H. unfold finish, shr_fexp. rewrite fexp_eq.
  change (Zdigits2 (2 ^ 53)) with 54%Z.
  replace (Z.max (54 + e - 53) (-1074) - e)%Z with 1%Z by lia. reflexivity.
Qed.

(** What [binary_round_aux] makes of a truncation: the mantissa rounded to
    the nearest, ties to even, renormalised when it reaches [2^53], and
    infinity when the exponent leaves the range. *)
Lemma round_canon z e l :
  canon z e ->
  let m' := round_nearest_even z l in
  nonneg_float (finish m' e)
  /\ SpecFloat.valid_binary prec emax (finish m' e) = true
  /\ val (finish m' e) = Rmin (IZR m' * bpow e) (bpow 1024).
Proof.
  intros (Hz & He & Hn) m'. pose proof (rne_bounds z l) as Hm'. fold m' in Hm'.
  pose proof (bpow_pos e) as Hb.
  destruct m' as [|p|p] eqn:Ep; [| |lia].
  - assert (z = 0%Z) by lia. assert (e = (-1074)%Z) as -> by lia.
    change (finish 0 (-1074)) with (S754_zero false). cbn [nonneg_float val SpecFloat.valid_binary].
    rewrite Rmult_0_l, Rmin_left; [done|]. pose proof (bpow_pos 1024). lra.
  - destruct (Z_lt_le_dec (Z.pos p) (2 ^ 53)) as [Hlt|Hge].
    + assert (Hn0 : (Z.max (Zdigits2 (Z.pos p) + e - 53) (-1074) - e = 0)%Z).
      { pose proof (Zdigits2_le_53 p Hlt). destruct Hn as [->|Hn]; [lia|].
        rewrite (Zdigits2_53 p) by lia. lia. }
      rewrite (finish_no_shift p e Hn0).
      destruct (Z.leb_spec e 971) as [Hle|Hgt]; cbn [nonneg_float val SpecFloat.valid_binary].
      * split; [done|]. split.
        { unfold SpecFloat.bounded, canonical_mantissa. rewrite fexp_eq.
          change (Z.pos (digits2_pos p)) with (Zdigits2 (Z.pos p)).
          apply andb_true_intro. split; [apply Z.eqb_eq; lia | apply Z.leb_le; change (emax - prec)%Z with 971%Z; lia]. }
        rewrite Rmin_left; [done|].
        apply IZR_lt in Hlt. rewrite <- (bpow_IZR 53) in Hlt by lia.
        pose proof (bpow_le (53 + e) 1024 ltac:(lia)) as H. rewrite bpow_add in H. nra.
      * split; [done|]. split; [done|]. rewrite Rmin_right; [done|].
        assert (2 ^ 52 <= Z.pos p)%Z as Hp by lia.
        apply IZR_le in Hp. rewrite <- (bpow_IZR 52) in Hp by lia.
        pose proof (bpow_le 1024 (52 + e) ltac:(lia)) as H. rewrite bpow_add in H.
        pose proof (bpow_pos 52). nra.
    + assert (Z.pos p = 2 ^ 53)%Z as Hp by lia. rewrite Hp.
      rewrite (finish_carry e He). rewrite <- (bpow_IZR 53) by lia. rewrite <- bpow_add.
      destruct (Z.leb_spec (e + 1) 971) as [Hle|Hgt]; cbn [nonneg_float val SpecFloat.valid_binary].
      * split; [done|]. split.
        { unfold SpecFloat.bounded, canonical_mantissa. rewrite fexp_eq.
          apply andb_true_intro. split; [apply Z.eqb_eq; change (Z.pos (digits2_pos (2 ^ 52))) with 53%Z; lia | apply Z.leb_le; change (emax - prec)%Z with 971%Z; lia]. }
        change (IZR (Z.pos (2 ^ 52))) with (IZR (2 ^ 52)). rewrite <- (bpow_IZR 52) by lia.
        rewrite <- !bpow_add. replace (52 + (e + 1))%Z with (53 + e)%Z by lia.
        rewrite Rmin_left; [done|]. apply bpow_le. lia.
      * split; [done|]. split; [done|].
        rewrite Rmin_right; [done|]. apply bpow_le. lia.
Qed.

(** Within one cell the rounded mantissa follows the real. *)
Lemma rne_mono_cell z e l1 l2 v1 v2 :
  inbetween z e l1 v1 -> inbetween z e l2 v2 -> (v1 <= v2)%R ->
  (round_nearest_even z l1 <= round_nearest_even z l2)%Z.
Proof.
  intros H1 H2 Hv. pose proof (bpow_pos e) as Hb.
  destruct l1 as [|[]], l2 as [|[]]; cbn [inbetween round_nearest_even] in *;
    repeat match goal with H : _ /\ _ |- _ => destruct H end; read_Rcompare;
    try (destruct (Z.even z)); try lia; exfalso; lra.
Qed.

Lemma rounded_mono v1 v2 r1 r2 :
  rounded v1 r1 -> rounded v2 r2 -> (v1 <= v2)%R -> (r1 <= r2)%R.
Proof.
  intros (z1 & e1 & l1 & (Hz1 & He1 & Hn1) & I1 & ->)
         (z2 & e2 & l2 & (Hz2 & He2 & Hn2) & I2 & ->) Hv.
  pose proof (inbetween_bounds _ _ _ _ I1) as B1.
  pose proof (inbetween_bounds _ _ _ _ I2) as B2.
  pose proof (rne_bounds z1 l1) as R1. pose proof (rne_bounds z2 l2) as R2.
  pose proof (bpow_pos e1) as Hb1. pose proof (bpow_pos e2) as Hb2.
  set (m1 := round_nearest_even z1 l1) in *. set (m2 := round_nearest_even z2 l2) in *.
  assert (IZR m1 <= bpow 53)%R as Hm1.
  { rewrite bpow_IZR by lia. apply IZR_le. lia. }
  assert (IZR z2 <= IZR m2)%R as Hm2 by (apply IZR_le; lia).
  assert (IZR z2 + 1 <= bpow 53)%R as Hz2'.
  { rewrite bpow_IZR by lia. rewrite <- plus_IZR. apply IZR_le. lia. }
  destruct (Z.lt_trichotomy e1 e2) as [Hlt|[Heq|Hgt]].
  - assert (2 ^ 52 <= z2)%Z as Hbig by lia.
    apply IZR_le in Hbig. rewrite <- (bpow_IZR 52) in Hbig by lia.
    pose proof (bpow_le (53 + e1) (52 + e2) ltac:(lia)) as Hstep.
    rewrite !bpow_add in Hstep. pose proof (bpow_pos 52). pose proof (bpow_pos 53). nra.
  - subst e2.
    assert (z1 <= z2)%Z as Hz.
    { assert (IZR z1 < IZR z2 + 1)%R by nra.
      rewrite <- plus_IZR in H. apply lt_IZR in H. lia. }
    assert (m1 <= m2)%Z as Hm.
    { destruct (Z_lt_le_dec z1 z2) as [Hlt|Hge]; [lia|].
      assert (z1 = z2) by lia. subst z2. now apply (rne_mono_cell z1 e1 l1 l2 v1 v2). }
    apply IZR_le in Hm. nra.
  - exfalso.
    assert (2 ^ 52 <= z1)%Z as Hbig by lia.
    apply IZR_le in Hbig. rewrite <- (bpow_IZR 52) in Hbig by lia.
    pose proof (bpow_le (53 + e2) (52 + e1) ltac:(lia)) as Hstep.
    rewrite !bpow_add in Hstep. pose proof (bpow_pos 52). pose proof (bpow_pos 53). nra.
Qed.

(** [binary_round_aux] on a cell that holds [v] gives the double nearest to
    [v]: a valid non-negative double whose value is the rounded real, or
    infinity beyond the range. *)
Lemma binary_round_aux_val m e l v :
  (0 <= m)%Z -> inbetween m e l v ->
  (e <= fexp prec emax (Zdigits2 m + e))%Z ->
  exists rv,
    rounded v rv
    /\ nonneg_float (binary_round_aux prec emax false m e l)
    /\ SpecFloat.valid_binary prec emax (binary_round_aux prec emax false m e l) = true
    /\ val (binary_round_aux prec emax false m e l) = Rmin rv (bpow 1024).
Proof.
  intros Hm H Hpre. rewrite binary_round_aux_finish.
  destruct (trunc_canon m e l v Hm H Hpre) as [Hc Hin].
  set (z := shr_m _) in *. set (e' := snd _) in *. set (l' := loc_of_shr_record _) in *.
  exists (IZR (round_nearest_even z l') * bpow e')%R.
  split; [now exists z, e', l'|]. now apply round_canon.
Qed.

(** *** The order of doubles, through their values *)

Lemma bounded_inv m e :
  SpecFloat.bounded prec emax m e = true ->
  Z.max (Zdigits2 (Z.pos m) + e - 53) (-1074) = e /\ (e <= 971)%Z.
Proof.
  unfold SpecFloat.bounded, canonical_mantissa. rewrite fexp_eq.
  intros H. apply andb_prop in H as [H1 H2].
  apply Z.eqb_eq in H1. apply Z.leb_le in H2. now split.
Qed.

Lemma bounded_val m e :
  SpecFloat.bounded prec emax m e = true ->
  (0 < IZR (Z.pos m) * bpow e < bpow 1024)%R.
Proof.
  intros H. apply bounded_inv in H as [Hc He].
  pose proof (Zdigits2_bpow m) as [_ Hhi]. pose proof (bpow_pos e) as Hb.
  assert (0 < IZR (Z.pos m))%R by (apply IZR_lt; lia).
  pose proof (bpow_le (Zdigits2 (Z.pos m) + e) 1024 ltac:(lia)) as Hle.
  rewrite bpow_add in Hle. split; nra.
Qed.

Lemma Rcompare_scale a c b :
  (0 < b)%R -> Rcompare (IZR a * b) (IZR c * b) = Z.compare a c.
Proof.
  intros Hb. destruct (Z.compare_spec a c) as [->|H|H].
  - now apply Rcompare_Eq_intro.
  - apply IZR_lt in H. apply Rcompare_Lt_intro. nra.
  - apply IZR_lt in H. apply Rcompare_Gt_intro. nra.
Qed.

Lemma Rcompare_opp x y : Rcompare (- x) (- y) = CompOpp (Rcompare x y).
Proof.
  destruct (Rcompare_spec x y); cbn;
    [apply Rcompare_Eq_intro | apply Rcompare_Gt_intro | apply Rcompare_Lt_intro]; lra.
Qed.

(** Two valid mantissa and exponent pairs compare as their values do. *)
Lemma canonical_compare m1 e1 m2 e2 :
  SpecFloat.bounded prec emax m1 e1 = true ->
  SpecFloat.bounded prec emax m2 e2 = true ->
  match Z.compare e1 e2 with
  | Lt => Lt
  | Gt => Gt
  | Eq => Pos.compare_cont Eq m1 m2
  end = Rcompare (IZR (Z.pos m1) * bpow e1) (IZR (Z.pos m2) * bpow e2).
Proof.
  intros H1 H2. apply bounded_inv in H1 as [Hc1 _]. apply bounded_inv in H2 as [Hc2 _].
  pose proof (Zdigits2_bpow m1) as [Hlo1 Hhi1]. pose proof (Zdigits2_bpow m2) as [Hlo2 Hhi2].
  pose proof (bpow_pos e1) as Hb1. pose proof (bpow_pos e2) as Hb2.
  destruct (Z.compare_spec e1 e2) as [->|H|H].
  - rewrite Rcompare_scale by done. reflexivity.
  - symmetry. apply Rcompare_Lt_intro.
    pose proof (bpow_le (Zdigits2 (Z.pos m1) + e1) (Zdigits2 (Z.pos m2) - 1 + e2) ltac:(lia)) as Hle.
    rewrite !bpow_add in Hle. pose proof (bpow_pos (Zdigits2 (Z.pos m2) - 1)). nra.
  - symmetry. apply Rcompare_Gt_intro.
    pose proof (bpow_le (Zdigits2 (Z.pos m2) + e2) (Zdigits2 (Z.pos m1) - 1 + e1) ltac:(lia)) as Hle.
    rewrite !bpow_add in Hle. pose proof (bpow_pos (Zdigits2 (Z.pos m1) - 1)). nra.
Qed.

Lemma SFcompare_val x y :
  ordered x -> ordered y -> SFcompare x y = Some (Rcompare (val x) (val y)).
Proof.
  intros [Hx Vx] [Hy Vy]. pose proof (bpow_pos 1024) as HB.
  destruct x as [sx|sx| |sx mx ex], y as [sy|sy| |sy my ey]; try congruence;
    cbn [SpecFloat.valid_binary] in Vx, Vy;
    try (pose proof (bounded_val _ _ Vx) as Bx);
    try (pose proof (bounded_val _ _ Vy) as By);
    cbn [SFcompare val];
    try (destruct sx); try (destruct sy); f_equal; symmetry;
    try solve [ apply Rcompare_Eq_intro; lra
              | apply Rcompare_Lt_intro; lra
              | apply Rcompare_Gt_intro; lra ].
  - rewrite Rcompare_opp, <- (canonical_compare mx ex my ey Vx Vy).
    now destruct (ex ?= ey)%Z.
  - symmetry. now apply canonical_compare.
Qed.

(** *** Addition *)

Lemma Pos_iter_xO m d : Z.pos (Pos.iter xO m d) = (Z.pos m * 2 ^ Z.pos d)%Z.
Proof.
  rewrite <- Z.shiftl_mul_pow2 by lia. cbn [Z.shiftl].
  apply (Pos.iter_swap_gen _ _ Z.pos xO (Z.mul 2)). reflexivity.
Qed.

Lemma Zdigits2_unique p d :
  (2 ^ (d - 1) <= Z.pos p < 2 ^ d)%Z -> (1 <= d)%Z -> Zdigits2 (Z.pos p) = d.
Proof.
  intros [Hlo Hhi] Hd. destruct (Zdigits2_bounds p) as [[Hlt Hle] Hd'].
  set (d' := Zdigits2 (Z.pos p)) in *.
  destruct (Z.lt_trichotomy d' d) as [H|[H|H]]; [|done|].
  - pose proof (Z.pow_le_mono_r 2 d' (d - 1) ltac:(lia) ltac:(lia)). lia.
  - pose proof (Z.pow_le_mono_r 2 (d + 1) d' ltac:(lia) ltac:(lia)) as Hp.
    rewrite Z.pow_add_r in Hp by lia. lia.
Qed.

Lemma Zdigits2_shift m d :
  Zdigits2 (Z.pos (Pos.iter xO m d)) = (Zdigits2 (Z.pos m) + Z.pos d)%Z.
Proof.
  destruct (Zdigits2_bounds m) as [[Hlt Hle] Hd].
  set (k := Zdigits2 (Z.pos m)) in *.
  apply Zdigits2_unique; [|lia]. rewrite Pos_iter_xO.
  replace (k + Z.pos d - 1)%Z with ((k - 1) + Z.pos d)%Z by lia.
  rewrite !Z.pow_add_r by lia.
  assert (2 ^ k = 2 * 2 ^ (k - 1))%Z as Hk.
  { replace k with (k - 1 + 1)%Z at 1 by lia. rewrite Z.pow_add_r by lia. lia. }
  pose proof (Z.pow_pos_nonneg 2 (Z.pos d) ltac:(lia) ltac:(lia)). nia.
Qed.

Lemma IZR_shift m d : (0 <= d)%Z -> IZR (m * 2 ^ d) = (IZR m * bpow d)%R.
Proof. intros Hd. now rewrite mult_IZR, bpow_IZR. Qed.

(** Aligning a mantissa to a smaller exponent keeps the value and the
    position of the leading digit. *)
Lemma shl_align_spec mx ex e' :
  (IZR (Z.pos (shl_align mx ex e').1) * bpow (shl_align mx ex e').2
   = IZR (Z.pos mx) * bpow ex)%R
  /\ (shl_align mx ex e').2 = Z.min ex e'
  /\ (Zdigits2 (Z.pos (shl_align mx ex e').1) + (shl_align mx ex e').2
      = Zdigits2 (Z.pos mx) + ex)%Z.
Proof.
  unfold shl_align. destruct (e' - ex)%Z as [|d|d] eqn:Hd; cbn [fst snd].
  - split; [done|]. split; lia.
  - split; [done|]. split; lia.
  - assert (ex = e' + Z.pos d)%Z as -> by lia.
    rewrite Zdigits2_shift, Pos_iter_xO, IZR_shift, bpow_add by lia.
    split; [lra|]. split; lia.
Qed.

(** Rounding a positive dyadic number. *)
Lemma binary_round_val m e :
  exists rv,
    rounded (IZR (Z.pos m) * bpow e) rv
    /\ nonneg_float (binary_round prec emax false m e)
    /\ SpecFloat.valid_binary prec emax (binary_round prec emax false m e) = true
    /\ val (binary_round prec emax false m e) = Rmin rv (bpow 1024).
Proof.
  unfold binary_round.
  destruct (shl_align_spec m e (fexp prec emax (Z.pos (digits2_pos m) + e)))
    as (Hv & He & Hd).
  destruct (shl_align m e _) as [mz ez]. cbn [fst snd] in *.
  apply binary_round_aux_val; [lia | cbn; lra |].
  rewrite Hd. change (Zdigits2 (Z.pos m)) with (Z.pos (digits2_pos m)). lia.
Qed.

(** The sum of two positive doubles. *)
Lemma SFadd_val mx ex my ey :
  let x := S754_finite false mx ex in
  let y := S754_finite false my ey in
  exists rv,
    rounded (val x + val y) rv
    /\ nonneg_float (SFadd prec emax x y)
    /\ SpecFloat.valid_binary prec emax (SFadd prec emax x y) = true
    /\ val (SFadd prec emax x y) = Rmin rv (bpow 1024).
Proof.
  intros x y. unfold x, y, SFadd. cbn [cond_Zopp val].
  destruct (shl_align_spec mx ex (Z.min ex ey)) as (Hvx & Hex & _).
  destruct (shl_align_spec my ey (Z.min ex ey)) as (Hvy & Hey & _).
  destruct (shl_align mx ex _) as [Mx ex']. destruct (shl_align my ey _) as [My ey'].
  cbn [fst snd] in *.
  assert (ex' = Z.min ex ey) as -> by lia. assert (ey' = Z.min ex ey) as Heq by lia.
  rewrite Heq in Hvy. rewrite <- Hvx, <- Hvy.
  change (Z.pos Mx + Z.pos My)%Z with (Z.pos (Mx + My)). cbn [binary_normalize].
  replace (IZR (Z.pos Mx) * bpow (Z.min ex ey) + IZR (Z.pos My) * bpow (Z.min ex ey))%R
    with (IZR (Z.pos (Mx + My)) * bpow (Z.min ex ey))%R.
  - apply binary_round_val.
  - rewrite Pos2Z.inj_add, plus_IZR. lra.
Qed.

(** *** Division *)

Lemma Rcompare_IZR a c : Rcompare (IZR a) (IZR c) = Z.compare a c.
Proof.
  rewrite <- (Rcompare_scale a c 1) by lra. now rewrite !Rmult_1_r.
Qed.

Lemma Rcompare_half X N : (0 < N)%R -> Rcompare (X / N) (/ 2) = Rcompare (2 * X) N.
Proof.
  intros HN.
  assert (X = X / N * N)%R as HX by (field; lra).
  destruct (Rcompare_spec (2 * X) N) as [H|H|H];
    [apply Rcompare_Eq_intro | apply Rcompare_Lt_intro | apply Rcompare_Gt_intro]; nra.
Qed.

(** The position of a remainder [k] out of [n] steps. *)
Lemma new_location_spec n k :
  (0 <= k < n)%Z ->
  match new_location n k with
  | loc_Exact => k = 0%Z
  | loc_Inexact c => (0 < k)%Z /\ Rcompare (IZR k / IZR n) (/ 2) = c
  end.
Proof.
  intros Hk. assert (0 < IZR n)%R as HN by (apply IZR_lt; lia).
  unfold new_location, new_location_even, new_location_odd.
  destruct (Z.even n) eqn:Hev; destruct (Z.eqb_spec k 0) as [|Hne]; try done;
    (split; [lia|]); rewrite Rcompare_half by done;
    rewrite <- mult_IZR, Rcompare_IZR; [done|].
  assert (Z.odd n = true) as Hodd by (rewrite <- Z.negb_even, Hev; done).
  apply Z.odd_spec in Hodd as [a ->].
  destruct (Z.compare_spec (2 * k + 1) (2 * a + 1)), (Z.compare_spec (2 * k) (2 * a + 1));
    try done; lia.
Qed.

Lemma bpow_lt_inv a b : (bpow a < bpow b)%R -> (a < b)%Z.
Proof.
  intros H. destruct (Z_lt_le_dec a b) as [|Hle]; [done|].
  pose proof (bpow_le b a Hle). lra.
Qed.

Lemma Zdigits2_ge k q : (0 <= k)%Z -> (2 ^ k <= q)%Z -> (k < Zdigits2 q)%Z.
Proof.
  intros Hk Hq. pose proof (Z.pow_pos_nonneg 2 k ltac:(lia) Hk).
  destruct q as [|p|p]; [lia| |lia].
  destruct (Zdigits2_bounds p) as [[Hlt _] Hd].
  apply (Z.pow_lt_mono_r_iff 2); lia.
Qed.

(** The quotient of two positive doubles. *)
Lemma SFdiv_val mx ex my ey :
  let x := S754_finite false mx ex in
  let y := S754_finite false my ey in
  exists rv,
    rounded (val x / val y) rv
    /\ nonneg_float (SFdiv prec emax x y)
    /\ SpecFloat.valid_binary prec emax (SFdiv prec emax x y) = true
    /\ val (SFdiv prec emax x y) = Rmin rv (bpow 1024).
Proof.
  intros x y. unfold x, y, SFdiv, SFdiv_core_binary. cbn [xorb val].
  rewrite !fexp_eq.
  destruct (Zdigits2_bounds mx) as [[Hx1 Hx2] Hdx].
  destruct (Zdigits2_bounds my) as [[Hy1 Hy2] Hdy].
  set (d1 := Zdigits2 (Z.pos mx)) in *. set (d2 := Zdigits2 (Z.pos my)) in *.
  set (e' := Z.min (Z.max (d1 + ex - (d2 + ey) - 53) (-1074)) (ex - ey)).
  set (s := (ex - ey - e')%Z).
  assert (0 <= s)%Z as Hs by lia.
  assert (match s with
          | 0%Z => Z.pos mx
          | Z.pos _ => Z.shiftl (Z.pos mx) s
          | Z.neg _ => 0%Z
          end = Z.pos mx * 2 ^ s)%Z as ->.
  { destruct s as [|p|p] eqn:Es; [lia | now rewrite Z.shiftl_mul_pow2 | lia]. }
  pose proof (Z.pow_pos_nonneg 2 s ltac:(lia) Hs) as Hps.
  pose proof (Z_div_mod (Z.pos mx * 2 ^ s) (Z.pos my) ltac:(lia)) as Hdiv.
  destruct (Z.div_eucl (Z.pos mx * 2 ^ s) (Z.pos my)) as [q r].
  destruct Hdiv as [Hqr Hr].
  assert (0 <= q)%Z as Hq by nia.
  apply binary_round_aux_val; [done | |].
  - pose proof (new_location_spec (Z.pos my) r Hr) as Hloc.
    pose proof (bpow_pos e') as Hb. pose proof (bpow_pos ey) as Hbey.
    assert (0 < IZR (Z.pos my))%R as HN by (apply IZR_lt; lia).
    assert (Hv : (IZR (Z.pos mx) * bpow ex / (IZR (Z.pos my) * bpow ey)
                  = (IZR q + IZR r / IZR (Z.pos my)) * bpow e')%R).
    { replace ex with (s + e' + ey)%Z by lia. rewrite !bpow_add.
      apply (f_equal IZR) in Hqr. rewrite IZR_shift, plus_IZR, mult_IZR in Hqr by done.
      field_simplify_eq; [|lra]. rewrite Hqr. ring. }
    rewrite Hv. destruct (new_location (Z.pos my) r) as [|c]; cbn [inbetween].
    + subst r. lra.
    + destruct Hloc as [Hr0 Hc].
      assert (0 < IZR r / IZR (Z.pos my) < 1)%R as Hx.
      { assert (0 < IZR r < IZR (Z.pos my))%R by (split; apply IZR_lt; lia).
        split; [apply Rdiv_lt_0_compat; lra|].
        apply (Rmult_lt_reg_r (IZR (Z.pos my))); [lra|]. field_simplify; lra. }
      split; [nra|]. subst c.
      destruct (Rcompare_spec (IZR r / IZR (Z.pos my)) (/ 2));
        [apply Rcompare_Eq_intro | apply Rcompare_Lt_intro | apply Rcompare_Gt_intro]; nra.
  - rewrite fexp_eq.
    assert (2 ^ d1 = 2 * 2 ^ (d1 - 1))%Z as Hd1.
    { replace d1 with (d1 - 1 + 1)%Z at 1 by lia. rewrite Z.pow_add_r by lia. lia. }
    pose proof (Z.pow_pos_nonneg 2 (d1 - 1) ltac:(lia) ltac:(lia)) as Hpd1.
    destruct (Z.eq_dec q 0%Z) as [->|Hq0].
    + cbn [Zdigits2].
      assert (d1 - 1 + s < d2)%Z.
      { apply (Z.pow_lt_mono_r_iff 2); [lia | lia |].
        rewrite Z.pow_add_r by lia.
        assert (2 ^ (d1 - 1) * 2 ^ s <= Z.pos mx * 2 ^ s)%Z by nia. lia. }
      lia.
    + assert (d1 + s - d2 <= Zdigits2 q)%Z.
      { destruct (Z_lt_le_dec (d1 - 1 + s - d2) 0) as [Hneg|Hnn].
        - destruct q as [|p|p]; [lia| |lia]. destruct (Zdigits2_bounds p). lia.
        - pose proof (Zdigits2_ge (d1 - 1 + s - d2) q Hnn) as Hge.
          enough (2 ^ (d1 - 1 + s - d2) <= q)%Z by lia.
          assert (2 ^ (d1 - 1 + s) = 2 ^ (d1 - 1 + s - d2) * 2 ^ d2)%Z as Hsplit.
          { rewrite <- Z.pow_add_r by lia. f_equal. lia. }
          assert (2 ^ (d1 - 1 + s) = 2 ^ (d1 - 1) * 2 ^ s)%Z as Hsplit2.
          { rewrite <- Z.pow_add_r by lia. reflexivity. }
          pose proof (Z.pow_pos_nonneg 2 (d1 - 1 + s - d2) ltac:(lia) Hnn).
          pose proof (Z.pow_pos_nonneg 2 d2 ltac:(lia) ltac:(lia)).
          nia. }
      lia.
Qed.

(** *** The three operations of the rescaling *)

Lemma val_one : val sf_one = 1%R.
Proof.
  cbn [val sf_one]. change 4503599627370496%Z with (2 ^ 52)%Z.
  rewrite <- (bpow_IZR 52), <- bpow_add by lia. reflexivity.
Qed.

Lemma val_eight : val sf_eight = 8%R.
Proof.
  cbn [val sf_eight]. change 4503599627370496%Z with (2 ^ 52)%Z.
  rewrite <- (bpow_IZR 52), <- bpow_add by lia.
  change (52 + -49)%Z with 3%Z. now rewrite (bpow_IZR 3) by lia.
Qed.

Lemma rounded_nonneg v rv : rounded v rv -> (0 <= rv)%R.
Proof.
  intros (z & e & l & (Hz & _) & _ & ->). pose proof (rne_bounds z l).
  pose proof (bpow_pos e). assert (0 <= IZR (round_nearest_even z l))%R by (apply IZR_le; lia).
  nra.
Qed.

Lemma rounded_one : rounded 1 1.
Proof.
  exists (2 ^ 52)%Z, (-52)%Z, loc_Exact. split; [|split].
  - split; [lia|]. split; [lia|]. right. lia.
  - cbn [inbetween]. rewrite <- (bpow_IZR 52), <- bpow_add by lia. reflexivity.
  - cbn [round_nearest_even]. rewrite <- (bpow_IZR 52), <- bpow_add by lia. reflexivity.
Qed.

Lemma rounded_zero : rounded 0 0.
Proof.
  exists 0%Z, (-1074)%Z, loc_Exact. split; [|split].
  - split; [lia|]. split; [lia|]. now left.
  - cbn [inbetween]. lra.
  - cbn [round_nearest_even]. lra.
Qed.

Lemma Rmin_mono a b c : (a <= b)%R -> (Rmin a c <= Rmin b c)%R.
Proof. intros H. unfold Rmin. repeat destruct (Rle_dec _ _); lra. Qed.

Lemma ordered_val_range x : ordered x -> (- bpow 1024 <= val x <= bpow 1024)%R.
Proof.
  intros [Hx Vx]. pose proof (bpow_pos 1024).
  destruct x as [s|s| |s m e]; cbn [val]; try destruct s; try lra; try congruence;
    pose proof (bounded_val m e Vx); lra.
Qed.

Lemma ordered_val_top x : ordered x -> (bpow 1024 <= val x)%R -> x = S754_infinity false.
Proof.
  intros [Hx Vx] H. pose proof (bpow_pos 1024).
  destruct x as [s|s| |s m e]; cbn [val] in H; try destruct s; try lra; try congruence;
    pose proof (bounded_val m e Vx); lra.
Qed.

(** A double that is not negative is a zero, a positive number or the
    positive infinity. *)
Lemma ordered_nonneg x :
  ordered x -> (0 <= val x)%R ->
  (exists s, x = S754_zero s) \/ x = S754_infinity false
  \/ exists m e, x = S754_finite false m e /\ SpecFloat.bounded prec emax m e = true.
Proof.
  intros [Hx Vx] H. pose proof (bpow_pos 1024).
  destruct x as [s|s| |s m e]; cbn [val] in H; try congruence.
  - left. eauto.
  - destruct s; [lra|]. right. now left.
  - pose proof (bounded_val m e Vx). destruct s; [lra|]. right. right. eauto.
Qed.

Lemma nonneg_float_ordered x :
  nonneg_float x -> SpecFloat.valid_binary prec emax x = true -> ordered x.
Proof. intros H V. split; [|done]. intros ->. exact H. Qed.

(** [1 + a] for a double [a] that is not negative. *)
Lemma add_one_spec a :
  ordered a -> (0 <= val a)%R ->
  ordered (SFadd prec emax sf_one a)
  /\ ((a = S754_infinity false /\ SFadd prec emax sf_one a = S754_infinity false)
      \/ exists rv, rounded (1 + val a) rv
                    /\ val (SFadd prec emax sf_one a) = Rmin rv (bpow 1024)).
Proof.
  intros Ha H0. pose proof (bpow_pos 1024) as HB.
  destruct (ordered_nonneg a Ha H0) as [[s ->]|[->|(m & e & -> & Hm)]].
  - cbn [SFadd sf_one]. split; [split; done|]. right. exists 1%R.
    fold sf_one. rewrite val_one. cbn [val]. rewrite Rplus_0_r.
    split; [apply rounded_one|]. rewrite Rmin_left; [done|].
    pose proof (bpow_nonneg_ge1 1024 ltac:(lia)). lra.
  - cbn [SFadd sf_one]. split; [split; done|]. now left.
  - destruct (SFadd_val 4503599627370496 (-52) m e) as (rv & Hr & Hn & Hv & Hval).
    cbv zeta in *. fold sf_one in *. rewrite val_one in Hr.
    split; [now apply nonneg_float_ordered|]. right. now exists rv.
Qed.

Lemma add_one_mono a b :
  ordered a -> ordered b -> (0 <= val a <= val b)%R ->
  (val (SFadd prec emax sf_one a) <= val (SFadd prec emax sf_one b))%R.
Proof.
  intros Ha Hb [H0 Hab].
  destruct (add_one_spec a Ha H0) as [Oa Sa].
  destruct (add_one_spec b Hb ltac:(lra)) as [Ob Sb].
  destruct Sb as [[-> ->]|(rb & Rb & Vb)].
  - cbn [val]. apply (ordered_val_range _ Oa).
  - destruct Sa as [[-> ->]|(ra & Ra & Va)].
    + cbn [val] in Hab. apply (ordered_val_top b Hb) in Hab. subst b.
      destruct (SFadd prec emax sf_one (S754_infinity false)) eqn:E; cbn in E; try discriminate.
      injection E as <-. cbn [val]. lra.
    + rewrite Va, Vb. apply Rmin_mono. apply (rounded_mono (1 + val a) (1 + val b)); [done|done|lra].
Qed.

(** [1 / s] for a double [s] that is at least 1. *)
Lemma div_one_spec s :
  ordered s -> (1 <= val s)%R ->
  ordered (SFdiv prec emax sf_one s)
  /\ (0 <= val (SFdiv prec emax sf_one s))%R
  /\ ((s = S754_infinity false /\ val (SFdiv prec emax sf_one s) = 0%R)
      \/ exists rv, rounded (1 / val s) rv
                    /\ val (SFdiv prec emax sf_one s) = Rmin rv (bpow 1024)).
Proof.
  intros Hs H1. pose proof (bpow_pos 1024) as HB.
  destruct (ordered_nonneg s Hs ltac:(lra)) as [[sg ->]|[->|(m & e & -> & Hm)]].
  - cbn [val] in H1. lra.
  - cbn [SFdiv sf_one xorb val]. split; [split; done|]. split; [lra|]. now left.
  - destruct (SFdiv_val 4503599627370496 (-52) m e) as (rv & Hr & Hn & Hv & Hval).
    cbv zeta in *. fold sf_one in *. rewrite val_one in Hr.
    split; [now apply nonneg_float_ordered|]. split.
    + rewrite Hval. pose proof (rounded_nonneg _ _ Hr). unfold Rmin. destruct (Rle_dec _ _); lra.
    + right. now exists rv.
Qed.

Lemma div_one_anti s t :
  ordered s -> ordered t -> (1 <= val s <= val t)%R ->
  (val (SFdiv prec emax sf_one t) <= val (SFdiv prec emax sf_one s))%R.
Proof.
  intros Hs Ht [H1 Hst].
  destruct (div_one_spec s Hs H1) as (Os & Ps & Ss).
  destruct (div_one_spec t Ht ltac:(lra)) as (Ot & Pt & St).
  destruct St as [[-> Vt]|(rt & Rt & Vt)]; [lra|].
  destruct Ss as [[-> Vs]|(rs & Rs & Vs)].
  - cbn [val] in Hst. apply (ordered_val_top t Ht) in Hst. subst t.
    cbn [SFdiv sf_one xorb val]. lra.
  - rewrite Vs, Vt. apply Rmin_mono.
    apply (rounded_mono (1 / val t) (1 / val s)); [done|done|].
    unfold Rdiv. rewrite !Rmult_1_l. apply Rinv_le_contravar; lra.
Qed.

(** The sign of a rounding only shows in the sign of the result. *)
Lemma binary_round_aux_opp m e l :
  binary_round_aux prec emax true m e l = SFopp (binary_round_aux prec emax false m e l).
Proof.
  unfold binary_round_aux. destruct (shr_fexp prec emax m e l) as [mrs e'].
  destruct (shr_fexp prec emax _ e' loc_Exact) as [mrs' e''].
  destruct (shr_m mrs'); [done| |done]. now destruct (_ <=? _)%Z.
Qed.

Lemma val_opp x : val (SFopp x) = (- val x)%R.
Proof. destruct x as [s|s| |s m e]; cbn [SFopp val]; try destruct s; cbn [negb]; lra. Qed.

Lemma ordered_opp x : ordered x -> ordered (SFopp x).
Proof. intros [Hx Vx]. split; destruct x; cbn in *; congruence. Qed.

Lemma SFopp_involutive x : SFopp (SFopp x) = x.
Proof. destruct x as [s|s| |s m e]; cbn [SFopp]; now rewrite ?negb_involutive. Qed.

Lemma div_eight_opp a :
  SFdiv prec emax (SFopp a) sf_eight = SFopp (SFdiv prec emax a sf_eight).
Proof.
  destruct a as [s|s| |s m e]; cbn [SFopp SFdiv sf_eight]; [now destruct s | now destruct s | done |].
  destruct (SFdiv_core_binary prec emax (Z.pos m) e _ _) as [[mz ez] lz].
  destruct s; cbn [negb xorb]; [|apply binary_round_aux_opp].
  now rewrite binary_round_aux_opp, SFopp_involutive.
Qed.

(** [a / 8] for a double [a] that is not negative. *)
Lemma div_eight_spec a :
  ordered a -> (0 <= val a)%R ->
  ordered (SFdiv prec emax a sf_eight)
  /\ ((a = S754_infinity false /\ SFdiv prec emax a sf_eight = S754_infinity false)
      \/ exists rv, rounded (val a / 8) rv
                    /\ val (SFdiv prec emax a sf_eight) = Rmin rv (bpow 1024)).
Proof.
  intros Ha H0. pose proof (bpow_pos 1024) as HB.
  destruct (ordered_nonneg a Ha H0) as [[s ->]|[->|(m & e & -> & Hm)]].
  - cbn [SFdiv sf_eight val]. split; [split; done|]. right. exists 0%R.
    unfold Rdiv. rewrite Rmult_0_l. split; [apply rounded_zero|].
    rewrite Rmin_left; [done | lra].
  - cbn [SFdiv sf_eight xorb]. split; [split; done|]. now left.
  - destruct (SFdiv_val m e 4503599627370496 (-49)) as (rv & Hr & Hn & Hv & Hval).
    cbv zeta in *. fold sf_eight in *. rewrite val_eight in Hr.
    split; [now apply nonneg_float_ordered|]. right. now exists rv.
Qed.

Lemma div_eight_nonneg a :
  ordered a -> (0 <= val a)%R -> (0 <= val (SFdiv prec emax a sf_eight))%R.
Proof.
  intros Ha H0. pose proof (bpow_pos 1024) as HB.
  destruct (div_eight_spec a Ha H0) as [_ [[_ ->]|(rv & Hr & ->)]]; [cbn [val]; lra|].
  pose proof (rounded_nonneg _ _ Hr). unfold Rmin. destruct (Rle_dec _ _); lra.
Qed.

Lemma div_eight_mono_nonneg a b :
  ordered a -> ordered b -> (0 <= val a <= val b)%R ->
  (val (SFdiv prec emax a sf_eight) <= val (SFdiv prec emax b sf_eight))%R.
Proof.
  intros Ha Hb [H0 Hab].
  destruct (div_eight_spec a Ha H0) as [Oa Sa].
  destruct (div_eight_spec b Hb ltac:(lra)) as [Ob Sb].
  destruct Sb as [[-> ->]|(rb & Rb & Vb)].
  - cbn [val]. apply (ordered_val_range _ Oa).
  - destruct Sa as [[-> Ea]|(ra & Ra & Va)].
    + cbn [val] in Hab. apply (ordered_val_top b Hb) in Hab. subst b.
      rewrite Ea. cbn [val]. lra.
    + rewrite Va, Vb. apply Rmin_mono.
      apply (rounded_mono (val a / 8) (val b / 8)); [done|done|lra].
Qed.

Lemma div_eight_ordered a : ordered a -> ordered (SFdiv prec emax a sf_eight).
Proof.
  intros Ha. destruct (Rle_dec 0 (val a)) as [H|H].
  - now apply div_eight_spec.
  - rewrite <- (SFopp_involutive a), div_eight_opp. apply ordered_opp.
    apply div_eight_spec; [now apply ordered_opp | rewrite val_opp; lra].
Qed.

(** Division by 8 follows the order of the doubles. *)
Lemma div_eight_mono a b :
  ordered a -> ordered b -> (val a <= val b)%R ->
  (val (SFdiv prec emax a sf_eight) <= val (SFdiv prec emax b sf_eight))%R.
Proof.
  intros Ha Hb Hab.
  assert (Hneg : forall x, ordered x -> (val x <= 0)%R ->
            val (SFdiv prec emax x sf_eight)
            = (- val (SFdiv prec emax (SFopp x) sf_eight))%R).
  { intros x Hx _. rewrite div_eight_opp, val_opp. lra. }
  destruct (Rle_dec 0 (val a)) as [H0a|H0a].
  - now apply div_eight_mono_nonneg.
  - destruct (Rle_dec 0 (val b)) as [H0b|H0b].
    + rewrite (Hneg a Ha) by lra.
      pose proof (div_eight_nonneg (SFopp a) (ordered_opp a Ha) ltac:(rewrite val_opp; lra)).
      pose proof (div_eight_nonneg b Hb H0b). lra.
    + rewrite (Hneg a Ha), (Hneg b Hb) by lra.
      pose proof (div_eight_mono_nonneg (SFopp b) (SFopp a)
                    (ordered_opp b Hb) (ordered_opp a Ha)) as H.
      rewrite !val_opp in H. specialize (H ltac:(lra)). lra.
Qed.

(** *** Primitive doubles *)

Lemma SFleb_val x y :
  SpecFloat.valid_binary prec emax x = true -> SpecFloat.valid_binary prec emax y = true ->
  SFleb x y = true <-> ordered x /\ ordered y /\ (val x <= val y)%R.
Proof.
  intros Vx Vy. split.
  - intros H.
    assert (x <> S754_nan) as Hx by (intros ->; discriminate).
    assert (y <> S754_nan) as Hy by (intros ->; now destruct x).
    split; [done|]. split; [done|]. unfold SFleb in H.
    rewrite SFcompare_val in H by done.
    destruct (Rcompare_spec (val x) (val y)); [lra | lra | discriminate].
  - intros (Hx & Hy & Hle). unfold SFleb. rewrite SFcompare_val by done.
    destruct (Rcompare_spec (val x) (val y)); [done | done | lra].
Qed.

Lemma SFltb_val x y :
  SpecFloat.valid_binary prec emax x = true -> SpecFloat.valid_binary prec emax y = true ->
  SFltb x y = true <-> ordered x /\ ordered y /\ (val x < val y)%R.
Proof.
  intros Vx Vy. split.
  - intros H.
    assert (x <> S754_nan) as Hx by (intros ->; discriminate).
    assert (y <> S754_nan) as Hy by (intros ->; now destruct x).
    split; [done|]. split; [done|]. unfold SFltb in H.
    rewrite SFcompare_val in H by done.
    destruct (Rcompare_spec (val x) (val y)); [discriminate | lra | discriminate].
  - intros (Hx & Hy & Hle). unfold SFltb. rewrite SFcompare_val by done.
    destruct (Rcompare_spec (val x) (val y)); [lra | done | lra].
Qed.

Lemma leb_val x y :
  (x <=? y)%float = true <-> is_number x /\ is_number y /\ (fval x <= fval y)%R.
Proof. rewrite FloatAxioms.leb_spec. apply SFleb_val; apply Prim2SF_valid. Qed.

Lemma ltb_val x y :
  (x <? y)%float = true <-> is_number x /\ is_number y /\ (fval x < fval y)%R.
Proof. rewrite FloatAxioms.ltb_spec. apply SFltb_val; apply Prim2SF_valid. Qed.

Lemma is_nan_number x : PrimFloat.is_nan x = false <-> is_number x.
Proof.
  unfold PrimFloat.is_nan, is_number. rewrite FloatAxioms.eqb_spec. unfold SFeqb. split.
  - intros H. split; [|apply Prim2SF_valid]. intros E. rewrite E in H. discriminate.
  - intros H. rewrite SFcompare_val by done. now rewrite Rcompare_Eq_intro.
Qed.

Lemma Prim2SF_number x : Prim2SF x <> S754_nan -> is_number x.
Proof. intros H. split; [done | apply Prim2SF_valid]. Qed.

Lemma number_ordered x : ordered (Prim2SF x) -> is_number x.
Proof. done. Qed.

(** A number whose value is that of a positive double is that double. *)
Lemma val_inj_finite x m e :
  ordered x -> ordered (S754_finite false m e) ->
  val x = val (S754_finite false m e) -> x = S754_finite false m e.
Proof.
  intros Hx Hy Hv.
  pose proof (SFcompare_val x _ Hx Hy) as Hc. rewrite Hv, Rcompare_Eq_intro in Hc by done.
  destruct x as [s|s| |s m' e']; cbn [SFcompare] in Hc; try (destruct s); try discriminate.
  destruct (Z.compare_spec e' e); try discriminate. subst e'.
  injection Hc as Hc. apply Pos.compare_eq in Hc. now subst.
Qed.

Lemma Prim2SF_one : Prim2SF 1 = sf_one.
Proof. reflexivity. Qed.

Lemma Prim2SF_eight : Prim2SF 8 = sf_eight.
Proof. reflexivity. Qed.

Lemma Prim2SF_zero : Prim2SF 0 = S754_zero false.
Proof. reflexivity. Qed.

Lemma fval_zero : fval 0 = 0%R.
Proof. reflexivity. Qed.

Lemma fval_one : fval 1 = 1%R.
Proof. unfold fval. rewrite Prim2SF_one. apply val_one. Qed.

Lemma number_zero : is_number 0.
Proof. apply Prim2SF_number. discriminate. Qed.

Lemma number_one : is_number 1.
Proof. apply Prim2SF_number. discriminate. Qed.

(** Division by 8 and negation, on numbers. *)
Lemma div8_number a : is_number a -> is_number (a / 8)%float.
Proof.
  intros Ha. unfold is_number. rewrite FloatAxioms.div_spec, Prim2SF_eight. now apply div_eight_ordered.
Qed.

Lemma div8_mono a b :
  (a <=? b)%float = true -> (a / 8 <=? b / 8)%float = true.
Proof.
  rewrite !leb_val. intros (Ha & Hb & Hab).
  split; [now apply div8_number|]. split; [now apply div8_number|].
  unfold fval. rewrite !FloatAxioms.div_spec, Prim2SF_eight. now apply div_eight_mono.
Qed.

Lemma opp_number a : is_number a -> is_number (- a)%float.
Proof. intros Ha. unfold is_number. rewrite FloatAxioms.opp_spec. now apply ordered_opp. Qed.

Lemma opp_anti a b :
  (a <=? b)%float = true -> (- b <=? - a)%float = true.
Proof.
  rewrite !leb_val. intros (Ha & Hb & Hab).
  split; [now apply opp_number|]. split; [now apply opp_number|].
  unfold fval. rewrite !FloatAxioms.opp_spec, !val_opp. unfold fval in Hab. lra.
Qed.

(** Adding to 1, on numbers that are not negative. *)
Lemma add1_mono a b :
  (0 <=? a)%float = true -> (a <=? b)%float = true ->
  (1 + a <=? 1 + b)%float = true.
Proof.
  rewrite !leb_val. intros (_ & Ha & H0) (_ & Hb & Hab).
  rewrite fval_zero in H0. unfold fval in *. unfold is_number.
  rewrite !FloatAxioms.add_spec, Prim2SF_one.
  split; [now apply add_one_spec|]. split; [apply add_one_spec; [done|lra]|].
  now apply add_one_mono.
Qed.

(** Dividing 1, by numbers that are at least 1. *)
Lemma inv1_anti s t :
  (1 <=? s)%float = true -> (s <=? t)%float = true ->
  (1 / t <=? 1 / s)%float = true.
Proof.
  rewrite !leb_val. intros (_ & Hs & H1) (_ & Ht & Hst).
  rewrite fval_one in H1. unfold fval in *. unfold is_number.
  rewrite !FloatAxioms.div_spec, Prim2SF_one.
  split; [apply div_one_spec; [done|lra]|]. split; [now apply div_one_spec|].
  now apply div_one_anti.
Qed.

Lemma leb_refl_number a : is_number a -> (a <=? a)%float = true.
Proof. intros Ha. apply leb_val. split; [done|]. split; [done|]. lra. Qed.

Lemma leb_trans a b c :
  (a <=? b)%float = true -> (b <=? c)%float = true -> (a <=? c)%float = true.
Proof.
  rewrite !leb_val. intros (Ha & _ & Hab) (_ & Hc & Hbc). split; [done|]. split; [done|]. lra.
Qed.

Lemma leb_infinity a : is_number a -> (a <=? infinity)%float = true.
Proof.
  intros Ha. apply leb_val. split; [done|]. split; [apply Prim2SF_number; discriminate|].
  change (fval infinity) with (bpow 1024). apply (ordered_val_range _ Ha).
Qed.

(** A number between 1 and 1 is 1. *)
Lemma leb_antisym_one a :
  (1 <=? a)%float = true -> (a <=? 1)%float = true -> a = 1%float.
Proof.
  rewrite !leb_val. intros (_ & Ha & H1) (_ & _ & H2).
  apply Prim2SF_inj. rewrite Prim2SF_one. apply val_inj_finite; [done | split; done |].
  fold sf_one. rewrite val_one. rewrite fval_one in *. unfold fval in *. lra.
Qed.

(** ** Facts about the rescaled score *)

Section Rescaling.

Variable np_exp : float -> float.

Lemma one_plus_ge_one e : (0 <=? e)%float = true -> (1 <=? 1 + e)%float = true.
Proof.
  intros He. exact (add1_mono 0 e (leb_refl_number 0 number_zero) He).
Qed.

Lemma scale_range_of_exp raw :
  (0 <=? np_exp (- (raw / BM25_SCALING_FACTOR)))%float = true ->
  (0 <=? scale np_exp raw)%float = true /\ (scale np_exp raw <=? 1)%float = true.
Proof.
  intros He. unfold scale. set (e := np_exp _) in *.
  pose proof (one_plus_ge_one e He) as H1.
  assert (is_number e) as Ne by (apply leb_val in He; tauto).
  assert (is_number (1 + e)) as Ns by (apply leb_val in H1; tauto).
  split.
  - exact (inv1_anti (1 + e) infinity H1 (leb_infinity _ Ns)).
  - exact (inv1_anti 1 (1 + e) (leb_refl_number 1 number_one) H1).
Qed.

Lemma scale_range raw :
  exp_nonneg np_exp -> PrimFloat.is_nan raw = false ->
  (0 <=? scale np_exp raw)%float = true /\ (scale np_exp raw <=? 1)%float = true.
Proof.
  intros Hexp Hraw. apply scale_range_of_exp. apply Hexp.
  apply is_nan_number, opp_number, div8_number. now apply is_nan_number.
Qed.

Lemma scale_monotone a b :
  exp_nonneg np_exp -> exp_monotone np_exp ->
  (a <=? b)%float = true -> (scale np_exp a <=? scale np_exp b)%float = true.
Proof.
  intros Hpos Hmono Hab. unfold scale.
  pose proof (opp_anti _ _ (div8_mono a b Hab)) as Harg.
  pose proof (Hmono _ _ Harg) as Hexp.
  assert (PrimFloat.is_nan (- (b / BM25_SCALING_FACTOR)) = false) as Hnum.
  { apply is_nan_number. apply leb_val in Harg. tauto. }
  pose proof (Hpos _ Hnum) as H0.
  apply inv1_anti; [now apply one_plus_ge_one | now apply add1_mono].
Qed.

(** Saturation: once the exponential is [2^-53] or less, the sum [1 + e]
    is 1 and so is the rescaled score; when the exponential overflows, the
    rescaled score is 0. *)
Lemma scale_saturates_high raw :
  (0 <=? np_exp (- (raw / BM25_SCALING_FACTOR)))%float = true ->
  (np_exp (- (raw / BM25_SCALING_FACTOR)) <=? 0x1p-53)%float = true ->
  scale np_exp raw = 1%float.
Proof.
  intros H0 Hle. unfold scale. set (e := np_exp _) in *.
  assert ((1 + e)%float = 1%float) as ->; [|reflexivity].
  apply leb_antisym_one; [now apply one_plus_ge_one|].
  exact (add1_mono e 0x1p-53 H0 Hle).
Qed.

Lemma scale_saturates_low raw :
  np_exp (- (raw / BM25_SCALING_FACTOR)) = infinity -> scale np_exp raw = 0%float.
Proof. intros H. unfold scale. now rewrite H. Qed.

End Rescaling.

Lemma ltb_false_val x c :
  is_number x -> is_number c -> (x <? c)%float = false -> (fval c <= fval x)%R.
Proof.
  intros Hx Hc H. destruct (Rle_dec (fval c) (fval x)) as [|Hn]; [done|].
  assert ((x <? c)%float = true) by (apply ltb_val; split; [done|]; split; [done|lra]).
  congruence.
Qed.

Lemma stub_exp_nonneg : exp_nonneg stub_exp.
Proof.
  intros t Ht. unfold stub_exp. rewrite Ht.
  repeat (match goal with |- context [if ?c then _ else _] => destruct c end; [reflexivity|]).
  reflexivity.
Qed.

Lemma stub_exp_monotone : exp_monotone stub_exp.
Proof.
  intros s t Hst. apply leb_val in Hst as (Hs & Ht & Hle).
  unfold stub_exp.
  rewrite (proj2 (is_nan_number s) Hs), (proj2 (is_nan_number t) Ht).
  repeat match goal with
  | |- context [(s <? ?c)%float] =>
      let E := fresh "Es" in
      destruct (s <? c)%float eqn:E;
      [apply ltb_val in E as (_ & _ & E)
      |apply ltb_false_val in E; [|done|apply Prim2SF_number; discriminate]]
  end;
  repeat match goal with
  | |- context [(t <? ?c)%float] =>
      let E := fresh "Et" in
      destruct (t <? c)%float eqn:E;
      [apply ltb_val in E as (_ & _ & E)
      |apply ltb_false_val in E; [|done|apply Prim2SF_number; discriminate]]
  end;
  first [ reflexivity | exfalso; lra ].
Qed.

(** ** The claims *)

(** C1.  The paginated search executor.  For every search, [_search_documents]
    (and its asynchronous twin) returns [out] exactly when the contract
    [paginates] does: it fetches the first page at offset 0, appends each
    page's hits in backend order, fetches the next page at the offset equal
    to the number of documents accumulated so far, and stops as soon as that
    number reaches the target count or the total the backend reported.  The
    target count is the one the specification states: the explicit size,
    else the [k] of a knn entry, else none; a search for 15 neighbours over
    pages of 10 stops after two pages, and a size of 10 given next to a knn
    entry for 25 stops it after one.  Termination is conditional: against a
    backend that reports a fixed total and never answers with an empty page
    below it, the search comes back within [total + 1] turns, target count
    or not.  Against a backend that serves pages of a positive size, a
    search with no target count fetches [page_count] pages at the offsets
    [0, page, 2 * page, ...] and returns all documents in backend order; for
    23 hits in pages of 10 these are three fetches at 0, 10, 20 and 23
    documents. *)
Theorem paginated_search_contract :
  (forall from_dict es kw w out w',
     (exists fuel, _search_documents from_dict es fuel kw w = (Ok out, w')) <->
     paginates from_dict es (client es) kw (stated_target (kw_size kw) (kw_knn kw)) [] w out w')
  /\ (forall from_dict es kw w out w',
     (exists fuel, _search_documents_async from_dict es fuel kw w = (Ok out, w')) <->
     paginates from_dict es _async_client kw (stated_target (kw_size kw) (kw_knn kw)) [] w out w')
  /\ (forall from_dict es total kw fuel w,
     progressing es total ->
     Z.to_nat total < fuel ->
     (_search_documents from_dict es fuel kw w).1 <> OutOfFuel
     /\ (_search_documents_async from_dict es fuel kw w).1 <> OutOfFuel)
  /\ (forall from_dict hits page docs kw fuel w,
     0 < page ->
     map_exn (_deserialize_document from_dict) hits = inr docs ->
     stated_target (kw_size kw) (kw_knn kw) = None ->
     coherent (self w) ->
     page_count (length hits) page <= fuel ->
     exists w',
       _search_documents from_dict (paging_backend hits page) fuel kw w = (Ok docs, w') /\
       search_offsets (net w') = (search_offsets (net w) ++ page_offsets (length hits) page)%list)
  /\ (exists w',
     _search_documents stub_from_dict (paging_backend (sample_hits 23) 10) 3 no_kwargs fresh_world
     = (Ok (sample_docs 23), w') /\
     search_offsets (net w') = [0; 10; 20] /\
     length (sample_docs 23) = 23)
  /\ (exists w',
     _search_documents stub_from_dict (paging_backend (sample_hits 23) 10) 3
       (knn_kwargs None 15) fresh_world
     = (Ok (take 20 (sample_docs 23)), w') /\
     search_offsets (net w') = [0; 10])
  /\ (exists w',
     _search_documents stub_from_dict (paging_backend (sample_hits 23) 10) 3
       (knn_kwargs (Some 10%Z) 25) fresh_world
     = (Ok (take 10 (sample_docs 23)), w') /\
     search_offsets (net w') = [0]).
Proof.
  repeat match goal with |- _ /\ _ => split end.
  - intros from_dict es kw w out w'. rewrite <- target_count_stated. split.
    + intros [fuel H]. now apply search_loop_paginates in H.
    + intros H. now apply paginates_search_loop in H.
  - intros from_dict es kw w out w'. rewrite <- target_count_stated. split.
    + intros [fuel H]. now apply search_loop_paginates in H.
    + intros H. now apply paginates_search_loop in H.
  - intros from_dict es total kw fuel w Hp Hfuel. split.
    + apply (search_loop_returns from_dict es (client es) kw (target_count kw) total
               (returns_client es) Hp fuel [] w). cbn. lia.
    + apply (search_loop_returns from_dict es _async_client kw (target_count kw) total
               returns__async_client Hp fuel [] w). cbn. lia.
  - intros from_dict hits page docs kw fuel w Hp Hd Hk Hco Hfuel.
    rewrite <- target_count_stated in Hk. now apply paging_search_all.
  - eexists. split; [vm_compute; reflexivity|]. split; reflexivity.
  - eexists. split; [vm_compute; reflexivity|]. reflexivity.
  - eexists. split; [vm_compute; reflexivity|]. reflexivity.
Qed.

Lemma paginated_search_witness :
  (exists w',
     _search_documents stub_from_dict (paging_backend (sample_hits 23) 10) 4 no_kwargs fresh_world
     = (Ok (sample_docs 23), w') /\
     search_offsets (net w') = [0; 10; 20])
  /\ (_search_documents stub_from_dict (paging_backend (sample_hits 23) 10) 24
        {| kw_size := Some 10%Z; kw_query := None; kw_knn := None |} fresh_world).1
     <> OutOfFuel.
Proof.
  destruct paginated_search_contract as (_ & _ & Hbound & H & _). split.
  - destruct (H stub_from_dict (sample_hits 23) 10 (sample_docs 23) no_kwargs 4 fresh_world)
      as (w' & Hrun & Hoff).
    + lia.
    + vm_compute. reflexivity.
    + reflexivity.
    + intros Hi. vm_compute in Hi. discriminate.
    + vm_compute. lia.
    + exists w'. split; [exact Hrun | rewrite Hoff; reflexivity].
  - apply (Hbound stub_from_dict (paging_backend (sample_hits 23) 10) 23%Z).
    + apply (paging_backend_progressing (sample_hits 23) 10). lia.
    + vm_compute. lia.
Defined.

(** Termination is not unconditional.  A backend that reports 23 matches
    but holds only 20 hands out two pages of 10 and then an empty one: the
    offset stays at 20 and a search with no target count fetches that page
    again and again, whatever fuel it is given. *)
Lemma search_without_target_may_not_terminate :
  ~ (exists fuel,
       (_search_documents stub_from_dict (stale_backend (sample_hits 20) 10 23)
          fuel no_kwargs fresh_world).1 <> OutOfFuel)
  /\ search_offsets (net (_search_documents stub_from_dict
                            (stale_backend (sample_hits 20) 10 23)
                            5 no_kwargs fresh_world).2) = [0; 10; 20; 20; 20].
Proof.
  split; [|vm_compute; reflexivity].
  intros [fuel H]. apply H. clear H.
  destruct fuel as [|[|fuel]]; [reflexivity | reflexivity |].
  unfold _search_documents. cbn [target_count no_kwargs kw_size kw_knn].
  erewrite search_loop_step; [|vm_compute; reflexivity|vm_compute; reflexivity].
  match goal with
  | |- context [if ?c then _ else _] => replace c with false by (vm_compute; reflexivity)
  end.
  erewrite search_loop_step; [|vm_compute; reflexivity|vm_compute; reflexivity].
  match goal with
  | |- context [if ?c then _ else _] => replace c with false by (vm_compute; reflexivity)
  end.
  apply (search_loop_stalls stub_from_dict (stale_backend (sample_hits 20) 10 23)
           _ no_kwargs _ 23%Z (fun w => ready (self w))).
  - intros w Hr. exists (sent w (CallSearch SyncClient (_index (self w)) 20 no_kwargs)).
    split; [|exact Hr].
    unfold search_page. rewrite (bind_Ok _ _ _ _ _ (client_ready _ w Hr)). reflexivity.
  - vm_compute. reflexivity.
  - split; reflexivity.
Qed.

(** C4.  Under policy SKIP, identifier conflicts reported by the backend
    count as success in [write_documents].  Once the batch of create actions
    is built, the client is at hand and the backend has answered the bulk
    call with [written] successes and per-item failures [errors], the
    outcome is decided by the failures that are not conflicts: it is
    [written] when there are none, and a [DocumentStoreError] listing only
    those otherwise.  In particular, when every failure is a conflict the
    call raises nothing and returns exactly [written]. *)
Theorem skip_conflicts_count_as_success
    to_dict repr es documents w actions w0 c w1 written errors :
  build_actions to_dict "create" documents w = (Ok actions, w0) ->
  client es w0 = (Ok c, w1) ->
  bulk es (net w1) c (_index (self w1)) actions RefreshWaitFor = inr (written, errors) ->
  Forall create_item errors ->
  write_documents to_dict repr es documents SKIP w =
    (match filter (fun e => is_conflict e = false) errors with
     | [] => Ok written
     | other => Raise (DocumentStoreError (write_failed_msg repr other))
     end,
     sent w1 (CallBulk c (_index (self w1)) actions RefreshWaitFor))
  /\ (Forall (fun e => is_conflict e = true) errors ->
      write_documents to_dict repr es documents SKIP w =
      (Ok written, sent w1 (CallBulk c (_index (self w1)) actions RefreshWaitFor))).
Proof.
  intros Hb Hc Hbulk Hcreate.
  pose proof (write_documents_skip to_dict repr es _ _ _ _ _ _ _ _ Hb Hc Hbulk Hcreate) as H.
  split; [exact H|]. intros Hall. rewrite H.
  replace (filter (fun e => is_conflict e = false) errors) with (@nil bulk_error); [done|].
  symmetry. clear -Hall. induction Hall as [|e errors He _ IH]; [done|].
  rewrite filter_cons. destruct (decide (is_conflict e = false)); [congruence | exact IH].
Qed.

Lemma skip_conflicts_witness :
  (write_documents stub_to_dict stub_repr
     (bulk_backend 0 [conflict_on "0"; conflict_on "1"]) sample_batch SKIP fresh_world).1
  = Ok 0%Z.
Proof.
  edestruct (skip_conflicts_count_as_success stub_to_dict stub_repr
               (bulk_backend 0 [conflict_on "0"; conflict_on "1"])
               sample_batch fresh_world) as [_ H].
  - reflexivity.
  - reflexivity.
  - reflexivity.
  - repeat constructor.
  - rewrite H; [reflexivity | repeat constructor].
Defined.

(** C5.  Score rescaling in BM25 retrieval.  With [scale_score] set, both
    retrieval variants return the documents of the plain retrieval with
    every present score [raw] replaced by [scale raw], which is
    [1 / (1 + np.exp (- (raw / 8)))] evaluated in double precision, and a
    document without a score is returned as it is.  The computed transform
    takes its values between 0 and 1, bounds included, whenever numpy's
    [exp] returns a number that is not negative; it never decreases when
    that [exp] never decreases; and it is not strict: it is exactly 1 as
    soon as the exponential is [2^-53] or less, and exactly 0 when the
    exponential overflows. *)
Theorem bm25_score_rescaling :
  (forall np_exp doc,
     score (rescale np_exp doc) = scale np_exp <$> score doc
     /\ id (rescale np_exp doc) = id doc /\ fields (rescale np_exp doc) = fields doc)
  /\ (forall np_exp doc, score doc = None -> rescale np_exp doc = doc)
  /\ (forall np_exp raw, scale np_exp raw = (1 / (1 + np_exp (- (raw / 8))))%float)
  /\ (forall from_dict normalize es np_exp fuel query filters fuzziness top_k w,
        _bm25_retrieval from_dict normalize es np_exp fuel query filters fuzziness top_k true w =
        match _bm25_retrieval from_dict normalize es np_exp fuel query filters fuzziness top_k false w with
        | (Ok documents, w') => (Ok (map (rescale np_exp) documents), w')
        | other => other
        end)
  /\ (forall from_dict normalize es np_exp fuel query filters fuzziness top_k w,
        _bm25_retrieval_async from_dict normalize es np_exp fuel query filters fuzziness top_k true w =
        match _bm25_retrieval_async from_dict normalize es np_exp fuel query filters fuzziness top_k false w with
        | (Ok documents, w') => (Ok (map (rescale np_exp) documents), w')
        | other => other
        end)
  /\ (forall np_exp raw,
        exp_nonneg np_exp -> PrimFloat.is_nan raw = false ->
        (0 <=? scale np_exp raw)%float = true /\ (scale np_exp raw <=? 1)%float = true)
  /\ (forall np_exp a b,
        exp_nonneg np_exp -> exp_monotone np_exp ->
        (b <=? a)%float = true -> (scale np_exp b <=? scale np_exp a)%float = true)
  /\ (forall np_exp raw,
        (0 <=? np_exp (- (raw / 8)))%float = true ->
        (np_exp (- (raw / 8)) <=? 0x1p-53)%float = true ->
        scale np_exp raw = 1%float)
  /\ (forall np_exp raw,
        np_exp (- (raw / 8))%float = infinity -> scale np_exp raw = 0%float).
Proof.
  repeat match goal with |- _ /\ _ => split end.
  - intros np_exp doc. split; [apply rescale_score | apply rescale_keeps].
  - apply rescale_unscored.
  - reflexivity.
  - intros. apply bm25_retrieval_scaled.
  - intros. apply bm25_retrieval_async_scaled.
  - intros np_exp raw Hpos Hraw. now apply scale_range.
  - intros np_exp a b Hpos Hmono Hab. now apply scale_monotone.
  - intros np_exp raw. apply scale_saturates_high.
  - intros np_exp raw. apply scale_saturates_low.
Qed.

Lemma bm25_score_rescaling_witness :
  (scale stub_exp (-8) <=? scale stub_exp 0)%float = true
  /\ ((0 <=? scale stub_exp 0)%float = true /\ (scale stub_exp 0 <=? 1)%float = true)
  /\ scale stub_exp 300 = 1%float.
Proof.
  destruct bm25_score_rescaling as (_ & _ & _ & _ & _ & Hrange & Hmono & Hhigh & _).
  split; [|split].
  - apply (Hmono stub_exp 0%float (-8)%float stub_exp_nonneg stub_exp_monotone). reflexivity.
  - apply (Hrange stub_exp 0%float stub_exp_nonneg). reflexivity.
  - apply (Hhigh stub_exp 300%float); reflexivity.
Defined.

(** The rescaling is not strict.  Raw scores of 300 and 1000 are both
    rescaled to exactly 1.0, and a raw score of -6000 to exactly 0.0: the
    larger of two raw scores does not always get the larger rescaled score,
    the rescaled scores are not all strictly between 0 and 1, and a
    retrieval that finds hits scored 300 and 1000 returns both documents
    with the score 1.0. *)
Lemma rescaling_saturates :
  scale stub_exp 300 = 1%float
  /\ scale stub_exp 1000 = 1%float
  /\ scale stub_exp (-6000) = 0%float
  /\ ~ (forall a b : float,
          (b <? a)%float = true -> (scale stub_exp b <? scale stub_exp a)%float = true)
  /\ ~ (forall raw : float,
          (0 <? scale stub_exp raw)%float = true /\ (scale stub_exp raw <? 1)%float = true)
  /\ (exists w',
        _bm25_retrieval stub_from_dict stub_normalize
          (paging_backend [scored_hit "a" 300; scored_hit "b" 1000] 10) stub_exp
          1 "bm25" None "AUTO" 10 true fresh_world
        = (Ok [ {| id := "a"; score := Some 1%float; fields := ∅ |};
                {| id := "b"; score := Some 1%float; fields := ∅ |} ], w')).
Proof.
  repeat match goal with |- _ /\ _ => split end; try reflexivity.
  - intros H. specialize (H 1000%float 300%float eq_refl). vm_compute in H. discriminate.
  - intros H. destruct (H 300%float) as [_ H1]. vm_compute in H1. discriminate.
  - eexists. vm_compute. reflexivity.
Qed.

(** C6.  The default candidate pool of vector retrieval.  When
    [num_candidates] is not given, every search request that
    [_embedding_retrieval] and [_embedding_retrieval_async] send carries a
    knn entry asking for [top_k] neighbours out of exactly [10 * top_k]
    candidates; with [top_k = 5] the request that reaches the backend has a
    pool of 50. *)
Theorem default_candidate_pool :
  (forall from_dict normalize es fuel query_embedding filters top_k,
     emits (setup_or_search (knn_pool top_k (10 * top_k)))
           (_embedding_retrieval from_dict normalize es fuel query_embedding filters top_k None)
     /\ emits (setup_or_search (knn_pool top_k (10 * top_k)))
           (_embedding_retrieval_async from_dict normalize es fuel query_embedding filters top_k None))
  /\ knn_pools (net (_embedding_retrieval stub_from_dict stub_normalize
                       (paging_backend (sample_hits 3) 10) 2 [1%float] None 5 None fresh_world).2)
     = [50%Z]
  /\ knn_pools (net (_embedding_retrieval_async stub_from_dict stub_normalize
                       (paging_backend (sample_hits 3) 10) 2 [1%float] None 5 None fresh_world).2)
     = [50%Z].
Proof.
  split; [|split; reflexivity].
  intros from_dict normalize es fuel query_embedding filters top_k.
  pose proof (emits_embedding_retrieval from_dict normalize es fuel
                query_embedding filters top_k None) as Hs.
  pose proof (emits_embedding_retrieval_async from_dict normalize es fuel
                query_embedding filters top_k None) as Ha.
  cbn [sync_num_candidates async_num_candidates] in Hs, Ha.
  rewrite (Z.mul_comm top_k 10) in Hs, Ha. now split.
Qed.

(** C7.  A non-empty filter whose root has neither an ["operator"] nor a
    ["conditions"] key makes [filter_documents] and [filter_documents_async]
    raise [ValueError] in the world they were called in: no request has been
    sent and the store object is unchanged. *)
Theorem malformed_filter_rejected_first
    from_dict normalize es fuel (filters : pydict) (w : World) :
  filters ≠ ∅ ->
  filters !! "operator" = None ->
  filters !! "conditions" = None ->
  filter_documents from_dict normalize es fuel (Some filters) w
    = (Raise (ValueError invalid_filter_msg), w)
  /\ filter_documents_async from_dict normalize es fuel (Some filters) w
    = (Raise (ValueError invalid_filter_msg), w).
Proof.
  intros Hne Hop Hco. split.
  - now apply filter_documents_invalid.
  - now apply filter_documents_async_invalid.
Qed.

Lemma malformed_filter_witness :
  filter_documents stub_from_dict stub_normalize unreachable_backend 3
    (Some {[ "field" := PStr "meta.year" ]}) fresh_world
  = (Raise (ValueError invalid_filter_msg), fresh_world).
Proof.
  apply (malformed_filter_rejected_first stub_from_dict stub_normalize unreachable_backend 3
           {[ "field" := PStr "meta.year" ]} fresh_world).
  - intros H. apply (f_equal (fun m : pydict => m !! "field")) in H. vm_compute in H. discriminate.
  - reflexivity.
  - reflexivity.
Defined.



(** C2.  The verb of a bulk write, by policy.  Every action of the one bulk
    call carries the verb picked from the resolved policy.  In
    [write_documents] that verb is ["index"] for OVERWRITE and ["create"]
    for FAIL, SKIP and NONE.  In [write_documents_async] it is ["create"]
    for FAIL and NONE but ["index"] for OVERWRITE and also for SKIP: a SKIP
    write through the asynchronous variant sends upserts. *)
Theorem write_verb_by_policy :
  (forall to_dict repr es documents policy,
     emits (setup_or_bulk (all_verbs (sync_op_type (resolve_policy policy)) RefreshWaitFor))
           (write_documents to_dict repr es documents policy)
     /\ emits (setup_or_bulk (all_verbs (async_op_type (resolve_policy policy)) RefreshTrue))
           (write_documents_async to_dict repr es documents policy))
  /\ (forall policy,
       sync_op_type (resolve_policy policy) =
       match policy with OVERWRITE => "index" | FAIL | SKIP | NONE => "create" end)
  /\ (forall policy,
       async_op_type (resolve_policy policy) =
       match policy with OVERWRITE | SKIP => "index" | FAIL | NONE => "create" end)
  /\ bulk_verbs (net (write_documents stub_to_dict stub_repr (bulk_backend 2 [])
                        sample_batch SKIP fresh_world).2) = [["create"; "create"]]
  /\ bulk_verbs (net (write_documents_async stub_to_dict stub_repr (bulk_backend 2 [])
                        sample_batch SKIP fresh_world).2) = [["index"; "index"]].
Proof.
  split; [|split; [|split; [|split]]].
  - intros. split; [apply emits_write_documents | apply emits_write_documents_async].
  - now intros [].
  - now intros [].
  - reflexivity.
  - reflexivity.
Qed.

(** C3.  Conflicts under policy FAIL.  The backend reports two rejected
    creates and one failure of another kind.  [write_documents] raises one
    [DuplicateDocumentError] naming both identifiers, ahead of the other
    failure.  [write_documents_async] raises a [DocumentStoreError] whose
    text names the first identifier only; on a ready store it never raises
    a [DuplicateDocumentError] at all. *)
Theorem conflicts_under_fail :
  (write_documents stub_to_dict stub_repr
     (bulk_backend 0 [conflict_on "0"; mapping_failure_on "2"; conflict_on "1"])
     sample_batch FAIL fresh_world).1
  = Raise (DuplicateDocumentError "IDs '0, 1' already exist in the document store.")
  /\ (write_documents_async stub_to_dict stub_repr
     (bulk_backend 0 [conflict_on "0"; mapping_failure_on "2"; conflict_on "1"])
     sample_batch FAIL fresh_world).1
  = Raise (DocumentStoreError
             "Failed to write documents to Elasticsearch: ID '0' already exists in the document store")
  /\ (forall to_dict repr es documents policy w e w',
     ready (self w) ->
     write_documents_async to_dict repr es documents policy w = (Raise e, w') ->
     is_DuplicateDocumentError e = false).
Proof.
  split; [reflexivity|]. split; [reflexivity|].
  intros. eapply write_documents_async_never_duplicate; eauto.
Qed.

(** C8.  Validation and the first network contact.  The synchronous
    variants raise [ValueError] for an empty query, an empty embedding and a
    batch that starts with a non-document in the world they were called in.
    The asynchronous variants set the store up first: on a fresh store the
    connectivity probe and the index check reach the backend before the
    [ValueError], and against an unreachable cluster the caller gets the
    transport error instead of the [ValueError]. *)
Theorem validation_and_first_contact :
  (forall from_dict normalize es np_exp fuel filters fuzziness top_k scale_score w,
     _bm25_retrieval from_dict normalize es np_exp fuel "" filters fuzziness top_k scale_score w
     = (Raise (ValueError empty_query_msg), w))
  /\ (forall from_dict normalize es fuel filters top_k num_candidates w,
     _embedding_retrieval from_dict normalize es fuel [] filters top_k num_candidates w
     = (Raise (ValueError empty_embedding_msg), w))
  /\ (forall to_dict repr es v rest policy w,
     write_documents to_dict repr es (Other v :: rest) policy w
     = (Raise (ValueError not_documents_msg), w))
  /\ (let r := _bm25_retrieval_async stub_from_dict stub_normalize (paging_backend [] 10)
                 stub_exp 1 "" None "AUTO" 10 false fresh_world in
      r.1 = Raise (ValueError empty_query_msg)
      /\ net r.2 = [CallInfo; CallIndicesExists "default"])
  /\ (let r := _embedding_retrieval_async stub_from_dict stub_normalize (paging_backend [] 10)
                 1 [] None 10 None fresh_world in
      r.1 = Raise (ValueError empty_embedding_msg)
      /\ net r.2 = [CallInfo; CallIndicesExists "default"])
  /\ (let r := write_documents_async stub_to_dict stub_repr (paging_backend [] 10)
                 [Other PNone] NONE fresh_world in
      r.1 = Raise (ValueError not_documents_msg)
      /\ net r.2 = [CallInfo; CallIndicesExists "default"])
  /\ (_bm25_retrieval_async stub_from_dict stub_normalize unreachable_backend
        stub_exp 1 "" None "AUTO" 10 false fresh_world).1
     = Raise (TransportError "connection refused").
Proof.
  split; [|split; [|split]].
  - intros. unfold _bm25_retrieval. reflexivity.
  - intros. unfold _embedding_retrieval. reflexivity.
  - intros. unfold write_documents. reflexivity.
  - cbv zeta. repeat split; vm_compute; reflexivity.
Qed.

(** C9.  The synchronous and asynchronous variants side by side.  For the
    same arguments and the same backend answers they differ: a SKIP write
    that meets conflicts returns the written count synchronously and raises
    [DocumentStoreError] asynchronously; the bulk call waits for a
    refresh in one and forces it in the other; a candidate pool given as 0
    becomes [10 * top_k] in one and stays 0 in the other. *)
Theorem sync_async_differences :
  (write_documents stub_to_dict stub_repr (bulk_backend 0 [conflict_on "0"; conflict_on "1"])
     sample_batch SKIP fresh_world).1 = Ok 0%Z
  /\ (write_documents_async stub_to_dict stub_repr (bulk_backend 0 [conflict_on "0"; conflict_on "1"])
     sample_batch SKIP fresh_world).1
     = Raise (DocumentStoreError
                ("Failed to write documents to Elasticsearch: "
                 ++ "Failed to write documents to Elasticsearch. Errors:" ++ newline ++ "[0, 1]"))
  /\ bulk_refresh (net (write_documents stub_to_dict stub_repr (bulk_backend 2 [])
                          sample_batch OVERWRITE fresh_world).2) = [RefreshWaitFor]
  /\ bulk_refresh (net (write_documents_async stub_to_dict stub_repr (bulk_backend 2 [])
                          sample_batch OVERWRITE fresh_world).2) = [RefreshTrue]
  /\ knn_pools (net (_embedding_retrieval stub_from_dict stub_normalize
                       (paging_backend (sample_hits 3) 10) 2 [1%float] None 5 (Some 0%Z) fresh_world).2)
     = [50%Z]
  /\ knn_pools (net (_embedding_retrieval_async stub_from_dict stub_normalize
                       (paging_backend (sample_hits 3) 10) 2 [1%float] None 5 (Some 0%Z) fresh_world).2)
     = [0%Z].
Proof. repeat split; reflexivity. Qed.

(** ** Further properties, on concrete runs *)

Lemma write_documents_fail_witness :
  (write_documents stub_to_dict stub_repr
     (bulk_backend 0 [conflict_on "0"; mapping_failure_on "2"; conflict_on "1"])
     sample_batch NONE fresh_world).1
  = Raise (DuplicateDocumentError "IDs '0, 1' already exist in the document store.").
Proof.
  rewrite (write_documents_fail stub_to_dict stub_repr
             (bulk_backend 0 [conflict_on "0"; mapping_failure_on "2"; conflict_on "1"])
             sample_batch NONE fresh_world
             [ {| _op_type := "create"; _id := "0"; _source := stub_to_dict (sample_doc 0) |};
               {| _op_type := "create"; _id := "1"; _source := stub_to_dict (sample_doc 1) |} ]
             fresh_world SyncClient
             (client (bulk_backend 0 []) fresh_world).2 0%Z
             [conflict_on "0"; mapping_failure_on "2"; conflict_on "1"]
             eq_refl eq_refl eq_refl eq_refl ltac:(repeat constructor)).
  reflexivity.
Defined.

Lemma search_stalls_witness :
  (_search_documents stub_from_dict (paging_backend (sample_hits 1) 0) 64 no_kwargs fresh_world).1
  = OutOfFuel.
Proof.
  apply (search_stalls_on_empty_pages stub_from_dict (sample_hit 0) [] no_kwargs 64).
  - reflexivity.
  - intros Hi. vm_compute in Hi. discriminate.
Defined.

Lemma paging_search_terminates_witness :
  exists m w',
    _search_documents stub_from_dict (paging_backend (sample_hits 23) 10) 3
      {| kw_size := Some 10%Z; kw_query := None; kw_knn := None |} fresh_world
    = (Ok (take m (sample_docs 23)), w').
Proof.
  apply (paging_search_terminates stub_from_dict (sample_hits 23) 10 (sample_docs 23)).
  - lia.
  - vm_compute. reflexivity.
  - intros Hi. vm_compute in Hi. discriminate.
  - vm_compute. lia.
Defined.

(** X4.  A first page that already meets the target count ends the search:
    against a backend that serves pages, a search whose target count is at
    most the length of the first page makes one request, at offset 0, and
    returns that whole page; it is not cut down to the target count. *)
Lemma first_page_meets_target from_dict hits page docs kw k fuel w :
  0 < page ->
  map_exn (_deserialize_document from_dict) hits = inr docs ->
  target_count kw = Some k ->
  (k <= Z.of_nat (Nat.min page (length hits)))%Z ->
  coherent (self w) ->
  exists w',
    _search_documents from_dict (paging_backend hits page) (S fuel) kw w
    = (Ok (take page docs), w')
    /\ search_offsets (net w') = (search_offsets (net w) ++ [0])%list.
Proof.
  intros Hp Hd Hk Hle Hco.
  destruct (paging_search_page hits page kw 0 w Hco) as (w1 & Hpage & _ & Hoff).
  exists w1. split; [|exact Hoff].
  unfold _search_documents. rewrite Hk.
  rewrite (search_loop_step _ _ _ _ _ _ _ _ _ _ _ _ _ Hpage
             (paging_slice from_dict hits page docs Hd 0)).
  cbn [app]. rewrite !drop_0, length_take, (paging_docs_length from_dict hits docs Hd).
  now rewrite (proj2 (Z.leb_le _ _) Hle).
Qed.

Lemma explicit_size_is_the_target :
  exists w',
    _search_documents stub_from_dict (paging_backend (sample_hits 23) 10) 3
      {| kw_size := Some 10%Z; kw_query := None; kw_knn := None |} fresh_world
    = (Ok (take 10 (sample_docs 23)), w')
    /\ search_offsets (net w') = [0].
Proof.
  apply (first_page_meets_target stub_from_dict (sample_hits 23) 10 (sample_docs 23)
           {| kw_size := Some 10%Z; kw_query := None; kw_knn := None |} 10%Z 2 fresh_world).
  - lia.
  - vm_compute. reflexivity.
  - reflexivity.
  - vm_compute. discriminate.
  - intros Hi. vm_compute in Hi. discriminate.
Defined.

(** ** The set-up, on concrete runs *)

Lemma ensure_initialized_sets_up_witness :
  exists w',
    _ensure_initialized empty_cluster fresh_world = (Ok tt, w')
    /\ net w' = [CallInfo; CallIndicesExists "default";
                 CallIndicesCreate "default" (DefaultMapping "cosine")]
    /\ ready (self w')
    /\ _index (self w') = "default".
Proof.
  apply (ensure_initialized_sets_up empty_cluster fresh_world false); try reflexivity.
Defined.

Lemma ensure_initialized_failure_witness :
  _initialized (self (_ensure_initialized unreachable_backend fresh_world).2) = false.
Proof.
  apply (ensure_initialized_failure unreachable_backend fresh_world
           (TransportError "connection refused")
           (_ensure_initialized unreachable_backend fresh_world).2); reflexivity.
Defined.

(** X8.  What no method does.  Every method of the store, in every world
    and whatever its outcome, leaves the index name, the similarity
    function and the custom mapping as they were, never modifies a store
    that is initialised (so it never goes back to uninitialised), keeps the
    clients once they exist, and only appends to the request trace and to
    the warnings. *)
Theorem methods_are_steady to_dict from_dict normalize repr es helper_error np_exp :
  steady (_ensure_initialized es)
  /\ (forall fuel kw, steady (_search_documents from_dict es fuel kw))
  /\ (forall fuel kw, steady (_search_documents_async from_dict es fuel kw))
  /\ (forall fuel filters, steady (filter_documents from_dict normalize es fuel filters))
  /\ (forall fuel filters, steady (filter_documents_async from_dict normalize es fuel filters))
  /\ (forall documents policy, steady (write_documents to_dict repr es documents policy))
  /\ (forall documents policy, steady (write_documents_async to_dict repr es documents policy))
  /\ (forall ids, steady (delete_documents es ids))
  /\ (forall ids, steady (delete_documents_async es helper_error ids))
  /\ (forall fuel query filters fuzziness top_k scale_score,
        steady (_bm25_retrieval from_dict normalize es np_exp fuel query filters fuzziness top_k scale_score))
  /\ (forall fuel query filters fuzziness top_k scale_score,
        steady (_bm25_retrieval_async from_dict normalize es np_exp fuel query filters fuzziness top_k scale_score))
  /\ (forall fuel query_embedding filters top_k num_candidates,
        steady (_embedding_retrieval from_dict normalize es fuel query_embedding filters top_k num_candidates))
  /\ (forall fuel query_embedding filters top_k num_candidates,
        steady (_embedding_retrieval_async from_dict normalize es fuel query_embedding filters top_k num_candidates)).
Proof.
  repeat match goal with |- _ /\ _ => split end; intros.
  - apply steady_ensure_initialized.
  - apply steady_search_documents.
  - apply steady_search_documents_async.
  - apply steady_filter_documents.
  - apply steady_filter_documents_async.
  - apply steady_write_documents.
  - apply steady_write_documents_async.
  - apply steady_delete_documents.
  - apply steady_delete_documents_async.
  - apply steady_bm25_retrieval.
  - apply steady_bm25_retrieval_async.
  - apply steady_embedding_retrieval.
  - apply steady_embedding_retrieval_async.
Qed.

(** X9.  Lazy set-up.  Whenever a data operation returns a value, whatever
    the state of the store before the call, the store is ready afterwards:
    every successful path of every operation has gone through the set-up. *)
Theorem operations_leave_the_store_ready to_dict from_dict normalize repr es helper_error np_exp :
  (forall fuel filters, leaves_ready (filter_documents from_dict normalize es fuel filters))
  /\ (forall fuel filters, leaves_ready (filter_documents_async from_dict normalize es fuel filters))
  /\ (forall documents policy, leaves_ready (write_documents to_dict repr es documents policy))
  /\ (forall documents policy, leaves_ready (write_documents_async to_dict repr es documents policy))
  /\ (forall ids, leaves_ready (delete_documents es ids))
  /\ (forall ids, leaves_ready (delete_documents_async es helper_error ids))
  /\ (forall fuel query filters fuzziness top_k scale_score,
        leaves_ready (_bm25_retrieval from_dict normalize es np_exp fuel query filters fuzziness top_k scale_score))
  /\ (forall fuel query filters fuzziness top_k scale_score,
        leaves_ready (_bm25_retrieval_async from_dict normalize es np_exp fuel query filters fuzziness top_k scale_score))
  /\ (forall fuel query_embedding filters top_k num_candidates,
        leaves_ready (_embedding_retrieval from_dict normalize es fuel query_embedding filters top_k num_candidates))
  /\ (forall fuel query_embedding filters top_k num_candidates,
        leaves_ready (_embedding_retrieval_async from_dict normalize es fuel query_embedding filters top_k num_candidates)).
Proof.
  repeat match goal with |- _ /\ _ => split end; intros.
  - apply leaves_ready_filter_documents.
  - apply leaves_ready_filter_documents_async.
  - apply leaves_ready_write_documents.
  - apply leaves_ready_write_documents_async.
  - apply leaves_ready_delete_documents.
  - apply leaves_ready_delete_documents_async.
  - apply leaves_ready_bm25_retrieval.
  - apply leaves_ready_bm25_retrieval_async.
  - apply leaves_ready_embedding_retrieval.
  - apply leaves_ready_embedding_retrieval_async.
Qed.

Lemma operations_leave_the_store_ready_witness :
  ready (self (write_documents stub_to_dict stub_repr (bulk_backend 2 [])
                 sample_batch NONE fresh_world).2).
Proof.
  destruct (operations_leave_the_store_ready stub_to_dict stub_from_dict stub_normalize
              stub_repr (bulk_backend 2 []) stub_bulk_index_error stub_exp) as (_ & _ & H & _).
  apply (H sample_batch NONE fresh_world 2%Z). vm_compute. reflexivity.
Defined.

(** ** Filtering without a filter *)

Lemma paging_ensure_initialized hits page w :
  coherent (self w) ->
  exists w1, _ensure_initialized (paging_backend hits page) w = (Ok tt, w1)
             /\ ready (self w1) /\ search_offsets (net w1) = search_offsets (net w).
Proof.
  intros Hco. destruct (_initialized (self w)) eqn:Hi.
  - exists w. rewrite ensure_initialized_ready by done. repeat split; auto.
  - eexists. unfold _ensure_initialized, bind, get_self. rewrite Hi. cbn.
    split; [reflexivity|]. split; [done|].
    cbn [net]. rewrite !search_offsets_app. cbn. now rewrite !app_nil_r.
Qed.

(** X15.  With no filter, or an empty one, [filter_documents] returns every
    document of the index: against a backend that serves pages of a
    positive size it fetches page after page from offset 0 and returns all
    documents in backend order, whatever the normaliser would do. *)
Lemma filter_documents_returns_everything from_dict normalize hits page docs fuel filters w :
  0 < page ->
  map_exn (_deserialize_document from_dict) hits = inr docs ->
  is_given filters = false ->
  coherent (self w) ->
  page_count (length hits) page <= fuel ->
  exists w',
    filter_documents from_dict normalize (paging_backend hits page) fuel filters w = (Ok docs, w')
    /\ search_offsets (net w') = (search_offsets (net w) ++ page_offsets (length hits) page)%list.
Proof.
  intros Hp Hd Hg Hco Hfuel. rewrite filter_documents_unfiltered by done.
  destruct (paging_ensure_initialized hits page w Hco) as (w1 & Hinit & Hr & Hoff).
  rewrite (bind_Ok _ _ _ _ _ Hinit). rewrite <- Hoff.
  apply (paging_search_all from_dict hits page docs Hp Hd no_kwargs fuel w1);
    [reflexivity | now apply ready_coherent | done].
Qed.

Lemma filter_documents_returns_everything_witness :
  exists w',
    filter_documents stub_from_dict failing_normalize (paging_backend (sample_hits 23) 10) 3
      (Some ∅) fresh_world = (Ok (sample_docs 23), w')
    /\ search_offsets (net w') = [0; 10; 20].
Proof.
  destruct (filter_documents_returns_everything stub_from_dict failing_normalize
              (sample_hits 23) 10 (sample_docs 23) 3 (Some ∅) fresh_world)
    as (w' & Hrun & Hoff).
  - lia.
  - vm_compute. reflexivity.
  - reflexivity.
  - intros Hi. vm_compute in Hi. discriminate.
  - vm_compute. lia.
  - exists w'. split; [exact Hrun | rewrite Hoff; reflexivity].
Defined.

Lemma filter_documents_uses_normaliser_witness :
  filter_documents stub_from_dict failing_normalize unreachable_backend 3
    (Some {[ "operator" := PStr "AND" ]}) ready_world
  = (Raise (ValueError "unsupported filter"), ready_world)
  /\ filter_documents_async stub_from_dict failing_normalize unreachable_backend 3
    (Some {[ "operator" := PStr "AND" ]}) ready_world
  = (Raise (ValueError "unsupported filter"), ready_world).
Proof.
  apply (filter_documents_uses_normaliser stub_from_dict failing_normalize unreachable_backend 3
           {[ "operator" := PStr "AND" ]} ready_world).
  - intros H. apply (f_equal (fun m : pydict => m !! "operator")) in H. vm_compute in H.
    discriminate.
  - left. eexists. reflexivity.
  - split; reflexivity.
Defined.

(** ** Writes and deletions, on concrete runs *)

Lemma write_sends_stripped_documents_witness :
  net (write_documents stub_to_dict stub_repr (bulk_backend 2 [])
         [IsDocument sparse_doc; IsDocument (sample_doc 1)] FAIL ready_world).2
  = [CallBulk SyncClient "default"
       [ {| _op_type := "create"; _id := "s"; _source := {[ "id" := PStr "s" ]} |};
         {| _op_type := "create"; _id := "1"; _source := {[ "id" := PStr "1" ]} |} ]
       RefreshWaitFor]
  /\ warnings (write_documents stub_to_dict stub_repr (bulk_backend 2 [])
         [IsDocument sparse_doc; IsDocument (sample_doc 1)] FAIL ready_world).2
  = [sparse_warning "s"].
Proof.
  destruct (write_sends_stripped_documents stub_to_dict stub_repr (bulk_backend 2 [])
              [IsDocument sparse_doc; IsDocument (sample_doc 1)] FAIL ready_world)
    as ([Hnet Hwarn] & _ & _).
  - repeat constructor.
  - split; reflexivity.
  - split; [rewrite Hnet | rewrite Hwarn]; vm_compute; reflexivity.
Defined.


Lemma overwrite_failure_witness :
  (write_documents stub_to_dict stub_repr (bulk_backend 1 [index_failure_on "1"])
     sample_batch OVERWRITE ready_world).1
  = Raise (KeyError "create").
Proof.
  rewrite (overwrite_failure_raises_key_error stub_to_dict stub_repr
             (bulk_backend 1 [index_failure_on "1"]) sample_batch ready_world
             [ {| _op_type := "index"; _id := "0"; _source := stub_to_dict (sample_doc 0) |};
               {| _op_type := "index"; _id := "1"; _source := stub_to_dict (sample_doc 1) |} ]
             ready_world SyncClient ready_world 1%Z (index_failure_on "1") []
             eq_refl eq_refl eq_refl eq_refl).
  reflexivity.
Defined.

Lemma write_documents_async_outcomes_witness :
  exists msg w',
    write_documents_async stub_to_dict stub_repr (bulk_backend 1 [index_failure_on "1"])
      sample_batch SKIP ready_world
    = (Raise (DocumentStoreError msg), w').
Proof.
  pose proof (write_documents_async_outcomes stub_to_dict stub_repr
                (bulk_backend 1 [index_failure_on "1"]) sample_batch SKIP ready_world
                [ {| _op_type := "index"; _id := "0"; _source := stub_to_dict (sample_doc 0) |};
                  {| _op_type := "index"; _id := "1"; _source := stub_to_dict (sample_doc 1) |} ]
                ready_world ltac:(split; reflexivity) eq_refl) as H.
  cbv zeta in H. cbn [bulk bulk_backend] in H. destruct H as [msg H]. eauto.
Defined.

Lemma search_errors_pass_through_witness :
  (_search_documents stub_from_dict unreachable_backend 3 no_kwargs ready_world).1
  = Raise (TransportError "connection refused").
Proof.
  destruct (search_errors_pass_through stub_from_dict unreachable_backend 2 no_kwargs
              ready_world (TransportError "connection refused")) as [H _].
  - split; reflexivity.
  - rewrite H; reflexivity.
Defined.

Lemma delete_documents_ignores_failures_witness :
  delete_documents (bulk_backend 1 [not_found_on "9"]) ["0"; "9"] ready_world
  = (Ok tt,
     sent ready_world
       (CallBulk SyncClient "default"
          [ {| _op_type := "delete"; _id := "0"; _source := ∅ |};
            {| _op_type := "delete"; _id := "9"; _source := ∅ |} ]
          RefreshWaitFor)).
Proof.
  destruct (delete_documents_ignores_failures (bulk_backend 1 [not_found_on "9"])
              ["0"; "9"] ready_world) as (actions & Hop & Hid & Hsrc & Hrun).
  - split; reflexivity.
  - rewrite (Hrun 1%Z [not_found_on "9"] eq_refl). do 3 f_equal.
    destruct actions as [|[op0 id0 src0] [|[op1 id1 src1] [|? ?]]]; try discriminate.
    cbn in Hop, Hid. injection Hop as -> ->. injection Hid as -> ->.
    inversion Hsrc as [|? ? Hs0 Hsrc']. inversion Hsrc' as [|? ? Hs1 _]. cbn in Hs0, Hs1.
    now subst.
Defined.

Lemma delete_documents_async_outcomes_witness :
  (delete_documents_async (bulk_backend 1 [not_found_on "9"]) stub_bulk_index_error
     ["0"; "9"] ready_world).1
  = Raise (DocumentStoreError
             "Failed to delete documents from Elasticsearch: 1 document(s) failed to index.").
Proof.
  rewrite (delete_documents_async_outcomes (bulk_backend 1 [not_found_on "9"])
             stub_bulk_index_error ["0"; "9"] ready_world); [|split; reflexivity].
  vm_compute. reflexivity.
Defined.

Lemma embedding_requests_witness :
  knn_pools (net (_embedding_retrieval stub_from_dict stub_normalize
                    (paging_backend (sample_hits 3) 10) 2 [1%float] None 5 (Some 40%Z)
                    ready_world).2) = [40%Z]
  /\ emits (setup_or_search (knn_shape stub_normalize [1%float] None 5 40))
        (_embedding_retrieval_async stub_from_dict stub_normalize
           (paging_backend (sample_hits 3) 10) 2 [1%float] None 5 (Some 40%Z)).
Proof.
  split; [reflexivity|].
  apply (embedding_requests stub_from_dict stub_normalize (paging_backend (sample_hits 3) 10)
           2 [1%float] None 5%Z 40%Z). lia.
Defined.

Lemma deserialize_data_copies_witness :
  exists data,
    _deserialize_data highlighted_hit_with_metadata = inr data
    /\ data !! "id" = Some (PStr "7").
Proof.
  destruct (_deserialize_data highlighted_hit_with_metadata) as [e|data] eqn:H;
    [vm_compute in H; discriminate|].
  exists data. split; [reflexivity|].
  rewrite (deserialize_data_copies highlighted_hit_with_metadata data
             {[ "id" := PStr "7"; "metadata" := PDict ∅ ]} "id" H eq_refl);
    [reflexivity | discriminate | discriminate].
Defined.

(** ** The text embedder *)

(** X23.  [run] checks its input before anything else: a value that is not
    a string raises [TypeError] whether or not the model is loaded, and a
    string given to a component that was not warmed up raises
    [RuntimeError]; in neither case does the result depend on an embedding
    backend. *)
Lemma embedder_run_checks_first (self : Fastembed.FastembedTextEmbedder) (text : pyval) :
  ((forall s, text <> PStr s) ->
   Fastembed.run self text = inl (Fastembed.TypeError Fastembed.not_a_string_msg))
  /\ (forall s, text = PStr s -> Fastembed.embedding_backend self = None ->
      Fastembed.run self text = inl (Fastembed.RuntimeError Fastembed.not_loaded_msg)).
Proof.
  split.
  - intros Hnot. destruct text; try reflexivity. now destruct (Hnot s).
  - intros s -> Hnone. unfold Fastembed.run. now rewrite Hnone.
Qed.

Lemma embedder_run_checks_first_witness :
  Fastembed.run (Fastembed.set_backend sample_embedder stub_embedding_backend)
                (PList [PStr "a text"])
  = inl (Fastembed.TypeError Fastembed.not_a_string_msg)
  /\ Fastembed.run sample_embedder (PStr "a text")
  = inl (Fastembed.RuntimeError Fastembed.not_loaded_msg).
Proof.
  split.
  - apply (embedder_run_checks_first
             (Fastembed.set_backend sample_embedder stub_embedding_backend)
             (PList [PStr "a text"])). discriminate.
  - apply (embedder_run_checks_first sample_embedder (PStr "a text")) with (s := "a text");
      reflexivity.
Defined.

(** X24.  [warm_up] loads the backend once: on a component without backend
    it asks the factory with the component's model name, cache directory,
    threads and local-files flag and keeps the answer; a second [warm_up]
    asks nothing and changes nothing; a factory that fails leaves the
    component as it was.  After it, [run] hands the backend the one-element
    batch [prefix + text + suffix] with the component's own progress-bar
    and parallel settings and returns the first vector of the answer. *)
Lemma embedder_warm_up_then_run factory (self : Fastembed.FastembedTextEmbedder) asked :
  Fastembed.embedding_backend self = None ->
  let req := {| Fastembed.fr_model_name := Fastembed.model_name self;
                Fastembed.fr_cache_dir := Fastembed.cache_dir self;
                Fastembed.fr_threads := Fastembed.threads self;
                Fastembed.fr_local_files_only := Fastembed.local_files_only self |} in
  match factory req with
  | inl e => Fastembed.warm_up factory self asked = inl e
  | inr backend =>
      let loaded := Fastembed.set_backend self backend in
      Fastembed.warm_up factory self asked = inr (loaded, (asked ++ [req])%list)
      /\ Fastembed.warm_up factory loaded (asked ++ [req])%list
         = inr (loaded, (asked ++ [req])%list)
      /\ forall text,
           Fastembed.run loaded (PStr text) =
           match Fastembed.embed backend
                   [Fastembed.prefix self ++ text ++ Fastembed.suffix self]
                   (Fastembed.progress_bar self) (Fastembed.parallel self) with
           | inl e => inl e
           | inr [] => inl (Fastembed.IndexError "list index out of range")
           | inr (embedding :: _) => inr embedding
           end
  end.
Proof.
  intros Hnone req. unfold Fastembed.warm_up. rewrite Hnone. fold req.
  destruct (factory req) as [e|backend]; [reflexivity|].
  cbv zeta. repeat split.
Qed.

Lemma embedder_warm_up_then_run_witness :
  exists loaded asked,
    Fastembed.warm_up stub_factory sample_embedder [] = inr (loaded, asked)
    /\ length asked = 1
    /\ Fastembed.run loaded (PStr "what is BM25?") = inr [1%float; 2%float].
Proof.
  pose proof (embedder_warm_up_then_run stub_factory sample_embedder [] eq_refl) as H.
  cbv zeta in H. cbn [stub_factory] in H. destruct H as (Hwarm & _ & Hrun).
  eexists _, _. split; [exact Hwarm|]. split; [reflexivity|].
  rewrite Hrun. reflexivity.
Defined.
